(** * Movie discovery-and-ranking engine (OMDb service): a shallow embedding

    The development follows [services/omdb.go] and [handlers/movie.go]:
    the Go standard-library functions the service relies on come first
    ([strings], [strconv], [sort]), then the data model of
    [models/movie.go], the upstream catalog as a state-passing oracle,
    the service operations, and finally the properties. *)

From Stdlib Require Import ZArith QArith String Ascii List Lia.
From stdpp Require Import base option list strings gmap.

Open Scope string_scope.
Open Scope list_scope.
Open Scope nat_scope.

(* ===================================================================== *)
(** ** Go [strings]: byte-level helpers *)
(* ===================================================================== *)

Module GoStrings.

(** [strings.Contains(s, substr)]: [substr] occurs in [s] as a run of bytes. *)
Fixpoint Contains (s substr : string) : bool :=
  String.prefix substr s ||
  match s with
  | EmptyString => false
  | String _ s' => Contains s' substr
  end.

(** [strings.Split(s, sep)] for a non-empty [sep]: cut at every
    occurrence of [sep], scanning from the left; [skip] counts the bytes
    of a separator that is being stepped over, [cur] is the piece read so
    far. *)
Fixpoint splitFrom (sep : string) (skip : nat) (cur s : string) : list string :=
  match s with
  | EmptyString => [cur]
  | String c s' =>
      match skip with
      | S k => splitFrom sep k cur s'
      | O =>
          if String.prefix sep s
          then cur :: splitFrom sep (String.length sep - 1) "" s'
          else splitFrom sep 0 (cur +:+ String c "") s'
      end
  end.

Definition Split (s sep : string) : list string := splitFrom sep 0 "" s.

(** ASCII case mapping, the restriction of [strings.ToLower] and
    [strings.EqualFold] to ASCII text. *)
Definition lowerByte (c : ascii) : ascii :=
  let n := nat_of_ascii c in
  if (65 <=? n)%nat && (n <=? 90)%nat then ascii_of_nat (n + 32) else c.

Fixpoint asciiToLower (s : string) : string :=
  match s with
  | EmptyString => EmptyString
  | String c s' => String (lowerByte c) (asciiToLower s')
  end.

Definition asciiEqualFold (s t : string) : bool :=
  String.eqb (asciiToLower s) (asciiToLower t).

End GoStrings.

(* ===================================================================== *)
(** ** Go [float64] values and [strconv.ParseFloat] *)
(* ===================================================================== *)

Module GoFloat.

(** The values of a [float64]: not-a-number, the two infinities, and the
    finite values, each of which is a rational number.  Comparison of two
    floats is comparison of these values; any comparison with NaN is
    false. *)
Inductive float64 : Type :=
  | NaN
  | Inf (negative : bool)
  | Fin (q : Q).

Definition Qlt_bool (p q : Q) : bool := negb (Qle_bool q p).

(** [x > y] on [float64]. *)
Definition gt (x y : float64) : bool :=
  match x, y with
  | NaN, _ | _, NaN => false
  | Inf false, Inf false => false
  | Inf false, _ => true
  | Inf true, _ => false
  | Fin _, Inf neg => neg
  | Fin p, Fin q => Qlt_bool q p
  end.

Definition zero : float64 := Fin 0.

Definition isNaN (x : float64) : bool :=
  match x with NaN => true | _ => false end.

(** The two results of [strconv.ParseFloat(s, 64)], value and error, as
    the documentation of [strconv] fixes them: a well-formed numeral gives
    its value and a nil error; a numeral that is not well formed gives 0
    and [ErrSyntax]; a well-formed numeral out of range gives an infinity
    and [ErrRange]. *)
Inductive ParseFloatResult : Type :=
  | Parsed (f : float64)
  | ErrSyntax
  | ErrRange (negative : bool).

(** The first component of the pair, which is all the service reads
    ([rating, _ := strconv.ParseFloat(...)]). *)
Definition value (r : ParseFloatResult) : float64 :=
  match r with
  | Parsed f => f
  | ErrSyntax => zero
  | ErrRange neg => Inf neg
  end.

(** The digits of a numeral. *)
Definition digitOf (c : ascii) : option Z :=
  let n := nat_of_ascii c in
  if (48 <=? n)%nat && (n <=? 57)%nat then Some (Z.of_nat (n - 48)) else None.

Fixpoint readDigits (s : string) (acc : Z) (count : nat) : Z * nat * string :=
  match s with
  | EmptyString => (acc, count, s)
  | String c s' =>
      match digitOf c with
      | Some d => readDigits s' (acc * 10 + d)%Z (S count)
      | None => (acc, count, s)
      end
  end.

(** [floor (log2 (n / d))] for positive [n] and [d]. *)
Definition floorLog2 (n d : Z) : Z :=
  let c := (Z.log2 n - Z.log2 d)%Z in
  let reached := if (0 <=? c)%Z then (d * 2 ^ c <=? n)%Z else (d <=? n * 2 ^ (- c))%Z in
  if reached then c else (c - 1)%Z.

(** The [float64] nearest to the positive rational [n / d], the even
    significand winning a tie: 53 bits of significand, exponent of the
    last bit from -1074 up; [None] when the value rounds beyond the
    largest finite [float64]. *)
Definition roundToFloat (n d : Z) : option Q :=
  let e := Z.max (floorLog2 n d - 52) (-1074) in
  let num := if (0 <=? e)%Z then n else (n * 2 ^ (- e))%Z in
  let den := if (0 <=? e)%Z then (d * 2 ^ e)%Z else d in
  let q := (num / den)%Z in
  let r := (num mod den)%Z in
  let m := if (den <? 2 * r)%Z then (q + 1)%Z
           else if (2 * r =? den)%Z && Z.odd q then (q + 1)%Z else q in
  if (0 <=? e)%Z then
    if (2 ^ 1024 <=? m * 2 ^ e)%Z then None else Some (inject_Z (m * 2 ^ e))
  else Some (Qmake m (Z.to_pos (2 ^ (- e)))).

(** The value [m * 10 ^ e10] of a numeral, rounded, with the sign.
    Exponents that put the value beyond every [float64], or below half
    the least one, are settled without computing the power. *)
Definition decimalValue (negative : bool) (m : Z) (digits : nat) (e10 : Z)
    : ParseFloatResult :=
  if (m =? 0)%Z then Parsed zero
  else if (400 <? e10)%Z then ErrRange negative
  else if (e10 + Z.of_nat digits <? - 400)%Z then Parsed zero
  else
    let rounded := if (0 <=? e10)%Z then roundToFloat (m * 10 ^ e10) 1
                   else roundToFloat m (10 ^ (- e10)) in
    match rounded with
    | None => ErrRange negative
    | Some q => Parsed (Fin (if negative then - q else q)%Q)
    end.

Definition signOf (s : string) : bool * string :=
  match s with
  | String "-"%char rest => (true, rest)
  | String "+"%char rest => (false, rest)
  | _ => (false, s)
  end.

(** The exponent part after [e] or [E]: an optional sign and at least
    one digit, up to the end of the string. *)
Definition readExponent (s : string) : option Z :=
  let '(negative, body) := signOf s in
  let '(v, count, rest) := readDigits body 0%Z 0%nat in
  match rest with
  | EmptyString => if (count =? 0)%nat then None else Some (if negative then - v else v)%Z
  | _ => None
  end.

(** [inf], [infinity] with an optional sign, and [nan], in any case. *)
Definition special (s : string) : option float64 :=
  let '(negative, body) := signOf s in
  let lower := GoStrings.asciiToLower body in
  if String.eqb lower "inf" || String.eqb lower "infinity" then Some (Inf negative)
  else if String.eqb (GoStrings.asciiToLower s) "nan" then Some NaN
  else None.

(** A parser for the decimal numerals of [strconv.ParseFloat(s, 64)]:
    an optional sign, digits with an optional point, an optional
    exponent, and the special values; the value is the nearest
    [float64], and a numeral that rounds beyond the largest one gives an
    infinity and [ErrRange].  Two forms that [ParseFloat] accepts as
    well are reported as not well formed here: hexadecimal numerals, and
    underscores between digits.  [ParseFloat] also stops adding up an
    exponent once it has reached 10000, which changes no result for a
    numeral shorter than 9000 bytes. *)
Definition parseDecimal (s : string) : ParseFloatResult :=
  match special s with
  | Some f => Parsed f
  | None =>
      let '(negative, body) := signOf s in
      let '(ip, ni, rest) := readDigits body 0%Z 0%nat in
      let '(m, nf, rest') :=
        match rest with
        | String "."%char frac => readDigits frac ip 0%nat
        | _ => (ip, 0%nat, rest)
        end in
      if (ni + nf =? 0)%nat then ErrSyntax
      else
        let exponent :=
          match rest' with
          | EmptyString => Some 0%Z
          | String c after =>
              if Ascii.eqb c "e" || Ascii.eqb c "E" then readExponent after else None
          end in
        match exponent with
        | None => ErrSyntax
        | Some ex => decimalValue negative m (ni + nf) (ex - Z.of_nat nf)
        end
  end.

End GoFloat.

(* ===================================================================== *)
(** ** Go [sort.Slice]: pattern-defeating quicksort ([sort/zsortfunc.go]) *)
(* ===================================================================== *)

Module GoSort.

Local Open Scope nat_scope.

Section Pdqsort.

Context {A : Type} (less : A → A → bool).

(** The slice is a list; [Less] and [Swap] are the two operations of
    [lessSwap].  The [less] closure of the service compares the elements
    currently stored at the two indices. *)
Definition Less (data : list A) (i j : nat) : bool :=
  match data !! i, data !! j with
  | Some x, Some y => less x y
  | _, _ => false
  end.

Definition Swap (data : list A) (i j : nat) : list A :=
  match data !! i, data !! j with
  | Some x, Some y => <[i:=y]> (<[j:=x]> data)
  | _, _ => data
  end.

(** [for j := i; j > a && data.Less(j, j-1); j-- { data.Swap(j, j-1) }] *)
Fixpoint insertDown (data : list A) (a j : nat) : list A :=
  match j with
  | O => data
  | S j' =>
      if (a <? j) && Less data j j' then insertDown (Swap data j j') a j' else data
  end.

(** [insertionSort_func]: [for i := a + 1; i < b; i++ { ... }] *)
Definition insertionSort_func (data : list A) (a b : nat) : list A :=
  foldl (λ d i, insertDown d a i) data (seq (a + 1) (b - (a + 1))).

(** [siftDown_func]; the loop runs while [root] grows below [hi], so [hi]
    rounds are enough. *)
Fixpoint siftDownLoop (rounds : nat) (data : list A) (root hi first : nat) : list A :=
  match rounds with
  | O => data
  | S rounds' =>
      let child := 2 * root + 1 in
      if hi <=? child then data
      else
        let child :=
          if (child + 1 <? hi) && Less data (first + child) (first + child + 1)
          then child + 1 else child in
        if negb (Less data (first + root) (first + child)) then data
        else siftDownLoop rounds' (Swap data (first + root) (first + child)) child hi first
  end.

Definition siftDown_func (data : list A) (lo hi first : nat) : list A :=
  siftDownLoop hi data lo hi first.

(** [heapSort_func]: build the heap, then pop the largest to the end. *)
Definition heapSort_func (data : list A) (a b : nat) : list A :=
  let first := a in
  let lo := 0 in
  let hi := b - a in
  let data :=
    foldl (λ d i, siftDown_func d i hi first) data (rev (seq 0 ((hi - 1) / 2 + 1))) in
  foldl (λ d i, siftDown_func (Swap d first (first + i)) lo i first) data (rev (seq 0 hi)).

(** [xorshift.Next] on a 64-bit word, [bits.Len] and [nextPowerOfTwo]. *)
Definition xorshiftNext (r : Z) : Z :=
  let w := (2 ^ 64)%Z in
  let r := Z.lxor r ((Z.shiftl r 13) mod w) in
  let r := Z.lxor r (Z.shiftr r 7) in
  Z.lxor r ((Z.shiftl r 17) mod w).

Definition bitsLen (n : nat) : nat :=
  if n =? 0 then 0 else S (Nat.log2 n).

Definition nextPowerOfTwo (length : nat) : Z := (2 ^ Z.of_nat (bitsLen length))%Z.

(** [breakPatterns_func]: three swaps around the middle with
    pseudo-random partners. *)
Fixpoint breakPatternsLoop (rounds i : nat) (data : list A) (random modulus : Z)
    (a length idx : nat) : list A :=
  match rounds with
  | O => data
  | S rounds' =>
      let random := xorshiftNext random in
      let other := Z.to_nat (Z.land random (modulus - 1)) in
      let other := if length <=? other then other - length else other in
      breakPatternsLoop rounds' (S i) (Swap data (idx + i) (a + other))
        random modulus a length idx
  end.

Definition breakPatterns_func (data : list A) (a b : nat) : list A :=
  let length := b - a in
  if 8 <=? length then
    breakPatternsLoop 3 0 data (Z.of_nat length) (nextPowerOfTwo length)
      a length (a + (length / 4) * 2 - 1)
  else data.

Inductive sortedHint : Type := unknownHint | increasingHint | decreasingHint.

(** [order2_func], [median_func], [medianAdjacent_func]: the swap counter
    is threaded as a value. *)
Definition order2_func (data : list A) (a b swaps : nat) : nat * nat * nat :=
  if Less data b a then (b, a, S swaps) else (a, b, swaps).

Definition median_func (data : list A) (a b c swaps : nat) : nat * nat :=
  let '(a, b, swaps) := order2_func data a b swaps in
  let '(b, c, swaps) := order2_func data b c swaps in
  let '(a, b, swaps) := order2_func data a b swaps in
  (b, swaps).

Definition medianAdjacent_func (data : list A) (a swaps : nat) : nat * nat :=
  median_func data (a - 1) a (a + 1) swaps.

Definition choosePivot_func (data : list A) (a b : nat) : nat * sortedHint :=
  let shortestNinther := 50 in
  let maxSwaps := 4 * 3 in
  let l := b - a in
  let swaps := 0 in
  let i := a + l / 4 * 1 in
  let j := a + l / 4 * 2 in
  let k := a + l / 4 * 3 in
  let '(j, swaps) :=
    if 8 <=? l then
      let '(i, j, k, swaps) :=
        if shortestNinther <=? l then
          let '(i, swaps) := medianAdjacent_func data i swaps in
          let '(j, swaps) := medianAdjacent_func data j swaps in
          let '(k, swaps) := medianAdjacent_func data k swaps in
          (i, j, k, swaps)
        else (i, j, k, swaps) in
      median_func data i j k swaps
    else (j, swaps) in
  if swaps =? 0 then (j, increasingHint)
  else if swaps =? maxSwaps then (j, decreasingHint)
  else (j, unknownHint).

(** [reverseRange_func]: [for i < j { Swap(i, j); i++; j-- }] *)
Fixpoint reverseLoop (rounds : nat) (data : list A) (i j : nat) : list A :=
  match rounds with
  | O => data
  | S rounds' =>
      if i <? j then reverseLoop rounds' (Swap data i j) (S i) (j - 1) else data
  end.

Definition reverseRange_func (data : list A) (a b : nat) : list A :=
  reverseLoop (b - a) data a (b - 1).

(** [partialInsertionSort_func] and its three inner loops:
    [for i < b && !data.Less(i, i-1) { i++ }],
    [for j := i - 1; j >= 1; j-- { ... }] and
    [for j := i + 1; j < b; j++ { ... }]. *)
Fixpoint skipOrdered (rounds : nat) (data : list A) (i b : nat) : nat :=
  match rounds with
  | O => i
  | S rounds' =>
      if (i <? b) && negb (Less data i (i - 1)) then skipOrdered rounds' data (S i) b else i
  end.

Fixpoint shiftLeft (data : list A) (j : nat) : list A :=
  match j with
  | O => data
  | S j' => if negb (Less data j j') then data else shiftLeft (Swap data j j') j'
  end.

Fixpoint shiftRight (rounds : nat) (data : list A) (j : nat) : list A :=
  match rounds with
  | O => data
  | S rounds' =>
      if negb (Less data j (j - 1)) then data
      else shiftRight rounds' (Swap data j (j - 1)) (S j)
  end.

Fixpoint partialInsertionLoop (steps : nat) (data : list A) (a b i : nat) : list A * bool :=
  match steps with
  | O => (data, false)
  | S steps' =>
      let shortestShifting := 50 in
      let i := skipOrdered (b - i) data i b in
      if i =? b then (data, true)
      else if b - a <? shortestShifting then (data, false)
      else
        let data := Swap data i (i - 1) in
        let data := if 2 <=? i - a then shiftLeft data (i - 1) else data in
        let data := if 2 <=? b - i then shiftRight (b - (i + 1)) data (i + 1) else data in
        partialInsertionLoop steps' data a b i
  end.

Definition partialInsertionSort_func (data : list A) (a b : nat) : list A * bool :=
  let maxSteps := 5 in
  partialInsertionLoop maxSteps data a b (a + 1).

(** The two scans of the partition loops:
    [for i <= j && cond(i) { i++ }] and [for i <= j && cond(j) { j-- }]. *)
Fixpoint scanUp (cond : nat → bool) (rounds i j : nat) : nat :=
  match rounds with
  | O => i
  | S rounds' => if (i <=? j) && cond i then scanUp cond rounds' (S i) j else i
  end.

Fixpoint scanDown (cond : nat → bool) (i j : nat) : nat :=
  match j with
  | O => 0
  | S j' => if (i <=? j) && cond j then scanDown cond i j' else j
  end.

(** [for { scan; scan; if i > j { break }; Swap(i, j); i++; j-- }] *)
Fixpoint partitionLoop (up down : list A → nat → bool) (rounds : nat)
    (data : list A) (i j : nat) : list A * nat * nat :=
  match rounds with
  | O => (data, i, j)
  | S rounds' =>
      let i := scanUp (up data) (S j - i) i j in
      let j := scanDown (down data) i j in
      if j <? i then (data, i, j)
      else partitionLoop up down rounds' (Swap data i j) (S i) (j - 1)
  end.

(** [partitionEqual_func]: elements equal to the pivot, then the greater. *)
Definition partitionEqual_func (data : list A) (a b pivot : nat) : list A * nat :=
  let data := Swap data a pivot in
  let '(data, i, _) :=
    partitionLoop (λ d i, negb (Less d a i)) (λ d j, Less d a j)
      (b - a) data (a + 1) (b - 1) in
  (data, i).

(** [partition_func]: elements less than the pivot, the pivot, the rest. *)
Definition partition_func (data : list A) (a b pivot : nat) : list A * nat * bool :=
  let data := Swap data a pivot in
  let i := a + 1 in
  let j := b - 1 in
  let i := scanUp (λ i, Less data i a) (S j - i) i j in
  let j := scanDown (λ j, negb (Less data j a)) i j in
  if j <? i then (Swap data j a, j, true)
  else
    let data := Swap data i j in
    let '(data, _, j) :=
      partitionLoop (λ d i, Less d i a) (λ d j, negb (Less d j a))
        (b - a) data (S i) (j - 1) in
    (Swap data j a, j, false).

Definition isIncreasing (h : sortedHint) : bool :=
  match h with increasingHint => true | _ => false end.

Definition isDecreasing (h : sortedHint) : bool :=
  match h with decreasingHint => true | _ => false end.

(** [pdqsort_func]; one unit of [fuel] per round of the [for] loop and per
    recursive call.  [None] is an exhausted fuel. *)
Fixpoint pdqsort_func (fuel : nat) (data : list A) (a b limit : nat)
    (wasBalanced wasPartitioned : bool) : option (list A) :=
  match fuel with
  | O => None
  | S fuel' =>
      let maxInsertion := 12 in
      let length := b - a in
      if length <=? maxInsertion then Some (insertionSort_func data a b)
      else if limit =? 0 then Some (heapSort_func data a b)
      else
        let '(data, limit) :=
          if negb wasBalanced then (breakPatterns_func data a b, limit - 1)
          else (data, limit) in
        let '(pivot, hint) := choosePivot_func data a b in
        let '(data, pivot, hint) :=
          if isDecreasing hint
          then (reverseRange_func data a b, (b - 1) - (pivot - a), increasingHint)
          else (data, pivot, hint) in
        let '(data, sorted) :=
          if wasBalanced && wasPartitioned && isIncreasing hint
          then partialInsertionSort_func data a b
          else (data, false) in
        if sorted then Some data
        else if (0 <? a) && negb (Less data (a - 1) pivot) then
          let '(data, mid) := partitionEqual_func data a b pivot in
          pdqsort_func fuel' data mid b limit wasBalanced wasPartitioned
        else
          let '(data, mid, alreadyPartitioned) := partition_func data a b pivot in
          let leftLen := mid - a in
          let rightLen := b - mid in
          let balanceThreshold := length / 8 in
          if leftLen <? rightLen then
            data ← pdqsort_func fuel' data a mid limit true true;
            pdqsort_func fuel' data (mid + 1) b limit
              (balanceThreshold <=? leftLen) alreadyPartitioned
          else
            data ← pdqsort_func fuel' data (mid + 1) b limit true true;
            pdqsort_func fuel' data a mid limit
              (balanceThreshold <=? rightLen) alreadyPartitioned
  end.

(** [sort.Slice(x, less)]: the fuel covers the longest possible chain of
    rounds, one per element. *)
Definition SliceFuel (fuel : nat) (data : list A) : option (list A) :=
  let length := List.length data in
  let limit := bitsLen length in
  pdqsort_func fuel data 0 length limit true true.

Definition Slice (data : list A) : list A :=
  default data (SliceFuel (S (List.length data)) data).

End Pdqsort.

End GoSort.

(* ===================================================================== *)
(** ** What a sort is expected to achieve *)
(* ===================================================================== *)

Module SortSpec.

Section Spec.

Context `{Inhabited A} (less : A → A → bool).

(** Between the indices [a] and [b], no element is less than an earlier
    one. *)
Definition sortedOn (data : list A) (a b : nat) : Prop :=
  ∀ i j, a ≤ i → i ≤ j → j < b → less (data !!! j) (data !!! i) = false.

(** [data'] is [data] with the elements between [a] and [b] rearranged. *)
Definition moved (a b : nat) (data data' : list A) : Prop :=
  data' ≡ₚ data ∧ ∀ k, k < a ∨ b ≤ k → data' !! k = data !! k.

(** Every element between [a] and [b] satisfies [P]. *)
Definition allIn (a b : nat) (data : list A) (P : A → Prop) : Prop :=
  ∀ k, a ≤ k → k < b → P (data !!! k).

(** The element just before [a], if there is one, is less than none of
    the elements between [a] and [b]. *)
Definition lowerBound (data : list A) (a b : nat) : Prop :=
  0 < a → allIn a b data (λ x, less x (data !!! (a - 1)) = false).

(** Neither is less than the other. *)
Definition tied (x y : A) : bool := negb (less x y) && negb (less y x).

(** Stability: for every element [z] of the kind [ok], the elements tied
    with [z] come in the same order in [data'] as in [data]. *)
Definition keepsTies (ok : A → Prop) (data data' : list A) : Prop :=
  ∀ z, ok z → List.filter (tied z) data' = List.filter (tied z) data.

(** The max-heap of [heapSort_func], laid out from index [first]: from
    the node [lo] on, no node below [hi] is less than a child of its. *)
Definition heapFrom (data : list A) (first lo hi : nat) : Prop :=
  ∀ p c, lo ≤ p → (c = 2 * p + 1 ∨ c = 2 * p + 2) → c < hi →
         less (data !!! (first + p)) (data !!! (first + c)) = false.

(** The state of a partition around the element at [a], which stays in
    place: the elements before [i] are of the kind [U], those after [j]
    are not. *)
Definition partitioning (U : A → bool) (data0 : list A) (a b : nat)
    (data : list A) (i j : nat) : Prop :=
  moved (a + 1) b data0 data ∧ a + 1 ≤ i ∧ i ≤ j + 1 ∧ j < b ∧
  allIn (a + 1) i data (λ x, U x = true) ∧
  allIn (j + 1) b data (λ x, U x = false).

End Spec.

End SortSpec.

(* ===================================================================== *)
(** ** Data model ([models/movie.go]) *)
(* ===================================================================== *)

(** Each struct is a record in a module of its name; of [OMDbResponse]
    only the fields that the engine reads are kept. *)
Module OMDbResponse.
Record t : Type := mk {
  Title : string;
  Year : string;
  Genre : string;
  Director : string;
  Actors : string;
  Plot : string;
  ImdbRating : string;
  ImdbID : string;
  Response : string;
  Error : string
}.
End OMDbResponse.

Module MovieBrief.
Record t : Type := mk {
  Title : string;
  Year : string;
  ImdbRating : string;
  Genre : string;
  Director : string;
  Plot : string
}.
End MovieBrief.

#[global] Instance MovieBrief_inhabited : Inhabited MovieBrief.t :=
  populate (MovieBrief.mk "" "" "" "" "" "").

Module SearchResult.
Record t : Type := mk {
  Title : string;
  Year : string;
  ImdbID : string;
  Type_ : string;
  Poster : string
}.
End SearchResult.

Module SearchResponse.
Record t : Type := mk {
  Search : list SearchResult.t;
  TotalResults : string;
  Response : string;
  Error : string
}.
End SearchResponse.

Module RecommendationsByCategory.
Record t : Type := mk {
  GenreBased : list MovieBrief.t;
  DirectorBased : list MovieBrief.t;
  ActorBased : list MovieBrief.t
}.
End RecommendationsByCategory.

Module RecommendationsResponse.
Record t : Type := mk {
  FavoriteMovie : string;
  Recommendations : RecommendationsByCategory.t
}.
End RecommendationsResponse.

Module ErrorResponse.
Record t : Type := mk {
  Error : string;
  Message : string;
  Code : Z
}.
End ErrorResponse.

(* ===================================================================== *)
(** ** The environment of the service *)
(* ===================================================================== *)

(** The functions of the Go library whose tables are not reproduced here
    ([strings.ToLower] and [strings.EqualFold] follow Unicode,
    [strconv.ParseFloat] the Go numeral grammar) are a parameter. *)
Record GoLib : Type := {
  ToLower : string → string;
  EqualFold : string → string → bool;
  ParseFloat : string → GoFloat.ParseFloatResult
}.

(** The library restricted to ASCII text and to decimal numerals without
    underscores. *)
Definition asciiLib : GoLib := {|
  ToLower := GoStrings.asciiToLower;
  EqualFold := GoStrings.asciiEqualFold;
  ParseFloat := GoFloat.parseDecimal
|}.

(** What an HTTP GET followed by [io.ReadAll] and [json.Unmarshal] can
    come to: one of the three failures, each with the text of the
    underlying error, or the decoded value. *)
Inductive Fetch (A : Type) : Type :=
  | RequestFailed (cause : string)
  | ReadFailed (cause : string)
  | ParseFailed (cause : string)
  | Decoded (a : A).
Arguments RequestFailed {A} cause.
Arguments ReadFailed {A} cause.
Arguments ParseFailed {A} cause.
Arguments Decoded {A} a.

(** The request parameters that vary: [s] and [page] of a search, [t] of a
    title lookup. *)
Inductive Request : Type :=
  | SearchRequest (s : string) (page : option Z)
  | TitleRequest (t : string).

(** The upstream catalog API.  It owns a state [W] of its own, so that two
    equal requests may be answered differently. *)
Record Upstream (W : Type) : Type := {
  search : W → string → option Z → W * Fetch SearchResponse.t;
  title : W → string → W * Fetch OMDbResponse.t
}.
Arguments search {W} _ _ _ _.
Arguments title {W} _ _ _.

(** A Go result made of a pointer and an [error], of which exactly one is
    non-nil; an error is represented by its message. *)
Inductive Result (A : Type) : Type :=
  | Ok (a : A)
  | Err (message : string).
Arguments Ok {A} a.
Arguments Err {A} message.

(** A call either returns or panics. *)
Inductive Outcome (A : Type) : Type :=
  | Returned (a : A)
  | Panicked (message : string).
Arguments Returned {A} a.
Arguments Panicked {A} message.

(** What a loop body hands to the enclosing loop: the variables to go on
    with, or the values of a [return]. *)
Inductive Flow (S R : Type) : Type :=
  | Next (s : S)
  | Return (r : R).
Arguments Next {S R} s.
Arguments Return {S R} r.

(** Go's [int] on a 64-bit platform. *)
Definition wrapInt (z : Z) : Z := ((z + 2 ^ 63) mod 2 ^ 64 - 2 ^ 63)%Z.

Definition len {A : Type} (l : list A) : Z := Z.of_nat (length l).

(** A read of a [map[string]bool]: the zero value when the key is absent. *)
Definition mapRead (m : gmap string bool) (k : string) : bool := default false (m !! k).

(* ===================================================================== *)
(** ** The service ([services/omdb.go]) *)
(* ===================================================================== *)

Module Services.

Import GoStrings GoFloat.

Section Service.

Context (lib : GoLib) {W : Type} (up : Upstream W).

(** The state threaded through a request: the upstream's own state and
    the requests sent so far, oldest first. *)
Record State : Type := mkState {
  world : W;
  requests : list Request
}.

Definition M (A : Type) : Type := State → A * State.

#[global] Instance M_ret : MRet M := λ A a st, (a, st).
#[global] Instance M_bind : MBind M := λ A B f m st, let '(a, st') := m st in f a st'.

(** [SearchMovies]: the [page] parameter is sent only when positive. *)
Definition SearchMovies (query : string) (page : Z) : M (Result SearchResponse.t) :=
  λ st,
    let pageParam := if (0 <? page)%Z then Some page else None in
    let '(w, got) := search up (world st) query pageParam in
    let st' := mkState w (requests st ++ [SearchRequest query pageParam]) in
    (match got with
     | RequestFailed e => Err ("failed to make request: " +:+ e)
     | ReadFailed e => Err ("failed to read response: " +:+ e)
     | ParseFailed e => Err ("failed to parse response: " +:+ e)
     | Decoded searchResp => Ok searchResp
     end, st').

(** [makeRequest], for the parameters of [GetMovieByTitle]. *)
Definition makeRequest (t : string) : M (Result OMDbResponse.t) :=
  λ st,
    let '(w, got) := title up (world st) t in
    let st' := mkState w (requests st ++ [TitleRequest t]) in
    (match got with
     | RequestFailed e => Err ("failed to make request: " +:+ e)
     | ReadFailed e => Err ("failed to read response: " +:+ e)
     | ParseFailed e => Err ("failed to parse response: " +:+ e)
     | Decoded omdbResp =>
         if String.eqb (OMDbResponse.Response omdbResp) "False"
         then Err ("OMDb API error: " +:+ OMDbResponse.Error omdbResp)
         else Ok omdbResp
     end, st').

Definition GetMovieByTitle (t : string) : M (Result OMDbResponse.t) := makeRequest t.

(** [getGenreSearchTerms] *)
Definition genreTerms : gmap string (list string) :=
  list_to_map [
    ("action", ["action"; "adventure"; "superhero"; "martial arts"; "spy"]);
    ("comedy", ["comedy"; "funny"; "humor"; "romantic comedy"; "parody"]);
    ("drama", ["drama"; "emotional"; "family"; "biographical"; "historical"]);
    ("horror", ["horror"; "scary"; "thriller"; "supernatural"; "zombie"]);
    ("sci-fi", ["science fiction"; "sci-fi"; "space"; "future"; "alien"]);
    ("romance", ["romance"; "love"; "romantic"; "wedding"; "relationship"]);
    ("thriller", ["thriller"; "suspense"; "mystery"; "crime"; "psychological"]);
    ("animation", ["animation"; "animated"; "cartoon"; "pixar"; "disney"]);
    ("fantasy", ["fantasy"; "magic"; "wizard"; "medieval"; "adventure"]);
    ("crime", ["crime"; "gangster"; "mafia"; "detective"; "police"])
  ].

Definition getGenreSearchTerms (genre : string) : list string :=
  match genreTerms !! ToLower lib genre with
  | Some terms => terms
  | None => [genre; "movie"; "film"]
  end.

(** The [MovieBrief] literal both collectors build from the details. *)
Definition briefOf (movieDetails : OMDbResponse.t) : MovieBrief.t :=
  MovieBrief.mk
    (OMDbResponse.Title movieDetails)
    (OMDbResponse.Year movieDetails)
    (OMDbResponse.ImdbRating movieDetails)
    (OMDbResponse.Genre movieDetails)
    (OMDbResponse.Director movieDetails)
    (OMDbResponse.Plot movieDetails).

Definition ratingOf (s : string) : float64 := value (ParseFloat lib s).

(** The comparison handed to [sort.Slice]: [ratingI > ratingJ]. *)
Definition ratingLess (x y : MovieBrief.t) : bool :=
  gt (ratingOf (MovieBrief.ImdbRating x)) (ratingOf (MovieBrief.ImdbRating y)).

Definition sortMoviesByRating (movies : list MovieBrief.t) : list MovieBrief.t :=
  GoSort.Slice ratingLess movies.

(** *** [GetMoviesByGenre] *)

(** The loop over [searchResp.Search]; its [break] ends this loop only. *)
Fixpoint genreResults (genre : string) (limit : Z) (results : list SearchResult.t)
    (allMovies : list MovieBrief.t) (movieSet : gmap string bool)
    : M (list MovieBrief.t * gmap string bool) :=
  match results with
  | [] => mret (allMovies, movieSet)
  | result :: rest =>
      if mapRead movieSet (SearchResult.ImdbID result)
      then genreResults genre limit rest allMovies movieSet
      else
        got ← GetMovieByTitle (SearchResult.Title result);
        match got with
        | Err _ => genreResults genre limit rest allMovies movieSet
        | Ok movieDetails =>
            if String.eqb (OMDbResponse.Response movieDetails) "False"
            then genreResults genre limit rest allMovies movieSet
            else if Contains (ToLower lib (OMDbResponse.Genre movieDetails)) (ToLower lib genre)
            then
              let rating := ratingOf (OMDbResponse.ImdbRating movieDetails) in
              if gt rating zero then
                let allMovies := (allMovies ++ [briefOf movieDetails])%list in
                let movieSet := <[SearchResult.ImdbID result := true]> movieSet in
                if (wrapInt (limit * 2) <=? len allMovies)%Z
                then mret (allMovies, movieSet)
                else genreResults genre limit rest allMovies movieSet
              else genreResults genre limit rest allMovies movieSet
            else genreResults genre limit rest allMovies movieSet
        end
  end.

(** [for page := 1; page <= 3; page++] *)
Fixpoint genrePages (genre : string) (limit : Z) (term : string) (pages : list Z)
    (allMovies : list MovieBrief.t) (movieSet : gmap string bool)
    : M (list MovieBrief.t * gmap string bool) :=
  match pages with
  | [] => mret (allMovies, movieSet)
  | page :: rest =>
      got ← SearchMovies term page;
      match got with
      | Err _ => genrePages genre limit term rest allMovies movieSet
      | Ok searchResp =>
          if String.eqb (SearchResponse.Response searchResp) "False"
          then genrePages genre limit term rest allMovies movieSet
          else
            '(allMovies, movieSet) ←
              genreResults genre limit (SearchResponse.Search searchResp) allMovies movieSet;
            genrePages genre limit term rest allMovies movieSet
      end
  end.

(** [for _, term := range searchTerms] *)
Fixpoint genreTermsLoop (genre : string) (limit : Z) (searchTerms : list string)
    (allMovies : list MovieBrief.t) (movieSet : gmap string bool)
    : M (list MovieBrief.t * gmap string bool) :=
  match searchTerms with
  | [] => mret (allMovies, movieSet)
  | term :: rest =>
      if (wrapInt (limit * 2) <=? len allMovies)%Z
      then mret (allMovies, movieSet)
      else
        '(allMovies, movieSet) ← genrePages genre limit term [1; 2; 3]%Z allMovies movieSet;
        genreTermsLoop genre limit rest allMovies movieSet
  end.

(** The collection of [GetMoviesByGenre], before sorting and cutting. *)
Definition collectByGenre (genre : string) (limit : Z) : M (list MovieBrief.t) :=
  '(allMovies, _) ← genreTermsLoop genre limit (getGenreSearchTerms genre) [] ∅;
  mret allMovies.

(** [allMovies[:limit]] panics on a negative bound. *)
Definition GetMoviesByGenre (genre : string) (limit : Z)
    : M (Outcome (list MovieBrief.t * option string)) :=
  allMovies ← collectByGenre genre limit;
  let allMovies := GoSort.Slice ratingLess allMovies in
  if (limit <? len allMovies)%Z then
    if (limit <? 0)%Z
    then mret (Panicked "runtime error: slice bounds out of range")
    else mret (Returned (take (Z.to_nat limit) allMovies, None))
  else mret (Returned (allMovies, None)).

(** *** [getMoviesExcluding] *)

(** The [switch searchType]; [matches] stays false on any other tag. *)
Definition facetMatches (searchType searchTerm : string) (movieDetails : OMDbResponse.t) : bool :=
  if String.eqb searchType "genre" then
    Contains (ToLower lib (OMDbResponse.Genre movieDetails)) (ToLower lib searchTerm)
  else if String.eqb searchType "director" then
    Contains (ToLower lib (OMDbResponse.Director movieDetails)) (ToLower lib searchTerm)
  else if String.eqb searchType "actor" then
    Contains (ToLower lib (OMDbResponse.Actors movieDetails)) (ToLower lib searchTerm)
  else false.

(** The loop over [searchResp.Search]. *)
Fixpoint excludingResults (searchTerm searchType excludeTitle : string) (limit : Z)
    (results : list SearchResult.t)
    (movies : list MovieBrief.t) (movieSet : gmap string bool)
    : M (Flow (list MovieBrief.t * gmap string bool) (list MovieBrief.t * option string)) :=
  match results with
  | [] => mret (Next (movies, movieSet))
  | result :: rest =>
      if mapRead movieSet (SearchResult.ImdbID result)
         || EqualFold lib (SearchResult.Title result) excludeTitle
      then excludingResults searchTerm searchType excludeTitle limit rest movies movieSet
      else
        got ← GetMovieByTitle (SearchResult.Title result);
        match got with
        | Err _ => excludingResults searchTerm searchType excludeTitle limit rest movies movieSet
        | Ok movieDetails =>
            if String.eqb (OMDbResponse.Response movieDetails) "False"
            then excludingResults searchTerm searchType excludeTitle limit rest movies movieSet
            else if facetMatches searchType searchTerm movieDetails then
              let rating := ratingOf (OMDbResponse.ImdbRating movieDetails) in
              if gt rating zero then
                let movies := (movies ++ [briefOf movieDetails])%list in
                let movieSet := <[SearchResult.ImdbID result := true]> movieSet in
                if (limit <=? len movies)%Z
                then mret (Return (movies, None))
                else excludingResults searchTerm searchType excludeTitle limit rest movies movieSet
              else excludingResults searchTerm searchType excludeTitle limit rest movies movieSet
            else excludingResults searchTerm searchType excludeTitle limit rest movies movieSet
        end
  end.

(** [for page := 1; page <= 2; page++] *)
Fixpoint excludingPages (searchTerm searchType excludeTitle : string) (limit : Z)
    (pages : list Z) (movies : list MovieBrief.t) (movieSet : gmap string bool)
    : M (list MovieBrief.t * option string) :=
  match pages with
  | [] => mret (movies, None)
  | page :: rest =>
      got ← SearchMovies searchTerm page;
      match got with
      | Err _ => excludingPages searchTerm searchType excludeTitle limit rest movies movieSet
      | Ok searchResp =>
          if String.eqb (SearchResponse.Response searchResp) "False"
          then excludingPages searchTerm searchType excludeTitle limit rest movies movieSet
          else
            flow ← excludingResults searchTerm searchType excludeTitle limit
                     (SearchResponse.Search searchResp) movies movieSet;
            match flow with
            | Return r => mret r
            | Next (movies, movieSet) =>
                excludingPages searchTerm searchType excludeTitle limit rest movies movieSet
            end
      end
  end.

Definition getMoviesExcluding (searchTerm searchType excludeTitle : string) (limit : Z)
    : M (list MovieBrief.t * option string) :=
  excludingPages searchTerm searchType excludeTitle limit [1; 2]%Z [] ∅.

(** *** [GetRecommendations] *)

(** One of the three loops over the names of a facet:
    [for _, name := range names { if len(list) >= 20 { break } ... }]. *)
Fixpoint facetLoop (searchType excludeTitle : string) (names : list string)
    (based : list MovieBrief.t) : M (list MovieBrief.t) :=
  match names with
  | [] => mret based
  | name :: rest =>
      if (20 <=? len based)%Z then mret based
      else
        '(movies, err) ← getMoviesExcluding name searchType excludeTitle
                           (wrapInt (20 - len based));
        match err with
        | None => facetLoop searchType excludeTitle rest (based ++ movies)%list
        | Some _ => facetLoop searchType excludeTitle rest based
        end
  end.

Definition min (a b : Z) : Z := if (a <? b)%Z then a else b.

Definition GetRecommendations (favoriteMovie : string)
    : M (Result RecommendationsResponse.t) :=
  got ← GetMovieByTitle favoriteMovie;
  let notFound := Err ("favorite movie not found: " +:+ favoriteMovie) in
  match got with
  | Err _ => mret notFound
  | Ok movieDetails =>
      if String.eqb (OMDbResponse.Response movieDetails) "False" then mret notFound
      else
        let seed := OMDbResponse.Title movieDetails in
        let genres := Split (OMDbResponse.Genre movieDetails) ", " in
        genreBased ← facetLoop "genre" seed genres [];
        let directors := Split (OMDbResponse.Director movieDetails) ", " in
        directorBased ← facetLoop "director" seed directors [];
        let actors := Split (OMDbResponse.Actors movieDetails) ", " in
        actorBased ← facetLoop "actor" seed (take (Z.to_nat (min 3 (len actors))) actors) [];
        mret (Ok (RecommendationsResponse.mk seed
                    (RecommendationsByCategory.mk
                       (sortMoviesByRating genreBased)
                       (sortMoviesByRating directorBased)
                       (sortMoviesByRating actorBased))))
  end.

(** *** Predicates on what the Ranker returns *)

(** The rating string of a brief parses to a number. *)
Definition rated (b : MovieBrief.t) : Prop :=
  isNaN (ratingOf (MovieBrief.ImdbRating b)) = false.

(** No brief has a rating greater than that of a brief before it. *)
Definition nonIncreasing (movies : list MovieBrief.t) : Prop :=
  ∀ i j x y, i ≤ j → movies !! i = Some x → movies !! j = Some y →
             gt (ratingOf (MovieBrief.ImdbRating y)) (ratingOf (MovieBrief.ImdbRating x))
             = false.

(** Stability: the briefs of one rating come in the same order in
    [ranked] as in [movies]. *)
Definition keepsInputOrder (movies ranked : list MovieBrief.t) : Prop :=
  SortSpec.keepsTies ratingLess rated movies ranked.

(** *** Predicates on what the collectors return and send *)

(** The rating string of a brief parses to a value above zero. *)
Definition ratedAboveZero (b : MovieBrief.t) : Prop :=
  gt (ratingOf (MovieBrief.ImdbRating b)) zero = true.


(** A brief built from a record that the upstream sent for a title
    lookup. *)
Definition fetched (b : MovieBrief.t) : Prop :=
  ∃ w t w' movieDetails,
    title up w t = (w', Decoded movieDetails) ∧ b = briefOf movieDetails.

(** What the collectors append: a fetched record rated above zero. *)
Definition candidate (b : MovieBrief.t) : Prop := ratedAboveZero b ∧ fetched b.

(** A title lookup sent for a search hit that the exclusion test let
    through. *)
Definition lookupFor (excludeTitle : string) (results : list SearchResult.t)
    (r : Request) : Prop :=
  ∃ hit, hit ∈ results ∧ r = TitleRequest (SearchResult.Title hit) ∧
         EqualFold lib (SearchResult.Title hit) excludeTitle = false.

(** A request that a collector call for [searchTerm] may send: a search
    of that very term, page 1 or 2, or a title lookup for a hit whose
    title is not the excluded one. *)
Definition sentFor (searchTerm excludeTitle : string) (r : Request) : Prop :=
  match r with
  | SearchRequest s page => s = searchTerm ∧ (page = Some 1%Z ∨ page = Some 2%Z)
  | TitleRequest t => EqualFold lib t excludeTitle = false
  end.

(** Running an operation for one request, from a fresh request log. *)
Definition run {A : Type} (m : M A) (w : W) : A * State := m (mkState w []).

End Service.

End Services.

(* ===================================================================== *)
(** ** The HTTP handlers ([handlers/movie.go]) *)
(* ===================================================================== *)

Module Handlers.

Import Services.

(** The payload of [c.JSON(status, payload)]. *)
Inductive Payload : Type :=
  | ErrorPayload (e : ErrorResponse.t)
  | GenreMoviesPayload (genre : string) (movies : list MovieBrief.t) (count : Z)
  | RecommendationsPayload (r : RecommendationsResponse.t).

Record Reply : Type := mkReply {
  status : Z;
  payload : Payload
}.

Definition StatusOK : Z := 200.
Definition StatusBadRequest : Z := 400.
Definition StatusNotFound : Z := 404.
Definition StatusInternalServerError : Z := 500.

Definition errorReply (code : Z) (error message : string) : Reply :=
  mkReply code (ErrorPayload (ErrorResponse.mk error message code)).

Section Handler.

Context (lib : GoLib) {W : Type} (up : Upstream W).

(** [GetMoviesByGenre] handles [GET /api/movies/genre?genre=Action]. *)
Definition GetMoviesByGenre (genre : string) : M (Outcome Reply) :=
  if String.eqb genre "" then
    mret (Returned (errorReply StatusBadRequest "Bad Request" "Genre query parameter is required"))
  else
    out ← Services.GetMoviesByGenre lib up genre 15;
    match out with
    | Panicked message => mret (Panicked message)
    | Returned (movies, Some err) =>
        mret (Returned (errorReply StatusInternalServerError "Internal Server Error"
                          ("Failed to fetch movies by genre: " +:+ err)))
    | Returned (movies, None) =>
        if (len movies =? 0)%Z then
          mret (Returned (errorReply StatusNotFound "Not Found"
                            ("No movies found for genre: " +:+ genre)))
        else
          mret (Returned (mkReply StatusOK (GenreMoviesPayload genre movies (len movies))))
    end.

(** [GetRecommendations] handles
    [GET /api/recommendations?favorite_movie=MovieTitle]. *)
Definition GetRecommendations (favoriteMovie : string) : M Reply :=
  if String.eqb favoriteMovie "" then
    mret (errorReply StatusBadRequest "Bad Request" "favorite_movie query parameter is required")
  else
    got ← Services.GetRecommendations lib up favoriteMovie;
    match got with
    | Err err =>
        if GoStrings.Contains err "not found" then
          mret (errorReply StatusNotFound "Not Found"
                  ("Favorite movie not found: " +:+ favoriteMovie))
        else
          mret (errorReply StatusInternalServerError "Internal Server Error"
                  ("Failed to generate recommendations: " +:+ err))
    | Ok recommendations => mret (mkReply StatusOK (RecommendationsPayload recommendations))
    end.

End Handler.

End Handlers.

(* ===================================================================== *)
(** ** Table-driven upstreams for the worked examples *)
(* ===================================================================== *)

Module Tables.

(** OMDb's answer when it has no match. *)
Definition noSearchMatch : SearchResponse.t :=
  SearchResponse.mk [] "" "False" "Movie not found!".

Definition noTitleMatch : OMDbResponse.t :=
  OMDbResponse.mk "" "" "" "" "" "" "" "" "False" "Movie not found!".

Definition hit (t id : string) : SearchResult.t :=
  SearchResult.mk t "" id "movie" "".

Definition page (hits : list SearchResult.t) : Fetch SearchResponse.t :=
  Decoded (SearchResponse.mk hits "" "True" "").

Definition movie (t id genre director actors rating : string) : Fetch OMDbResponse.t :=
  Decoded (OMDbResponse.mk t "" genre director actors "" rating id "True" "").

Fixpoint assoc {K V : Type} (eqb : K → K → bool) (k : K) (table : list (K * V)) : option V :=
  match table with
  | [] => None
  | (k', v) :: rest => if eqb k k' then Some v else assoc eqb k rest
  end.

Definition sameSearch (x y : string * Z) : bool :=
  String.eqb (fst x) (fst y) && (snd x =? snd y)%Z.

(** A stateless upstream that answers from two tables; a search without
    a [page] parameter is a search of page 1. *)
Definition fromTables (searches : list (string * Z * Fetch SearchResponse.t))
    (titles : list (string * Fetch OMDbResponse.t)) : Upstream unit := {|
  search := λ w s p,
    (w, default (Decoded noSearchMatch) (assoc sameSearch (s, default 1%Z p) searches));
  title := λ w t,
    (w, default (Decoded noTitleMatch) (assoc String.eqb t titles))
|}.

End Tables.

(* ===================================================================== *)
(** ** The genre facet as the specification words it *)
(* ===================================================================== *)

(** Sections 4.3 and 4.5 (step 2) of the specification: every genre name
    of the seed is expanded by the Term Expander, and the Candidate
    Collector walks the expanded terms, two pages each, testing the hits
    against the genre name, with one set of seen identifiers and one
    limit for all the terms. *)
Module Spec.

Import Services.

Section Spec.

Context (lib : GoLib) {W : Type} (up : Upstream W).

Fixpoint collectPages (term facet searchType excludeTitle : string) (limit : Z)
    (pages : list Z) (movies : list MovieBrief.t) (movieSet : gmap string bool)
    : M (Flow (list MovieBrief.t * gmap string bool) (list MovieBrief.t * option string)) :=
  match pages with
  | [] => mret (Next (movies, movieSet))
  | page :: rest =>
      got ← SearchMovies up term page;
      match got with
      | Err _ => collectPages term facet searchType excludeTitle limit rest movies movieSet
      | Ok searchResp =>
          if String.eqb (SearchResponse.Response searchResp) "False"
          then collectPages term facet searchType excludeTitle limit rest movies movieSet
          else
            flow ← excludingResults lib up facet searchType excludeTitle limit
                     (SearchResponse.Search searchResp) movies movieSet;
            match flow with
            | Return r => mret (Return r)
            | Next (movies, movieSet) =>
                collectPages term facet searchType excludeTitle limit rest movies movieSet
            end
      end
  end.

Fixpoint collectTerms (searchTerms : list string) (facet searchType excludeTitle : string)
    (limit : Z) (movies : list MovieBrief.t) (movieSet : gmap string bool)
    : M (list MovieBrief.t) :=
  match searchTerms with
  | [] => mret movies
  | term :: rest =>
      flow ← collectPages term facet searchType excludeTitle limit [1; 2]%Z movies movieSet;
      match flow with
      | Return (movies, _) => mret movies
      | Next (movies, movieSet) =>
          collectTerms rest facet searchType excludeTitle limit movies movieSet
      end
  end.

Definition collect (searchTerms : list string) (facet searchType excludeTitle : string)
    (limit : Z) : M (list MovieBrief.t) :=
  collectTerms searchTerms facet searchType excludeTitle limit [] ∅.

Fixpoint genreFacetLoop (excludeTitle : string) (genres : list string)
    (based : list MovieBrief.t) : M (list MovieBrief.t) :=
  match genres with
  | [] => mret based
  | genre :: rest =>
      if (20 <=? len based)%Z then mret based
      else
        movies ← collect (getGenreSearchTerms lib genre) genre "genre" excludeTitle
                   (20 - len based);
        genreFacetLoop excludeTitle rest (based ++ movies)%list
  end.

(** The genre facet for a seed record that has been fetched. *)
Definition genreFacet (seed : OMDbResponse.t) : M (list MovieBrief.t) :=
  based ← genreFacetLoop (OMDbResponse.Title seed)
             (GoStrings.Split (OMDbResponse.Genre seed) ", ") [];
  mret (sortMoviesByRating lib based).

End Spec.

End Spec.

(* ===================================================================== *)
(** ** Worked scenarios *)
(* ===================================================================== *)

Module Scenarios.

Import Tables.

Definition theMatrix : Fetch OMDbResponse.t :=
  movie "The Matrix" "tt0133093" "Action, Sci-Fi" "Lana Wachowski" "Keanu Reeves" "8.5".

(** "Speed" is found by the proxy term "adventure" only. *)
Definition proxyOnly : Upstream unit :=
  fromTables
    [ ("adventure", 1%Z, page [hit "Speed" "tt0111257"]) ]
    [ ("The Matrix", theMatrix);
      ("Speed", movie "Speed" "tt0111257" "Action" "Jan de Bont" "Sandra Bullock" "7.5") ].

(** "Dune" is listed under both genres of the seed. *)
Definition bothGenres : Upstream unit :=
  fromTables
    [ ("Action", 1%Z, page [hit "Dune" "tt1160419"]);
      ("Sci-Fi", 1%Z, page [hit "Dune" "tt1160419"]) ]
    [ ("The Matrix", theMatrix);
      ("Dune", movie "Dune" "tt1160419" "Action, Sci-Fi" "Denis Villeneuve" "Zendaya" "8.0") ].

(** Every request fails in transport. *)
Definition unreachable : Upstream unit := {|
  search := λ w s p, (w, RequestFailed "dial tcp: connection refused");
  title := λ w t, (w, RequestFailed "dial tcp: connection refused")
|}.

(** The search hit is titled "Matrix"; the title lookup for "Matrix"
    answers with the record of "The Matrix". *)
Definition shortTitle : Upstream unit :=
  fromTables
    [ ("Action", 1%Z, page [hit "Matrix" "tt0133093"]) ]
    [ ("The Matrix", theMatrix); ("Matrix", theMatrix) ].

(** Three pages of jazz films. *)
Definition jazzPages : Upstream unit :=
  fromTables
    [ ("jazz", 1%Z, page [hit "Bird" "tt0094747"; hit "Whiplash" "tt2582802"]);
      ("jazz", 2%Z, page [hit "Round Midnight" "tt0090557"]);
      ("jazz", 3%Z, page [hit "Mo Better Blues" "tt0100168"]) ]
    [ ("Bird", movie "Bird" "tt0094747" "Biography, Jazz" "" "" "7.0");
      ("Whiplash", movie "Whiplash" "tt2582802" "Drama, Jazz" "" "" "8.5");
      ("Round Midnight", movie "Round Midnight" "tt0090557" "Drama, Jazz" "" "" "7.5");
      ("Mo Better Blues", movie "Mo Better Blues" "tt0100168" "Drama, Jazz" "" "" "6.5") ].

(** No catalog entry carries a rating. *)
Definition unrated : Upstream unit :=
  fromTables
    [ ("Action", 1%Z, page [hit "Speed" "tt0111257"]) ]
    [ ("The Matrix", movie "The Matrix" "tt0133093" "Action" "Lana Wachowski" "Keanu Reeves" "N/A");
      ("Speed", movie "Speed" "tt0111257" "Action" "Jan de Bont" "Sandra Bullock" "N/A") ].



Definition brief (t rating : string) : MovieBrief.t :=
  MovieBrief.mk t "" rating "" "" "".

(** The three facet lists of an answer of [GetRecommendations]. *)
Definition genreBased (got : Result RecommendationsResponse.t) : list MovieBrief.t :=
  match got with
  | Ok r => RecommendationsByCategory.GenreBased (RecommendationsResponse.Recommendations r)
  | Err _ => []
  end.

Definition directorBased (got : Result RecommendationsResponse.t) : list MovieBrief.t :=
  match got with
  | Ok r => RecommendationsByCategory.DirectorBased (RecommendationsResponse.Recommendations r)
  | Err _ => []
  end.

Definition actorBased (got : Result RecommendationsResponse.t) : list MovieBrief.t :=
  match got with
  | Ok r => RecommendationsByCategory.ActorBased (RecommendationsResponse.Recommendations r)
  | Err _ => []
  end.

Definition titles (movies : list MovieBrief.t) : list string :=
  map MovieBrief.Title movies.

(** The seed record of the scenarios, as [GetMovieByTitle] returns it,
    and the state after that first request. *)
Definition seedRecord : OMDbResponse.t :=
  OMDbResponse.mk "The Matrix" "" "Action, Sci-Fi" "Lana Wachowski" "Keanu Reeves" ""
    "8.5" "tt0133093" "True" "".

Definition afterSeedLookup : Services.State :=
  Services.mkState () [TitleRequest "The Matrix"].

(** Twelve films rated 8.0 followed by one rated 9.0. *)
Definition thirteen : list MovieBrief.t :=
  [ brief "A" "8.0"; brief "B" "8.0"; brief "C" "8.0"; brief "D" "8.0";
    brief "E" "8.0"; brief "F" "8.0"; brief "G" "8.0"; brief "H" "8.0";
    brief "I" "8.0"; brief "J" "8.0"; brief "K" "8.0"; brief "L" "8.0";
    brief "M" "9.0" ].

Definition three : list MovieBrief.t :=
  [ brief "A" "7.5"; brief "B" "9.0"; brief "C" "7.5" ].

End Scenarios.

(* ===================================================================== *)
(** ** Go [strconv.Atoi] and [strconv.Itoa] *)
(* ===================================================================== *)

Module GoStrconv.

(** The two causes of a [*strconv.NumError]. *)
Inductive NumError : Type := ErrSyntax | ErrRange.

Definition maxUint64 : Z := (2 ^ 64 - 1)%Z.
Definition cutoff64 : Z := (maxUint64 / 10 + 1)%Z.

(** The digit loop of [ParseUint(s, 10, 64)]: a byte that is no decimal
    digit is a syntax error, a value that leaves [uint64] a range error,
    whichever comes first from the left. *)
Fixpoint scanUint (s : string) (n : Z) : Z + NumError :=
  match s with
  | EmptyString => inl n
  | String c s' =>
      match GoFloat.digitOf c with
      | None => inr ErrSyntax
      | Some d =>
          if (cutoff64 <=? n)%Z then inr ErrRange
          else
            let n1 := (n * 10 + d)%Z in
            if (maxUint64 <? n1)%Z then inr ErrRange else scanUint s' n1
      end
  end.

Definition ParseUint (s : string) : Z + NumError :=
  match s with
  | EmptyString => inr ErrSyntax
  | _ => scanUint s 0
  end.

(** [ParseInt(s, 10, 0)] on a 64-bit platform: an optional sign, then
    [ParseUint], then the range of [int64]. *)
Definition ParseInt (s : string) : Z + NumError :=
  match s with
  | EmptyString => inr ErrSyntax
  | String c rest =>
      let neg := Ascii.eqb c "-" in
      let body := if Ascii.eqb c "+" || neg then rest else s in
      match ParseUint body with
      | inr e => inr e
      | inl un =>
          if negb neg && (2 ^ 63 <=? un)%Z then inr ErrRange
          else if neg && (2 ^ 63 <? un)%Z then inr ErrRange
          else inl (if neg then - un else un)%Z
      end
  end.

(** [Atoi(s)]: the result of [ParseInt(s, 10, 0)], which its shortcut for
    strings of fewer than 19 bytes computes as well. *)
Definition Atoi (s : string) : Z + NumError := ParseInt s.

Definition digitChar (d : Z) : ascii := ascii_of_nat (48 + Z.to_nat d).

(** The digit loop of [FormatInt(i, 10)], least significant digit first;
    a [uint64] has at most 20 digits. *)
Fixpoint formatBits (rounds : nat) (u : Z) (acc : string) : string :=
  match rounds with
  | O => acc
  | S rounds' =>
      if (u <? 10)%Z then String (digitChar u) acc
      else formatBits rounds' (u / 10) (String (digitChar (u mod 10)) acc)
  end.

Definition Itoa (i : Z) : string :=
  if (i <? 0)%Z then String "-" (formatBits 20 (- i) "") else formatBits 20 i "".

(** The values of a Go [int]. *)
Definition isInt (i : Z) : Prop := (- 2 ^ 63 <= i < 2 ^ 63)%Z.

(** The string begins with a decimal digit. *)
Definition startsWithDigit (s : string) : Prop :=
  match s with
  | EmptyString => False
  | String c _ => GoFloat.digitOf c ≠ None
  end.

End GoStrconv.

(* ===================================================================== *)
(** ** Go [url.Values] *)
(* ===================================================================== *)

Module GoURL.

Definition Values : Type := gmap string (list string).

(** [v.Add(key, value)] appends to the values of [key]. *)
Definition Add (v : Values) (key value : string) : Values :=
  <[key := default [] (v !! key) ++ [value]]> v.

(** [v.Get(key)]: the first value of [key], or the empty string. *)
Definition Get (v : Values) (key : string) : string :=
  match v !! key with
  | Some (value :: _) => value
  | _ => ""
  end.

End GoURL.

(* ===================================================================== *)
(** ** The detail lookups, on the whole record *)
(* ===================================================================== *)

Module Rating.
Record t : Type := mk {
  Source : string;
  Value : string
}.
End Rating.

(** [models.OMDbResponse] with all its fields, as the detail handlers
    read some that the engine does not. *)
Module OMDbFull.
Record t : Type := mk {
  Title : string;
  Year : string;
  Rated : string;
  Released : string;
  Runtime : string;
  Genre : string;
  Director : string;
  Writer : string;
  Actors : string;
  Plot : string;
  Language : string;
  Country : string;
  Awards : string;
  Poster : string;
  Ratings : list Rating.t;
  Metascore : string;
  ImdbRating : string;
  ImdbVotes : string;
  ImdbID : string;
  Type_ : string;
  DVD : string;
  BoxOffice : string;
  Production : string;
  Website : string;
  Response : string;
  Error : string;
  Season : string;
  Episode : string
}.

(** The fields that the engine reads. *)
Definition trim (r : t) : OMDbResponse.t :=
  OMDbResponse.mk (Title r) (Year r) (Genre r) (Director r) (Actors r) (Plot r)
    (ImdbRating r) (ImdbID r) (Response r) (Error r).
End OMDbFull.

Module MovieDetailsResponse.
Record t : Type := mk {
  Title : string;
  Year : string;
  Plot : string;
  Country : string;
  Awards : string;
  Director : string;
  Ratings : list Rating.t
}.
End MovieDetailsResponse.

Module EpisodeDetailsResponse.
Record t : Type := mk {
  Title : string;
  SeriesTitle : string;
  Season : string;
  Episode : string;
  Year : string;
  Plot : string;
  Director : string;
  Actors : string;
  Ratings : list Rating.t;
  ImdbRating : string
}.
End EpisodeDetailsResponse.

(** The upstream as [makeRequest] sees it: it is asked with the query
    parameters, of which the URL is a function. *)
Record Catalog (W : Type) : Type := {
  get : W → GoURL.Values → W * Fetch OMDbFull.t
}.
Arguments get {W} _ _ _.

Definition mapFetch {A B : Type} (f : A → B) (got : Fetch A) : Fetch B :=
  match got with
  | RequestFailed e => RequestFailed e
  | ReadFailed e => ReadFailed e
  | ParseFailed e => ParseFailed e
  | Decoded a => Decoded (f a)
  end.

Definition mapResult {A B : Type} (f : A → B) (got : Result A) : Result B :=
  match got with
  | Ok a => Ok (f a)
  | Err message => Err message
  end.

Module Lookups.

Import GoURL GoStrconv.

Section Lookup.

Context (APIKey : string) {W : Type} (catalog : Catalog W).

(** The upstream's own state and the queries sent so far, oldest first. *)
Record State : Type := mkState {
  world : W;
  sent : list Values
}.

(** [makeRequest] *)
Definition makeRequest (params : Values) (st : State) : Result OMDbFull.t * State :=
  let '(w, got) := get catalog (world st) params in
  let st' := mkState w (sent st ++ [params]) in
  (match got with
   | RequestFailed e => Err ("failed to make request: " +:+ e)
   | ReadFailed e => Err ("failed to read response: " +:+ e)
   | ParseFailed e => Err ("failed to parse response: " +:+ e)
   | Decoded omdbResp =>
       if String.eqb (OMDbFull.Response omdbResp) "False"
       then Err ("OMDb API error: " +:+ OMDbFull.Error omdbResp)
       else Ok omdbResp
   end, st').

Definition titleParams (title : string) : Values :=
  Add (Add (Add ∅ "apikey" APIKey) "t" title) "plot" "full".

(** [GetMovieByTitle] *)
Definition GetMovieByTitle (title : string) : State → Result OMDbFull.t * State :=
  makeRequest (titleParams title).

Definition episodeParams (seriesTitle : string) (season episode : Z) : Values :=
  Add (Add (Add (Add ∅ "apikey" APIKey) "t" seriesTitle) "Season" (Itoa season))
    "Episode" (Itoa episode).

(** [GetEpisodeDetails] *)
Definition GetEpisodeDetails (seriesTitle : string) (season episode : Z)
    : State → Result OMDbFull.t * State :=
  makeRequest (episodeParams seriesTitle season episode).

(** The upstream of the engine that this catalog gives, searches being
    answered by [searches]. *)
Definition asUpstream (searches : W → string → option Z → W * Fetch SearchResponse.t)
    : Upstream W := {|
  search := searches;
  title := λ w t, let '(w', got) := get catalog w (titleParams t) in
                  (w', mapFetch OMDbFull.trim got)
|}.

End Lookup.

End Lookups.

(* ===================================================================== *)
(** ** The detail handlers ([handlers/movie.go]) *)
(* ===================================================================== *)

Module DetailHandlers.

Import GoStrings GoStrconv Lookups.

Inductive Payload : Type :=
  | ErrorPayload (e : ErrorResponse.t)
  | MovieDetailsPayload (r : MovieDetailsResponse.t)
  | EpisodeDetailsPayload (r : EpisodeDetailsResponse.t).

Record Reply : Type := mkReply {
  status : Z;
  payload : Payload
}.

Definition errorReply (code : Z) (error message : string) : Reply :=
  mkReply code (ErrorPayload (ErrorResponse.mk error message code)).

Section Handler.

Context (APIKey : string) {W : Type} (catalog : Catalog W).

(** [GetMovieDetails] handles [GET /api/movie?title=MovieTitle]. *)
Definition GetMovieDetails (title : string) (st : State) : Reply * State :=
  if String.eqb title "" then
    (errorReply Handlers.StatusBadRequest "Bad Request" "Title query parameter is required", st)
  else
    let '(got, st') := GetMovieByTitle APIKey catalog title st in
    match got with
    | Err err =>
        if Contains err "not found" || Contains err "Movie not found" then
          (errorReply Handlers.StatusNotFound "Not Found" ("Movie not found: " +:+ title), st')
        else
          (errorReply Handlers.StatusInternalServerError "Internal Server Error"
             ("Failed to fetch movie details: " +:+ err), st')
    | Ok movieData =>
        (mkReply Handlers.StatusOK
           (MovieDetailsPayload
              (MovieDetailsResponse.mk
                 (OMDbFull.Title movieData)
                 (OMDbFull.Year movieData)
                 (OMDbFull.Plot movieData)
                 (OMDbFull.Country movieData)
                 (OMDbFull.Awards movieData)
                 (OMDbFull.Director movieData)
                 (OMDbFull.Ratings movieData))), st')
    end.

(** [GetEpisodeDetails] handles
    [GET /api/episode?series_title=SeriesTitle&season=1&episode_number=1]. *)
Definition GetEpisodeDetails (seriesTitle seasonStr episodeStr : string) (st : State)
    : Reply * State :=
  if String.eqb seriesTitle "" || String.eqb seasonStr "" || String.eqb episodeStr "" then
    (errorReply Handlers.StatusBadRequest "Bad Request"
       "series_title, season, and episode_number query parameters are required", st)
  else
    match Atoi seasonStr with
    | inr _ =>
        (errorReply Handlers.StatusBadRequest "Bad Request" "Season must be a valid integer", st)
    | inl season =>
        match Atoi episodeStr with
        | inr _ =>
            (errorReply Handlers.StatusBadRequest "Bad Request"
               "Episode number must be a valid integer", st)
        | inl episode =>
            let '(got, st') :=
              Lookups.GetEpisodeDetails APIKey catalog seriesTitle season episode st in
            match got with
            | Err err =>
                if Contains err "not found" || Contains err "Episode not found" then
                  (errorReply Handlers.StatusNotFound "Not Found"
                     "Episode not found for the given parameters", st')
                else
                  (errorReply Handlers.StatusInternalServerError "Internal Server Error"
                     ("Failed to fetch episode details: " +:+ err), st')
            | Ok episodeData =>
                (mkReply Handlers.StatusOK
                   (EpisodeDetailsPayload
                      (EpisodeDetailsResponse.mk
                         (OMDbFull.Title episodeData)
                         seriesTitle
                         (OMDbFull.Season episodeData)
                         (OMDbFull.Episode episodeData)
                         (OMDbFull.Year episodeData)
                         (OMDbFull.Plot episodeData)
                         (OMDbFull.Director episodeData)
                         (OMDbFull.Actors episodeData)
                         (OMDbFull.Ratings episodeData)
                         (OMDbFull.ImdbRating episodeData))), st')
            end
        end
    end.

End Handler.

End DetailHandlers.

(* ===================================================================== *)
(** ** What a collector has accepted *)
(* ===================================================================== *)

Module Picks.

Import GoStrings GoFloat Services.

(** A search hit that a collector accepted, with the record that the
    title lookup for it gave. *)
Record Pick : Type := mkPick {
  hit : SearchResult.t;
  details : OMDbResponse.t
}.

Definition briefs (picked : list Pick) : list MovieBrief.t :=
  map (λ p, briefOf (details p)) picked.

Definition hitIDs (picked : list Pick) : list string :=
  map (λ p, SearchResult.ImdbID (hit p)) picked.

(** The set of seen identifiers holds every accepted one. *)
Definition seenAll (movieSet : gmap string bool) (picked : list Pick) : Prop :=
  ∀ id, id ∈ hitIDs picked → mapRead movieSet id = true.

Section Picks.

Context (lib : GoLib) {W : Type} (up : Upstream W).

(** The hit stood on a page that the upstream sent for a search of
    [term]. *)
Definition foundBy (term : string) (p : Pick) : Prop :=
  ∃ w page w' searchResp,
    search up w term page = (w', Decoded searchResp) ∧
    String.eqb (SearchResponse.Response searchResp) "False" = false ∧
    hit p ∈ SearchResponse.Search searchResp.

(** The record is what the upstream sent for the title of the hit, and
    it is not an error record. *)
Definition lookedUp (p : Pick) : Prop :=
  ∃ w w',
    title up w (SearchResult.Title (hit p)) = (w', Decoded (details p)) ∧
    String.eqb (OMDbResponse.Response (details p)) "False" = false.

Definition ratedUp (p : Pick) : Prop :=
  gt (ratingOf lib (OMDbResponse.ImdbRating (details p))) zero = true.

(** What [getMoviesExcluding] requires of a hit before it appends it. *)
Definition facetPick (searchTerm searchType excludeTitle : string) (p : Pick) : Prop :=
  lookedUp p ∧ ratedUp p ∧
  EqualFold lib (SearchResult.Title (hit p)) excludeTitle = false ∧
  facetMatches lib searchType searchTerm (details p) = true.

(** What [GetMoviesByGenre] requires of a hit before it appends it. *)
Definition genrePick (genre : string) (p : Pick) : Prop :=
  lookedUp p ∧ ratedUp p ∧
  Contains (ToLower lib (OMDbResponse.Genre (details p))) (ToLower lib genre) = true.

(** A pick that [getMoviesExcluding] accepted when called for one of
    [names]. *)
Definition collectedFor (searchType excludeTitle : string) (names : list string)
    (p : Pick) : Prop :=
  ∃ name, name ∈ names ∧
          foundBy name p ∧ facetPick name searchType excludeTitle p.

End Picks.

End Picks.

(* ===================================================================== *)
(** ** Reading the log of requests *)
(* ===================================================================== *)

Module Traffic.

(** The searches among the requests, in order: term and [page]
    parameter. *)
Definition searchesOf (reqs : list Request) : list (string * option Z) :=
  omap (λ r, match r with
             | SearchRequest s page => Some (s, page)
             | TitleRequest _ => None
             end) reqs.

(** The title lookups among the requests, in order. *)
Definition lookupsOf (reqs : list Request) : list string :=
  omap (λ r, match r with
             | SearchRequest _ _ => None
             | TitleRequest t => Some t
             end) reqs.

Definition pagesOf (term : string) (pages : list Z) : list (string * option Z) :=
  map (λ page, (term, Some page)) pages.

(** Pages 1 and 2 of every name, name after name. *)
Definition bothPages (names : list string) : list (string * option Z) :=
  flat_map (λ name, pagesOf name [1; 2]%Z) names.

End Traffic.

(* ===================================================================== *)
(** ** A catalog for the worked detail lookups *)
(* ===================================================================== *)

Module DetailScenarios.

Import GoURL.

(** The record of the first episode of "Breaking Bad". *)
Definition pilot : OMDbFull.t :=
  OMDbFull.mk "Pilot" "2008" "TV-MA" "20 Jan 2008" "58 min" "Crime, Drama, Thriller"
    "Vince Gilligan" "Vince Gilligan" "Bryan Cranston, Anna Gunn, Aaron Paul"
    "A chemistry teacher turns to crime." "English" "United States" "N/A" "N/A"
    [Rating.mk "Internet Movie Database" "9.0/10"]
    "N/A" "9.0" "40000" "tt0959621" "episode" "N/A" "N/A" "N/A" "N/A" "True" "" "1" "1".

(** OMDb's answer when it has no such episode. *)
Definition noEpisode : OMDbFull.t :=
  OMDbFull.mk "" "" "" "" "" "" "" "" "" "" "" "" "" "" [] "" "" "" "" "" "" "" "" ""
    "False" "Series or episode not found!" "" "".

(** A catalog that knows this one episode, by series title, season and
    episode number. *)
Definition series : Catalog unit := {|
  get := λ w params,
    (w, if String.eqb (Get params "t") "Breaking Bad"
           && String.eqb (Get params "Season") "1"
           && String.eqb (Get params "Episode") "1"
        then Decoded pilot
        else Decoded noEpisode)
|}.

Definition start : Lookups.State := Lookups.mkState () [].

End DetailScenarios.

(* ===================================================================== *)
(** ** Properties of the Term Expander *)
(* ===================================================================== *)

Module ExpanderFacts.

Import Services.

Lemma genreTerms_nonempty (k : string) (terms : list string) :
  genreTerms !! k = Some terms → terms ≠ [].
Proof.
  unfold genreTerms. intros Hk.
  apply elem_of_list_to_map_2 in Hk.
  repeat (apply elem_of_cons in Hk as [Hk | Hk]; [by inversion Hk |]).
  by apply elem_of_nil in Hk.
Qed.

(** C9: the Term Expander never returns an empty sequence, and an input
    whose lower-cased form is no key of the canonical mapping is expanded
    to exactly the input followed by "movie" and "film". *)
Theorem getGenreSearchTerms_nonempty_and_fallback (lib : GoLib) (genre : string) :
  getGenreSearchTerms lib genre ≠ [] ∧
  (genreTerms !! ToLower lib genre = None →
   getGenreSearchTerms lib genre = [genre; "movie"; "film"]).
Proof.
  unfold getGenreSearchTerms. split.
  - destruct (genreTerms !! ToLower lib genre) as [terms|] eqn:Hk.
    + by eapply genreTerms_nonempty.
    + discriminate.
  - by intros ->.
Qed.

Lemma getGenreSearchTerms_jazz :
  getGenreSearchTerms asciiLib "jazz" ≠ [] ∧
  getGenreSearchTerms asciiLib "jazz" = ["jazz"; "movie"; "film"].
Proof.
  split.
  - apply (getGenreSearchTerms_nonempty_and_fallback asciiLib "jazz").
  - apply (getGenreSearchTerms_nonempty_and_fallback asciiLib "jazz").
    vm_compute. reflexivity.
Defined.

(** A canonical genre is matched whatever its case. *)
Example getGenreSearchTerms_horror :
  getGenreSearchTerms asciiLib "HoRRoR"
  = ["horror"; "scary"; "thriller"; "supernatural"; "zombie"].
Proof. vm_compute. reflexivity. Qed.

End ExpanderFacts.

(* ===================================================================== *)
(** ** [sort.Slice] rearranges: every step is a swap *)
(* ===================================================================== *)

Module SortPermutation.

Import GoSort.

Section Rearranging.

Context {A : Type} (less : A → A → bool).

Lemma Swap_Permutation (data : list A) (i j : nat) : Swap data i j ≡ₚ data.
Proof.
  unfold Swap.
  destruct (data !! i) as [x|] eqn:Hi; [|done].
  destruct (data !! j) as [y|] eqn:Hj; [|done].
  by apply Permutation_insert_swap.
Qed.

Lemma Swap_length (data : list A) (i j : nat) : length (Swap data i j) = length data.
Proof. apply Permutation_length, Swap_Permutation. Qed.

#[local] Hint Resolve Swap_Permutation : core.

Ltac swapped IH := etrans; [apply IH | apply Swap_Permutation].

Lemma insertDown_Permutation (a j : nat) :
  ∀ data : list A, insertDown less data a j ≡ₚ data.
Proof.
  induction j as [|j IH]; intros data; simpl; [done|].
  destruct (_ && _); [swapped IH | done].
Qed.

Lemma foldl_Permutation {B : Type} (f : list A → B → list A) (items : list B) :
  (∀ data x, f data x ≡ₚ data) → ∀ data, foldl f data items ≡ₚ data.
Proof.
  intros Hf. induction items as [|x items IH]; intros data; simpl; [done|].
  etrans; [apply IH | apply Hf].
Qed.

Lemma insertionSort_Permutation (data : list A) (a b : nat) :
  insertionSort_func less data a b ≡ₚ data.
Proof. apply foldl_Permutation. intros. apply insertDown_Permutation. Qed.

Lemma siftDownLoop_Permutation (rounds : nat) :
  ∀ (data : list A) (root hi first : nat),
    siftDownLoop less rounds data root hi first ≡ₚ data.
Proof.
  induction rounds as [|rounds IH]; intros data root hi first; simpl; [done|].
  destruct (hi <=? _); [done|]. destruct (negb _); [done|]. swapped IH.
Qed.

Lemma siftDown_Permutation (data : list A) (lo hi first : nat) :
  siftDown_func less data lo hi first ≡ₚ data.
Proof. apply siftDownLoop_Permutation. Qed.

Lemma heapSort_Permutation (data : list A) (a b : nat) :
  heapSort_func less data a b ≡ₚ data.
Proof.
  unfold heapSort_func. etrans.
  - apply foldl_Permutation. intros d i.
    etrans; [apply siftDown_Permutation | apply Swap_Permutation].
  - apply foldl_Permutation. intros. apply siftDown_Permutation.
Qed.

Lemma breakPatternsLoop_Permutation (rounds : nat) :
  ∀ (i : nat) (data : list A) (random modulus : Z) (a length idx : nat),
    breakPatternsLoop rounds i data random modulus a length idx ≡ₚ data.
Proof.
  induction rounds as [|rounds IH]; intros; simpl; [done|]. swapped IH.
Qed.

Lemma breakPatterns_Permutation (data : list A) (a b : nat) :
  breakPatterns_func data a b ≡ₚ data.
Proof.
  unfold breakPatterns_func. destruct (8 <=? _); [|done].
  apply breakPatternsLoop_Permutation.
Qed.

Lemma reverseLoop_Permutation (rounds : nat) :
  ∀ (data : list A) (i j : nat), reverseLoop rounds data i j ≡ₚ data.
Proof.
  induction rounds as [|rounds IH]; intros; simpl; [done|].
  destruct (_ <? _); [swapped IH | done].
Qed.

Lemma reverseRange_Permutation (data : list A) (a b : nat) :
  reverseRange_func data a b ≡ₚ data.
Proof. apply reverseLoop_Permutation. Qed.

Lemma shiftLeft_Permutation (j : nat) :
  ∀ data : list A, shiftLeft less data j ≡ₚ data.
Proof.
  induction j as [|j IH]; intros data; simpl; [done|].
  destruct (negb _); [done | swapped IH].
Qed.

Lemma shiftRight_Permutation (rounds : nat) :
  ∀ (data : list A) (j : nat), shiftRight less rounds data j ≡ₚ data.
Proof.
  induction rounds as [|rounds IH]; intros; simpl; [done|].
  destruct (negb _); [done | swapped IH].
Qed.

Lemma partialInsertionLoop_Permutation (steps : nat) :
  ∀ (data : list A) (a b i : nat),
    (partialInsertionLoop less steps data a b i).1 ≡ₚ data.
Proof.
  induction steps as [|steps IH]; intros;
    cbn -[Nat.leb Nat.ltb Nat.eqb Nat.sub]; [done|].
  set (i' := skipOrdered less (b - i) data i b).
  destruct (i' =? b); [done|]. destruct (b - a <? 50); [done|].
  etrans; [apply IH|].
  destruct (2 <=? b - i'), (2 <=? i' - a);
    repeat first [ etrans; [apply shiftRight_Permutation|]
                 | etrans; [apply shiftLeft_Permutation|] ];
    apply Swap_Permutation.
Qed.

Lemma partialInsertionSort_Permutation (data : list A) (a b : nat) :
  (partialInsertionSort_func less data a b).1 ≡ₚ data.
Proof. apply partialInsertionLoop_Permutation. Qed.

Lemma partitionLoop_Permutation (up down : list A → nat → bool) (rounds : nat) :
  ∀ (data : list A) (i j : nat),
    (partitionLoop up down rounds data i j).1.1 ≡ₚ data.
Proof.
  induction rounds as [|rounds IH]; intros; simpl; [done|].
  destruct (_ <? _); [done | swapped IH].
Qed.

Lemma partitionEqual_Permutation (data : list A) (a b pivot : nat) :
  (partitionEqual_func less data a b pivot).1 ≡ₚ data.
Proof.
  unfold partitionEqual_func.
  pose proof (partitionLoop_Permutation
                (λ d i, negb (Less less d a i)) (λ d j, Less less d a j)
                (b - a) (Swap data a pivot) (a + 1) (b - 1)) as Hloop.
  destruct (partitionLoop _ _ _ _ _ _) as [[d i] j]. simpl in *.
  by rewrite Hloop.
Qed.

Lemma partition_Permutation (data : list A) (a b pivot : nat) :
  (partition_func less data a b pivot).1.1 ≡ₚ data.
Proof.
  unfold partition_func. cbv zeta.
  destruct (_ <? _); simpl.
  { by rewrite !Swap_Permutation. }
  match goal with
  | |- context [partitionLoop ?u ?d ?r ?l ?i ?j] =>
      pose proof (partitionLoop_Permutation u d r l i j) as Hloop;
      destruct (partitionLoop u d r l i j) as [[d' i'] j']
  end.
  simpl in *. by rewrite Swap_Permutation, Hloop, !Swap_Permutation.
Qed.

Lemma pdqsort_Permutation (fuel : nat) :
  ∀ (data data' : list A) (a b limit : nat) (wasBalanced wasPartitioned : bool),
    pdqsort_func less fuel data a b limit wasBalanced wasPartitioned = Some data' →
    data' ≡ₚ data.
Proof.
  induction fuel as [|fuel IH]; intros data data' a b limit wasBalanced wasPartitioned;
    simpl; [done|].
  destruct (b - a <=? 12).
  { intros [= <-]. apply insertionSort_Permutation. }
  destruct (limit =? 0).
  { intros [= <-]. apply heapSort_Permutation. }
  set (broken := if negb wasBalanced then (breakPatterns_func data a b, limit - 1)
                 else (data, limit)).
  assert (Hbroken : broken.1 ≡ₚ data).
  { subst broken. destruct wasBalanced; simpl; [done | apply breakPatterns_Permutation]. }
  destruct broken as [data1 limit1]. simpl in Hbroken.
  destruct (choosePivot_func less data1 a b) as [pivot hint].
  set (reversed := if isDecreasing hint
                   then (reverseRange_func data1 a b, b - 1 - (pivot - a), increasingHint)
                   else (data1, pivot, hint)).
  assert (Hreversed : reversed.1.1 ≡ₚ data).
  { subst reversed. destruct (isDecreasing hint); simpl; [|done].
    by rewrite reverseRange_Permutation. }
  destruct reversed as [[data2 pivot2] hint2]. simpl in Hreversed.
  set (partial := if wasBalanced && wasPartitioned && isIncreasing hint2
                  then partialInsertionSort_func less data2 a b else (data2, false)).
  assert (Hpartial : partial.1 ≡ₚ data).
  { subst partial. destruct (_ && _); simpl; [|done].
    by rewrite partialInsertionSort_Permutation. }
  destruct partial as [data3 sorted]. simpl in Hpartial.
  destruct sorted.
  { by intros [= <-]. }
  destruct (_ && _).
  - pose proof (partitionEqual_Permutation data3 a b pivot2) as Heq.
    destruct (partitionEqual_func less data3 a b pivot2) as [data4 mid]. simpl in Heq.
    intros Hrec%IH. by rewrite Hrec, Heq.
  - pose proof (partition_Permutation data3 a b pivot2) as Hpart.
    destruct (partition_func less data3 a b pivot2) as [[data4 mid] already]. simpl in Hpart.
    destruct (_ <? _).
    + destruct (pdqsort_func less fuel data4 a mid limit1 true true) as [data5|] eqn:Hleft;
        simpl; [|done].
      intros Hright%IH. apply IH in Hleft. by rewrite Hright, Hleft, Hpart.
    + destruct (pdqsort_func less fuel data4 (mid + 1) b limit1 true true) as [data5|] eqn:Hright;
        simpl; [|done].
      intros Hleft%IH. apply IH in Hright. by rewrite Hleft, Hright, Hpart.
Qed.

Theorem Slice_Permutation (data : list A) : Slice less data ≡ₚ data.
Proof.
  unfold Slice, SliceFuel.
  destruct (pdqsort_func _ _ _ _ _ _ _ _) as [data'|] eqn:Hrun; simpl; [|done].
  by eapply pdqsort_Permutation.
Qed.

Lemma Slice_length (data : list A) : length (Slice less data) = length data.
Proof. apply Permutation_length, Slice_Permutation. Qed.

End Rearranging.

End SortPermutation.

(* ===================================================================== *)
(** ** [sort.Slice] sorts *)
(* ===================================================================== *)

Module SortOrder.

Import GoSort SortSpec SortPermutation.

Section Order.

Context `{Inhabited A} (less : A → A → bool) (ok : A → Prop).

(** [less] is a strict weak order on the elements of the kind [ok]. *)
Hypothesis less_irrefl : ∀ x, ok x → less x x = false.
Hypothesis less_trans :
  ∀ x y z, ok x → ok y → ok z → less x y = true → less y z = true → less x z = true.
Hypothesis less_cotrans :
  ∀ x y z, ok x → ok y → ok z → less x z = true → less x y = true ∨ less y z = true.

Lemma less_asym (x y : A) : ok x → ok y → less x y = true → less y x = false.
Proof.
  intros Hx Hy Hxy. destruct (less y x) eqn:Hyx; [|done].
  pose proof (less_trans x y x Hx Hy Hx Hxy Hyx) as Hxx.
  by rewrite less_irrefl in Hxx.
Qed.

(** x ≤ y ≤ z *)
Lemma notless_trans (x y z : A) :
  ok x → ok y → ok z → less y x = false → less z y = false → less z x = false.
Proof.
  intros Hx Hy Hz Hyx Hzy. destruct (less z x) eqn:Hzx; [|done].
  destruct (less_cotrans z y x Hz Hy Hx Hzx); congruence.
Qed.

(** x < y ≤ z *)
Lemma less_notless_trans (x y z : A) :
  ok x → ok y → ok z → less x y = true → less z y = false → less x z = true.
Proof.
  intros Hx Hy Hz Hxy Hzy.
  destruct (less_cotrans x z y Hx Hz Hy Hxy); congruence.
Qed.

(** x ≤ y < z *)
Lemma notless_less_trans (x y z : A) :
  ok x → ok y → ok z → less y x = false → less y z = true → less x z = true.
Proof.
  intros Hx Hy Hz Hyx Hyz.
  destruct (less_cotrans y x z Hy Hx Hz Hyz); congruence.
Qed.

(** *** Reading and swapping *)

Lemma ok_lookup (data : list A) (i : nat) :
  Forall ok data → i < length data → ok (data !!! i).
Proof.
  intros Hall Hi. eapply Forall_lookup_1; [exact Hall|].
  by apply list_lookup_lookup_total_lt.
Qed.

Lemma Less_lookup (data : list A) (i j : nat) :
  i < length data → j < length data →
  Less less data i j = less (data !!! i) (data !!! j).
Proof.
  intros Hi Hj. unfold Less.
  by rewrite (list_lookup_lookup_total_lt data i), (list_lookup_lookup_total_lt data j).
Qed.

Lemma Swap_lookup (data : list A) (i j k : nat) :
  i < length data → j < length data →
  Swap data i j !!! k
  = if decide (k = i) then data !!! j
    else if decide (k = j) then data !!! i
    else data !!! k.
Proof.
  intros Hi Hj. unfold Swap.
  rewrite (list_lookup_lookup_total_lt data i), (list_lookup_lookup_total_lt data j) by done.
  destruct (decide (k = i)) as [->|Hki].
  - by rewrite list_lookup_total_insert_eq by (by rewrite length_insert).
  - rewrite list_lookup_total_insert_ne by done.
    destruct (decide (k = j)) as [->|Hkj].
    + by rewrite list_lookup_total_insert_eq.
    + by rewrite list_lookup_total_insert_ne.
Qed.

Lemma Swap_same (data : list A) (i : nat) : Swap data i i = data.
Proof.
  unfold Swap. destruct (data !! i) as [x|] eqn:Hi; [|done].
  by rewrite list_insert_insert_eq, list_insert_id.
Qed.

Lemma Swap_outside (data : list A) (i j k : nat) :
  k ≠ i → k ≠ j → Swap data i j !! k = data !! k.
Proof.
  intros Hi Hj. unfold Swap.
  destruct (data !! i) as [x|]; [|done]. destruct (data !! j) as [y|]; [|done].
  by rewrite !list_lookup_insert_ne.
Qed.

(** *** Rearrangements *)

Lemma moved_refl (a b : nat) (data : list A) : moved a b data data.
Proof. by split. Qed.

Lemma moved_trans (a b : nat) (data1 data2 data3 : list A) :
  moved a b data1 data2 → moved a b data2 data3 → moved a b data1 data3.
Proof.
  intros [Hp1 Hk1] [Hp2 Hk2]. split; [by etrans|].
  intros k Hk. by rewrite Hk2, Hk1.
Qed.

Lemma moved_wider (a b a' b' : nat) (data data' : list A) :
  a ≤ a' → b' ≤ b → moved a' b' data data' → moved a b data data'.
Proof. intros Ha Hb [Hp Hk]. split; [done|]. intros k Hout. apply Hk. lia. Qed.

Lemma moved_length (a b : nat) (data data' : list A) :
  moved a b data data' → length data' = length data.
Proof. intros [Hp _]. by apply Permutation_length. Qed.

Lemma moved_ok (a b : nat) (data data' : list A) :
  moved a b data data' → Forall ok data → Forall ok data'.
Proof. intros [Hp _] Hall. by rewrite Hp. Qed.

Lemma moved_lookup (a b : nat) (data data' : list A) (k : nat) :
  moved a b data data' → k < a ∨ b ≤ k → data' !!! k = data !!! k.
Proof.
  intros [_ Hk] Hout. rewrite !list_lookup_total_alt. by rewrite Hk.
Qed.

Lemma Swap_moved (a b : nat) (data : list A) (i j : nat) :
  a ≤ i → i < b → a ≤ j → j < b → moved a b data (Swap data i j).
Proof.
  intros. split; [apply Swap_Permutation|].
  intros k Hk. apply Swap_outside; lia.
Qed.

(** The elements between [a] and [b], as a list. *)
Lemma moved_segment (a b : nat) (data data' : list A) :
  moved a b data data' → a ≤ b → b ≤ length data →
  take (b - a) (drop a data') ≡ₚ take (b - a) (drop a data).
Proof.
  intros Hmoved Hab Hb.
  pose proof (moved_length _ _ _ _ Hmoved) as Hlen.
  destruct Hmoved as [Hperm Hout].
  assert (Hpre : take a data' = take a data).
  { apply list_eq. intros k. rewrite !lookup_take.
    destruct (decide (k < a)); [apply Hout; lia | done]. }
  assert (Hpost : drop b data' = drop b data).
  { apply list_eq. intros k. rewrite !lookup_drop. apply Hout. lia. }
  assert (Hsplit : ∀ l : list A,
            l = take a l ++ take (b - a) (drop a l) ++ drop b l).
  { intros l. rewrite <- (take_drop a l) at 1. f_equal.
    rewrite <- (take_drop (b - a) (drop a l)) at 1. f_equal.
    rewrite drop_drop. f_equal. lia. }
  rewrite (Hsplit data), (Hsplit data'), Hpre, Hpost in Hperm.
  apply Permutation_app_inv_l in Hperm.
  by apply Permutation_app_inv_r in Hperm.
Qed.

Lemma allIn_segment (a b : nat) (data : list A) (P : A → Prop) :
  a ≤ b → b ≤ length data →
  allIn a b data P ↔ Forall P (take (b - a) (drop a data)).
Proof.
  intros Hab Hb. rewrite Forall_lookup. split.
  - intros Hall k x Hk.
    apply lookup_take_Some in Hk as [Hk Hlt]. rewrite lookup_drop in Hk.
    apply list_lookup_total_correct in Hk as <-. apply Hall; lia.
  - intros Hall k Hak Hkb. apply (Hall (k - a)).
    rewrite lookup_take_lt, lookup_drop by lia.
    replace (a + (k - a)) with k by lia.
    apply list_lookup_lookup_total_lt. lia.
Qed.

Lemma moved_allIn (a b : nat) (data data' : list A) (P : A → Prop) :
  moved a b data data' → a ≤ b → b ≤ length data →
  allIn a b data P → allIn a b data' P.
Proof.
  intros Hmoved Hab Hb.
  rewrite !allIn_segment by (rewrite ?(moved_length _ _ _ _ Hmoved); done).
  by rewrite (moved_segment a b data data').
Qed.

Lemma moved_lowerBound (a b : nat) (data data' : list A) :
  moved a b data data' → a ≤ b → b ≤ length data →
  lowerBound less data a b → lowerBound less data' a b.
Proof.
  intros Hmoved Hab Hb Hlow Ha.
  rewrite (moved_lookup a b data data') by (done || lia).
  eapply moved_allIn; eauto.
Qed.

(** *** Insertion sort *)

(** Rewrites a read of a swapped slice into a read of the slice. *)
Ltac read_swap :=
  repeat (rewrite Swap_lookup by lia);
  repeat (destruct (decide _) as [?|?]; try lia); subst.

Ltac ok_elem := apply ok_lookup; [assumption | lia].

(** Closes an ordering goal with one of the facts at hand. *)
Ltac by_order :=
  match goal with
  | H : sortedOn _ _ _ _ |- less _ _ = _ => apply H; lia
  | H : ∀ i j : nat, _ |- less _ _ = _ => apply H; lia
  | H : ∀ k : nat, _ |- less _ _ = _ => apply H; lia
  | H : less ?x ?y = true |- less ?y ?x = false =>
      apply less_asym; [ok_elem | ok_elem | exact H]
  | |- less ?x ?x = false => apply less_irrefl; ok_elem
  | H : less ?x ?y = _ |- less ?x ?y = _ => exact H
  end.

(** The element at [j] travels down through the sorted run before it;
    the run after it, up to [top], is already in place. *)
Lemma insertDown_spec (a : nat) :
  ∀ (j : nat) (data : list A) (top : nat),
    a ≤ j → j ≤ top → top < length data → Forall ok data →
    sortedOn less data a j →
    sortedOn less data (j + 1) (top + 1) →
    (∀ i k, a ≤ i → i < j → j < k → k ≤ top → less (data !!! k) (data !!! i) = false) →
    (∀ k, j < k → k ≤ top → less (data !!! k) (data !!! j) = false) →
    moved a (top + 1) data (insertDown less data a j) ∧
    sortedOn less (insertDown less data a j) a (top + 1).
Proof.
  assert (Hdone : ∀ (j : nat) (data : list A) (top : nat),
    a ≤ j → j ≤ top → top < length data → Forall ok data →
    sortedOn less data a j →
    sortedOn less data (j + 1) (top + 1) →
    (∀ i k, a ≤ i → i < j → j < k → k ≤ top → less (data !!! k) (data !!! i) = false) →
    (∀ k, j < k → k ≤ top → less (data !!! k) (data !!! j) = false) →
    (a < j → less (data !!! j) (data !!! (j - 1)) = false) →
    sortedOn less data a (top + 1)).
  { intros j data top Haj Hjt Htop Hok Hpre Hpost Hcross Hj Hstop i k Hai Hik Hk.
    destruct (decide (k < j)); [by apply Hpre; lia|].
    destruct (decide (j < i)); [by apply Hpost; lia|].
    destruct (decide (i = j)) as [->|Hij].
    { destruct (decide (k = j)) as [->|]; [|apply Hj; lia].
      apply less_irrefl, ok_lookup; [done | lia]. }
    destruct (decide (k = j)) as [->|]; [|apply Hcross; lia].
    destruct (decide (i = j - 1)) as [->|]; [apply Hstop; lia|].
    apply (notless_trans _ (data !!! (j - 1))); try (apply ok_lookup; [done | lia]).
    - apply Hpre; lia.
    - apply Hstop. lia. }
  induction j as [|j IH]; intros data top Haj Hjt Htop Hok Hpre Hpost Hcross Hj.
  - simpl. split; [apply moved_refl|]. eapply Hdone; eauto. lia.
  - cbn [insertDown].
    destruct (a <? S j) eqn:Ha; simpl.
    2: { apply Nat.ltb_ge in Ha. split; [apply moved_refl|]. eapply Hdone; eauto. lia. }
    apply Nat.ltb_lt in Ha.
    rewrite Less_lookup by lia.
    destruct (less (data !!! S j) (data !!! j)) eqn:Hless.
    2: { split; [apply moved_refl|]. eapply Hdone; eauto.
         intros _. by replace (S j - 1) with j by lia. }
    assert (Hlen : length (Swap data (S j) j) = length data) by apply Swap_length.
    assert (Hswap : moved a (top + 1) data (Swap data (S j) j)) by (apply Swap_moved; lia).
    destruct (IH (Swap data (S j) j) top) as [Hmoved Hsorted]; try lia.
    + by eapply moved_ok.
    + intros i k ? ? ?. read_swap; by_order.
    + intros i k ? ? ?. read_swap; by_order.
    + intros i k ? ? ? ?. read_swap; by_order.
    + intros k ? ?. read_swap; by_order.
    + split; [by eapply moved_trans | done].
Qed.

Lemma sortedOn_short (data : list A) (a b : nat) :
  Forall ok data → b ≤ length data → b ≤ a + 1 → sortedOn less data a b.
Proof.
  intros Hok Hb Hshort i j Hai Hij Hj. assert (i = j) as -> by lia.
  apply less_irrefl, ok_lookup; [done | lia].
Qed.

Lemma insertionSort_spec (data : list A) (a b : nat) :
  a ≤ b → b ≤ length data → Forall ok data →
  moved a b data (insertionSort_func less data a b) ∧
  sortedOn less (insertionSort_func less data a b) a b.
Proof.
  intros Hab Hb Hok. unfold insertionSort_func.
  destruct (decide (b ≤ a + 1)) as [Hshort|Hlong].
  { replace (b - (a + 1)) with 0 by lia. simpl.
    split; [apply moved_refl | by apply sortedOn_short]. }
  assert (Hloop : ∀ (n : nat) (data1 : list A) (i : nat),
    a < i → i + n = b → moved a b data data1 → sortedOn less data1 a i →
    moved a b data (foldl (λ d i, insertDown less d a i) data1 (seq i n)) ∧
    sortedOn less (foldl (λ d i, insertDown less d a i) data1 (seq i n)) a b).
  { induction n as [|n IH]; intros data1 i Hai Hin Hmoved Hsorted; simpl.
    - assert (i = b) as -> by lia. by split.
    - pose proof (moved_length _ _ _ _ Hmoved) as Hlen.
      destruct (insertDown_spec a i data1 i) as [Hm Hs];
        try first [lia | done | by eapply moved_ok | intros ? ? ? ? ?; lia | intros; lia].
      apply IH; [lia | lia | | by replace (S i) with (i + 1) by lia].
      eapply moved_trans; [exact Hmoved|]. eapply moved_wider; [| |exact Hm]; lia. }
  apply Hloop; [lia | lia | apply moved_refl | apply sortedOn_short; [done | lia | lia]].
Qed.

(** *** The two scans and the partition loop *)

Lemma scanUp_spec (cond : nat → bool) :
  ∀ rounds i j, j + 1 - i ≤ rounds →
    i ≤ scanUp cond rounds i j ∧
    (i ≤ j + 1 → scanUp cond rounds i j ≤ j + 1) ∧
    (∀ k, i ≤ k → k < scanUp cond rounds i j → cond k = true) ∧
    (scanUp cond rounds i j ≤ j → cond (scanUp cond rounds i j) = false).
Proof.
  induction rounds as [|rounds IH]; intros i j Hrounds; simpl.
  - repeat split; intros; lia.
  - destruct (i <=? j) eqn:Hij; simpl.
    2: { apply Nat.leb_gt in Hij. repeat split; intros; lia. }
    apply Nat.leb_le in Hij.
    destruct (cond i) eqn:Hcond.
    2: { repeat split; intros; (lia || done). }
    destruct (IH (S i) j) as (H1 & H2 & H3 & H4); [lia|].
    repeat split; [lia | intros; apply H2; lia | | done].
    intros k Hk1 Hk2. destruct (decide (k = i)) as [->|]; [done | apply H3; lia].
Qed.

Lemma scanDown_spec (cond : nat → bool) (i : nat) :
  1 ≤ i →
  ∀ j, scanDown cond i j ≤ j ∧
       (i ≤ j + 1 → i ≤ scanDown cond i j + 1) ∧
       (∀ k, scanDown cond i j < k → k ≤ j → cond k = true) ∧
       (i ≤ scanDown cond i j → cond (scanDown cond i j) = false).
Proof.
  intros Hi. induction j as [|j IH]; simpl.
  - repeat split; intros; lia.
  - destruct (i <=? S j) eqn:Hij; simpl.
    2: { apply Nat.leb_gt in Hij. repeat split; intros; lia. }
    apply Nat.leb_le in Hij.
    destruct (cond (S j)) eqn:Hcond.
    2: { repeat split; intros; (lia || done). }
    destruct IH as (H1 & H2 & H3 & H4).
    repeat split; [lia | intros; apply H2; lia | | done].
    intros k Hk1 Hk2. destruct (decide (k = S j)) as [->|]; [done | apply H3; lia].
Qed.

Lemma partitionLoop_spec (U : A → bool) (up down : list A → nat → bool)
    (data0 : list A) (a b : nat) :
  b ≤ length data0 →
  (∀ data k, moved (a + 1) b data0 data → a < k → k < b →
             up data k = U (data !!! k) ∧ down data k = negb (U (data !!! k))) →
  ∀ rounds data i j,
    partitioning U data0 a b data i j → j + 1 - i ≤ 2 * rounds →
    let '(data', i', j') := partitionLoop up down rounds data i j in
    partitioning U data0 a b data' i' j' ∧ i' = j' + 1.
Proof.
  intros Hb Hcond. induction rounds as [|rounds IH]; intros data i j Hinv Hrounds.
  - simpl. split; [done|]. destruct Hinv as (_ & _ & ? & _). lia.
  - cbn [partitionLoop].
    destruct Hinv as (Hmoved & Hai & Hij & Hjb & Hleft & Hright).
    pose proof (moved_length _ _ _ _ Hmoved) as Hlen.
    destruct (scanUp_spec (up data) (S j - i) i j) as (Hu1 & Hu2 & Hu3 & Hu4); [lia|].
    set (i1 := scanUp (up data) (S j - i) i j) in *.
    destruct (scanDown_spec (down data) i1 ltac:(lia) j) as (Hd1 & Hd2 & Hd3 & Hd4).
    set (j1 := scanDown (down data) i1 j) in *.
    assert (Hleft1 : allIn (a + 1) i1 data (λ x, U x = true)).
    { intros k Hk1 Hk2. destruct (decide (k < i)); [by apply Hleft|].
      rewrite <- (proj1 (Hcond data k Hmoved ltac:(lia) ltac:(lia))). apply Hu3; lia. }
    assert (Hright1 : allIn (j1 + 1) b data (λ x, U x = false)).
    { intros k Hk1 Hk2. destruct (decide (j < k)); [apply Hright; lia|].
      pose proof (Hd3 k ltac:(lia) ltac:(lia)) as Hk.
      rewrite (proj2 (Hcond data k Hmoved ltac:(lia) ltac:(lia))) in Hk.
      by destruct (U (data !!! k)). }
    destruct (j1 <? i1) eqn:Hcross.
    + apply Nat.ltb_lt in Hcross. split; [|lia].
      unfold partitioning. split_and!; (done || lia).
    + apply Nat.ltb_ge in Hcross.
      specialize (Hu4 ltac:(lia)). specialize (Hd4 ltac:(lia)).
      rewrite (proj1 (Hcond data i1 Hmoved ltac:(lia) ltac:(lia))) in Hu4.
      rewrite (proj2 (Hcond data j1 Hmoved ltac:(lia) ltac:(lia))) in Hd4.
      apply negb_false_iff in Hd4.
      assert (i1 ≠ j1) by (intros Heq; rewrite Heq in Hu4; congruence).
      apply IH; [|lia].
      unfold partitioning. split_and!; try lia.
      * eapply moved_trans; [exact Hmoved | apply Swap_moved; lia].
      * intros k Hk1 Hk2. read_swap; [done | apply Hleft1; lia].
      * intros k Hk1 Hk2. read_swap; [done | apply Hright1; lia].
Qed.

(** The first round of [partition_func] is a round of its loop. *)
Lemma partition_func_loop (data : list A) (a b pivot : nat) :
  let up := λ (d : list A) i, Less less d i a in
  let down := λ (d : list A) j, negb (Less less d j a) in
  let '(data', _, j) :=
    partitionLoop up down (S (b - a)) (Swap data a pivot) (a + 1) (b - 1) in
  (partition_func less data a b pivot).1 = (Swap data' j a, j).
Proof.
  unfold partition_func. cbn [partitionLoop]. cbv zeta.
  destruct (_ <? _); [done|].
  by destruct (partitionLoop _ _ _ _ _ _) as [[d i] j].
Qed.

(** [partition_func]: the elements less than the pivot, the pivot at
    [mid], the elements not less than it. *)
Lemma partition_spec (data : list A) (a b pivot : nat) :
  a ≤ pivot → pivot < b → b ≤ length data →
  let '(data', mid, _) := partition_func less data a b pivot in
  let p := data !!! pivot in
  moved a b data data' ∧ a ≤ mid ∧ mid < b ∧ data' !!! mid = p ∧
  allIn a mid data' (λ x, less x p = true) ∧
  allIn (mid + 1) b data' (λ x, less x p = false).
Proof.
  intros Hap Hpb Hb.
  pose proof (partition_func_loop data a b pivot) as Hfun. cbv zeta in Hfun.
  set (data1 := Swap data a pivot) in *.
  assert (Hlen1 : length data1 = length data) by apply Swap_length.
  assert (Hp : data1 !!! a = data !!! pivot) by (subst data1; by read_swap).
  pose proof (partitionLoop_spec (λ x, less x (data !!! pivot))
                (λ d i, Less less d i a) (λ d j, negb (Less less d j a))
                data1 a b ltac:(lia)) as Hloop.
  specialize (Hloop ltac:(
    intros d k Hd Hak Hkb; pose proof (moved_length _ _ _ _ Hd); cbv beta;
    rewrite Less_lookup by lia;
    by rewrite (moved_lookup (a + 1) b data1 d a Hd ltac:(lia)), Hp)).
  specialize (Hloop (S (b - a)) data1 (a + 1) (b - 1)).
  destruct (partitionLoop _ _ _ _ _ _) as [[d i'] j'].
  destruct Hloop as [(Hmoved & Hi & Hij & Hj & Hleft & Hright) ->].
  { unfold partitioning. split_and!; try lia; [apply moved_refl | |]; intros k ? ?; lia. }
  { lia. }
  destruct (partition_func less data a b pivot) as [[data' mid] flag].
  simpl in Hfun. injection Hfun as -> ->.
  pose proof (moved_length _ _ _ _ Hmoved) as Hlen.
  assert (Hpa : d !!! a = data !!! pivot).
  { by rewrite (moved_lookup (a + 1) b data1 d a Hmoved ltac:(lia)). }
  split_and!; try lia.
  - apply (moved_trans _ _ _ data1); [subst data1; apply Swap_moved; lia|].
    apply (moved_trans _ _ _ d); [eapply moved_wider; [| |exact Hmoved]; lia|].
    apply Swap_moved; lia.
  - by read_swap.
  - intros k Hk1 Hk2. read_swap; apply Hleft; lia.
  - intros k Hk1 Hk2. read_swap. apply Hright; lia.
Qed.

(** [partitionEqual_func]: the pivot at [a], the elements that it is not
    less than, then, from [mid] on, the elements greater than it. *)
Lemma partitionEqual_core (data : list A) (a b pivot : nat) :
  a ≤ pivot → pivot < b → b ≤ length data →
  let '(data', mid) := partitionEqual_func less data a b pivot in
  let p := data !!! pivot in
  moved a b data data' ∧ a < mid ∧ mid ≤ b ∧ data' !!! a = p ∧
  allIn (a + 1) mid data' (λ x, less p x = false) ∧
  allIn mid b data' (λ x, less p x = true).
Proof.
  intros Hap Hpb Hb. unfold partitionEqual_func.
  set (data1 := Swap data a pivot) in *.
  assert (Hlen1 : length data1 = length data) by apply Swap_length.
  assert (Hp : data1 !!! a = data !!! pivot) by (subst data1; by read_swap).
  pose proof (partitionLoop_spec (λ x, negb (less (data !!! pivot) x))
                (λ d i, negb (Less less d a i)) (λ d j, Less less d a j)
                data1 a b ltac:(lia)) as Hloop.
  specialize (Hloop ltac:(
    intros d k Hd Hak Hkb; pose proof (moved_length _ _ _ _ Hd); cbv beta;
    rewrite Less_lookup by lia;
    rewrite (moved_lookup (a + 1) b data1 d a Hd ltac:(lia)), Hp;
    by rewrite negb_involutive)).
  specialize (Hloop (b - a) data1 (a + 1) (b - 1)).
  destruct (partitionLoop _ _ _ _ _ _) as [[d i'] j'].
  destruct Hloop as [(Hmoved & Hi & Hij & Hj & Hleft & Hright) ->].
  { unfold partitioning. split_and!; try lia; [apply moved_refl | |]; intros k ? ?; lia. }
  { lia. }
  split_and!; try lia.
  - apply (moved_trans _ _ _ data1); [subst data1; apply Swap_moved; lia|].
    eapply moved_wider; [| |exact Hmoved]; lia.
  - by rewrite (moved_lookup (a + 1) b data1 d a Hmoved ltac:(lia)).
  - intros k Hk1 Hk2. apply negb_true_iff. apply Hleft; lia.
  - intros k Hk1 Hk2. apply negb_false_iff. apply Hright; lia.
Qed.

Lemma partitionEqual_spec (data : list A) (a b pivot : nat) :
  a ≤ pivot → pivot < b → b ≤ length data → Forall ok data →
  let '(data', mid) := partitionEqual_func less data a b pivot in
  let p := data !!! pivot in
  moved a b data data' ∧ a < mid ∧ mid ≤ b ∧
  allIn a mid data' (λ x, less p x = false) ∧
  allIn mid b data' (λ x, less p x = true).
Proof.
  intros Hap Hpb Hb Hok.
  pose proof (partitionEqual_core data a b pivot Hap Hpb Hb) as Hcore.
  destruct (partitionEqual_func less data a b pivot) as [data' mid].
  destruct Hcore as (Hmoved & Hmid1 & Hmid2 & Hpa & Hleft & Hright).
  split_and!; try done.
  intros k Hk1 Hk2. destruct (decide (k = a)) as [->|].
  - rewrite Hpa. apply less_irrefl. ok_elem.
  - apply Hleft; lia.
Qed.

(** *** Reversal, pattern breaking and the choice of the pivot *)

Lemma reverseRange_moved (data : list A) (a b : nat) :
  b ≤ length data → moved a b data (reverseRange_func data a b).
Proof.
  intros Hb. unfold reverseRange_func.
  assert (Hloop : ∀ rounds (d : list A) i j,
            a ≤ i → j < b → length d = length data →
            moved a b d (reverseLoop rounds d i j)).
  { induction rounds as [|rounds IH]; intros d i j Hi Hj Hlen; simpl; [apply moved_refl|].
    destruct (i <? j) eqn:Hij; [|apply moved_refl].
    apply Nat.ltb_lt in Hij.
    apply (moved_trans _ _ _ (Swap d i j)); [apply Swap_moved; lia|].
    apply IH; [lia | lia | by rewrite Swap_length]. }
  destruct (decide (a < b)).
  - apply Hloop; [lia | lia | done].
  - replace (b - a) with 0 by lia. apply moved_refl.
Qed.

Lemma nextPowerOfTwo_bound (n : nat) :
  0 < n → (0 < nextPowerOfTwo n ∧ nextPowerOfTwo n <= 2 * Z.of_nat n)%Z.
Proof.
  intros Hn. unfold nextPowerOfTwo, bitsLen.
  destruct (n =? 0) eqn:H0; [apply Nat.eqb_eq in H0; lia|].
  pose proof (Nat.log2_spec n Hn) as [Hlow _].
  rewrite Nat2Z.inj_succ, Z.pow_succ_r by lia.
  assert ((2 ^ Z.of_nat (Nat.log2 n))%Z = Z.of_nat (2 ^ Nat.log2 n)) as ->.
  { by rewrite Nat2Z.inj_pow. }
  assert (2 ^ Nat.log2 n ≠ 0) by (apply Nat.pow_nonzero; lia).
  lia.
Qed.

Lemma breakPatterns_moved (data : list A) (a b : nat) :
  a ≤ b → b ≤ length data → moved a b data (breakPatterns_func data a b).
Proof.
  intros Hab Hb. unfold breakPatterns_func.
  destruct (8 <=? b - a) eqn:Hlong; [|apply moved_refl].
  apply Nat.leb_le in Hlong.
  pose proof (nextPowerOfTwo_bound (b - a) ltac:(lia)) as [Hpos Hpow].
  pose proof (Nat.div_mod (b - a) 4 ltac:(lia)) as Hdiv.
  pose proof (Nat.mod_upper_bound (b - a) 4 ltac:(lia)) as Hmod.
  set (quarter := (b - a) / 4) in *.
  generalize (Z.of_nat (b - a)) as random.
  assert (Hloop : ∀ rounds i (d : list A) random,
            i + rounds = 3 → length d = length data →
            moved a b d (breakPatternsLoop rounds i d random (nextPowerOfTwo (b - a))
                           a (b - a) (a + quarter * 2 - 1))).
  { induction rounds as [|rounds IH]; intros i d random Hi Hlen; simpl; [apply moved_refl|].
    set (masked := Z.land (xorshiftNext random) (nextPowerOfTwo (b - a) - 1)).
    assert (Hmasked : (0 <= masked < nextPowerOfTwo (b - a))%Z).
    { subst masked. unfold nextPowerOfTwo in *.
      replace (2 ^ Z.of_nat (bitsLen (b - a)) - 1)%Z
        with (Z.ones (Z.of_nat (bitsLen (b - a)))) by (rewrite Z.ones_equiv; lia).
      rewrite Z.land_ones by lia. apply Z.mod_pos_bound. lia. }
    set (other := if b - a <=? Z.to_nat masked then Z.to_nat masked - (b - a)
                  else Z.to_nat masked).
    assert (Hother : other < b - a).
    { subst other. destruct (b - a <=? Z.to_nat masked) eqn:Hle.
      - apply Nat.leb_le in Hle. lia.
      - apply Nat.leb_gt in Hle. lia. }
    apply (moved_trans _ _ _ (Swap d (a + quarter * 2 - 1 + i) (a + other)));
      [apply Swap_moved; lia|].
    apply IH; [lia | by rewrite Swap_length]. }
  intros random. by apply Hloop.
Qed.

Lemma median_func_choice (data : list A) (x y z swaps : nat) :
  (median_func less data x y z swaps).1 = x ∨
  (median_func less data x y z swaps).1 = y ∨
  (median_func less data x y z swaps).1 = z.
Proof.
  unfold median_func, order2_func.
  repeat (destruct (Less _ _ _ _); simpl); auto.
Qed.

Lemma choosePivot_range (data : list A) (a b : nat) :
  8 ≤ b - a →
  a ≤ (choosePivot_func less data a b).1 ∧ (choosePivot_func less data a b).1 < b.
Proof.
  intros Hlong. unfold choosePivot_func. cbv zeta.
  pose proof (Nat.div_mod (b - a) 4 ltac:(lia)) as Hdiv.
  pose proof (Nat.mod_upper_bound (b - a) 4 ltac:(lia)) as Hmod.
  set (quarter := (b - a) / 4) in *.
  destruct (8 <=? b - a) eqn:H8; [|apply Nat.leb_gt in H8; lia].
  destruct (50 <=? b - a) eqn:H50.
  - apply Nat.leb_le in H50.
    unfold medianAdjacent_func.
    pose proof (median_func_choice data (a + quarter * 1 - 1) (a + quarter * 1)
                  (a + quarter * 1 + 1) 0) as Hi.
    destruct (median_func less data (a + quarter * 1 - 1) _ _ 0) as [i s1].
    pose proof (median_func_choice data (a + quarter * 2 - 1) (a + quarter * 2)
                  (a + quarter * 2 + 1) s1) as Hj.
    destruct (median_func less data (a + quarter * 2 - 1) _ _ s1) as [j s2].
    pose proof (median_func_choice data (a + quarter * 3 - 1) (a + quarter * 3)
                  (a + quarter * 3 + 1) s2) as Hk.
    destruct (median_func less data (a + quarter * 3 - 1) _ _ s2) as [k s3].
    pose proof (median_func_choice data i j k s3) as Hm.
    destruct (median_func less data i j k s3) as [m s4]. simpl in *.
    assert (a ≤ m ∧ m < b) by lia.
    destruct (s4 =? 0); [|destruct (s4 =? 12)]; simpl; lia.
  - pose proof (median_func_choice data (a + quarter * 1) (a + quarter * 2)
                  (a + quarter * 3) 0) as Hm.
    destruct (median_func less data _ _ _ 0) as [m s4]. simpl in *.
    assert (a ≤ m ∧ m < b) by lia.
    destruct (s4 =? 0); [|destruct (s4 =? 12)]; simpl; lia.
Qed.

(** *** Partial insertion sort *)

Lemma sortedOn_kept (lo hi : nat) (data data' : list A) (a b : nat) :
  moved lo hi data data' → b ≤ lo ∨ hi ≤ a →
  sortedOn less data a b → sortedOn less data' a b.
Proof.
  intros Hmoved Hb Hsorted i j Hi Hij Hj.
  rewrite !(moved_lookup lo hi data data') by (done || lia). by apply Hsorted.
Qed.

Lemma skipOrdered_spec (data : list A) (a b : nat) :
  b ≤ length data → Forall ok data →
  ∀ rounds i, a < i → i ≤ b → b - i ≤ rounds → sortedOn less data a i →
    let i' := skipOrdered less rounds data i b in
    i ≤ i' ∧ i' ≤ b ∧ sortedOn less data a i' ∧
    (i' < b → less (data !!! i') (data !!! (i' - 1)) = true).
Proof.
  intros Hb Hok. induction rounds as [|rounds IH]; intros i Hai Hib Hrounds Hsorted; simpl.
  - split_and!; (lia || done).
  - destruct (i <? b) eqn:Hlt; simpl.
    2: { apply Nat.ltb_ge in Hlt. split_and!; (lia || done). }
    apply Nat.ltb_lt in Hlt. rewrite Less_lookup by lia.
    destruct (less (data !!! i) (data !!! (i - 1))) eqn:Hless; simpl.
    { split_and!; (lia || done). }
    destruct (IH (S i)) as (H1 & H2 & H3 & H4); try lia; [|split_and!; (lia || done)].
    intros k j Hk Hkj Hj.
    destruct (decide (j < i)); [by apply Hsorted|].
    assert (j = i) as -> by lia.
    destruct (decide (k = i)) as [->|]; [apply less_irrefl; ok_elem|].
    destruct (decide (k = i - 1)) as [->|]; [done|].
    apply (notless_trans _ (data !!! (i - 1))); try ok_elem; [|done].
    apply Hsorted; lia.
Qed.

(** Below [a] sits an element that the travelling one is not less than,
    so that the shift stops at [a] like the bounded loop. *)
Lemma shiftLeft_insertDown (a : nat) :
  ∀ j (data : list A),
    a ≤ j → j < length data →
    (0 < a → less (data !!! j) (data !!! (a - 1)) = false) →
    shiftLeft less data j = insertDown less data a j.
Proof.
  induction j as [|j IH]; intros data Haj Hj Hlow; simpl; [done|].
  rewrite Less_lookup by lia.
  destruct (a <? S j) eqn:Ha; simpl.
  - apply Nat.ltb_lt in Ha.
    destruct (less (data !!! S j) (data !!! j)) eqn:Hless; simpl; [|done].
    apply IH; [lia | by rewrite Swap_length; lia |].
    intros Hpos. read_swap. by apply Hlow.
  - apply Nat.ltb_ge in Ha. assert (a = S j) as -> by lia.
    replace (S j - 1) with j in Hlow by lia. by rewrite Hlow by lia.
Qed.

Lemma shiftRight_moved (lo b : nat) :
  ∀ rounds (data : list A) j,
    lo < j → j + rounds ≤ b → b ≤ length data →
    moved lo b data (shiftRight less rounds data j).
Proof.
  induction rounds as [|rounds IH]; intros data j Hj Hb Hlen; simpl; [apply moved_refl|].
  destruct (negb _); [apply moved_refl|].
  apply (moved_trans _ _ _ (Swap data j (j - 1))); [apply Swap_moved; lia|].
  apply IH; [lia | lia | by rewrite Swap_length].
Qed.

Lemma partialInsertionLoop_spec (a b : nat) :
  ∀ steps (data : list A) i,
    a < i → i ≤ b → b ≤ length data → Forall ok data →
    lowerBound less data a b → sortedOn less data a i →
    let '(data', sorted) := partialInsertionLoop less steps data a b i in
    moved a b data data' ∧ (sorted = true → sortedOn less data' a b).
Proof.
  induction steps as [|steps IH]; intros data i Hai Hib Hb Hok Hlow Hsorted.
  { simpl. split; [apply moved_refl | done]. }
  cbn -[Nat.leb Nat.ltb Nat.eqb Nat.sub].
  destruct (skipOrdered_spec data a b Hb Hok (b - i) i) as (Hi1 & Hi2 & Hs1 & Hless);
    try (lia || done).
  set (i1 := skipOrdered less (b - i) data i b) in *.
  destruct (i1 =? b) eqn:Hend.
  { apply Nat.eqb_eq in Hend. rewrite Hend in Hs1. split; [apply moved_refl | done]. }
  apply Nat.eqb_neq in Hend.
  destruct (b - a <? 50); [split; [apply moved_refl | done]|].
  specialize (Hless ltac:(lia)).
  set (data1 := Swap data i1 (i1 - 1)).
  assert (Hm1 : moved a b data data1) by (apply Swap_moved; lia).
  assert (Hlen1 : length data1 = length data) by apply Swap_length.
  set (data2 := if 2 <=? i1 - a then shiftLeft less data1 (i1 - 1) else data1).
  assert (H2 : moved a i1 data1 data2 ∧ sortedOn less data2 a i1).
  { subst data2. destruct (2 <=? i1 - a) eqn:Hfar.
    - apply Nat.leb_le in Hfar.
      rewrite (shiftLeft_insertDown a) by
        (try lia; intros Hpos; subst data1; read_swap; apply Hlow; lia).
      pose proof (insertDown_spec a (i1 - 1) data1 (i1 - 1)) as Hins.
      replace (i1 - 1 + 1) with i1 in Hins by lia.
      apply Hins;
        try first [ lia | by eapply moved_ok
                  | intros k j ? ? ?; subst data1; read_swap; apply Hs1; lia
                  | intros; lia ].
    - apply Nat.leb_gt in Hfar. split; [apply moved_refl|].
      apply sortedOn_short; [by eapply moved_ok | lia | lia]. }
  destruct H2 as [Hm2 Hs2].
  assert (Hlen2 : length data2 = length data1) by (by eapply moved_length).
  set (data3 := if 2 <=? b - i1 then shiftRight less (b - (i1 + 1)) data2 (i1 + 1)
                else data2).
  assert (Hm3 : moved i1 b data2 data3).
  { subst data3. destruct (2 <=? b - i1); [|apply moved_refl].
    apply shiftRight_moved; lia. }
  assert (Hm : moved a b data data3).
  { apply (moved_trans _ _ _ data1); [done|].
    apply (moved_trans _ _ _ data2).
    - eapply moved_wider; [| |exact Hm2]; lia.
    - eapply moved_wider; [| |exact Hm3]; lia. }
  specialize (IH data3 i1).
  destruct (partialInsertionLoop less steps data3 a b i1) as [data' sorted].
  destruct IH as [Hm4 Hs4]; try lia.
  - rewrite (moved_length _ _ _ _ Hm). lia.
  - by eapply moved_ok.
  - eapply moved_lowerBound; eauto. lia.
  - eapply sortedOn_kept; [exact Hm3 | lia | done].
  - split; [by eapply moved_trans | done].
Qed.

Lemma partialInsertionSort_spec (data : list A) (a b : nat) :
  a < b → b ≤ length data → Forall ok data → lowerBound less data a b →
  let '(data', sorted) := partialInsertionSort_func less data a b in
  moved a b data data' ∧ (sorted = true → sortedOn less data' a b).
Proof.
  intros Hab Hb Hok Hlow. unfold partialInsertionSort_func.
  apply partialInsertionLoop_spec; try (lia || done).
  apply sortedOn_short; [done | lia | lia].
Qed.

(** *** Heap sort *)

(** The heap order holds everywhere from [lo] on but at [root], whose
    children are not above its parent; sifting the root down mends it. *)
Lemma siftDownLoop_spec (first lo hi : nat) :
  ∀ rounds (data : list A) root,
    first + hi ≤ length data → Forall ok data → lo ≤ root → hi - root ≤ rounds →
    (∀ p c, lo ≤ p → p ≠ root → (c = 2 * p + 1 ∨ c = 2 * p + 2) → c < hi →
            less (data !!! (first + p)) (data !!! (first + c)) = false) →
    (∀ pp c, lo ≤ pp → (root = 2 * pp + 1 ∨ root = 2 * pp + 2) →
             (c = 2 * root + 1 ∨ c = 2 * root + 2) → c < hi →
             less (data !!! (first + pp)) (data !!! (first + c)) = false) →
    moved (first + root) (first + hi) data (siftDownLoop less rounds data root hi first) ∧
    heapFrom less (siftDownLoop less rounds data root hi first) first lo hi.
Proof.
  induction rounds as [|rounds IH]; intros data root Hlen Hok Hlo Hrounds Hheap Hgrand.
  { simpl. split; [apply moved_refl|]. intros p c Hp Hc Hchi. apply Hheap; try done. lia. }
  cbn -[Nat.leb Nat.ltb Nat.mul].
  destruct (hi <=? 2 * root + 1) eqn:Hleaf.
  { apply Nat.leb_le in Hleaf. split; [apply moved_refl|].
    intros p c Hp Hc Hchi. apply Hheap; try done. lia. }
  apply Nat.leb_gt in Hleaf.
  set (lc := 2 * root + 1) in *.
  assert (Hlc : lc = 2 * root + 1) by done. clearbody lc.
  set (child := if (lc + 1 <? hi) && Less less data (first + lc) (first + lc + 1)
                then lc + 1 else lc).
  assert (Hchild : (child = lc ∨ child = lc + 1) ∧ child < hi ∧
            ∀ c, (c = 2 * root + 1 ∨ c = 2 * root + 2) → c < hi →
                 less (data !!! (first + child)) (data !!! (first + c)) = false).
  { subst child. destruct (lc + 1 <? hi) eqn:Hright; cbn [andb].
    - apply Nat.ltb_lt in Hright. rewrite Less_lookup by lia.
      destruct (less (data !!! (first + lc)) (data !!! (first + lc + 1))) eqn:Hless.
      + split_and!; [auto | lia |]. intros c Hc Hc2.
        replace (first + (lc + 1)) with (first + lc + 1) by lia.
        assert (first + c = first + lc ∨ first + c = first + lc + 1) as [-> | ->] by lia.
        * apply less_asym; [ok_elem | ok_elem | done].
        * apply less_irrefl. ok_elem.
      + split_and!; [auto | lia |]. intros c Hc Hc2.
        assert (first + c = first + lc ∨ first + c = first + lc + 1) as [-> | ->] by lia.
        * apply less_irrefl. ok_elem.
        * done.
    - apply Nat.ltb_ge in Hright. split_and!; [auto | lia |].
      intros c Hc Hc2. assert (c = lc) as -> by lia. apply less_irrefl. ok_elem. }
  destruct Hchild as (Hwhich & Hchi & Hmax).
  rewrite Less_lookup by lia.
  destruct (less (data !!! (first + root)) (data !!! (first + child))) eqn:Hless;
    cbn [negb].
  2: { split; [apply moved_refl|]. intros p c Hp Hc Hc2.
       destruct (decide (p = root)) as [->|]; [|by apply Hheap].
       apply (notless_trans _ (data !!! (first + child))); try ok_elem; [|done].
       by apply Hmax. }
  assert (Hswap : moved (first + root) (first + hi) data
                    (Swap data (first + root) (first + child)))
    by (apply Swap_moved; lia).
  destruct (IH (Swap data (first + root) (first + child)) child) as [Hmoved Hresult];
    try lia.
  - rewrite Swap_length. lia.
  - by eapply moved_ok.
  - intros p c Hp Hpc Hc Hc2. read_swap.
    + apply less_asym; [ok_elem | ok_elem | done].
    + apply Hmax; lia.
    + apply (Hgrand p child); lia.
    + apply Hheap; (lia || done).
  - intros pp c Hpp Hroot Hc Hc2. assert (pp = root) as -> by lia.
    read_swap. apply Hheap; lia.
  - split; [|done]. apply (moved_trans _ _ _ (Swap data (first + root) (first + child)));
      [done|]. eapply moved_wider; [| |exact Hmoved]; lia.
Qed.

Lemma siftDown_spec (first lo hi : nat) (data : list A) :
  first + hi ≤ length data → Forall ok data →
  heapFrom less data first (lo + 1) hi →
  moved (first + lo) (first + hi) data (siftDown_func less data lo hi first) ∧
  heapFrom less (siftDown_func less data lo hi first) first lo hi.
Proof.
  intros Hlen Hok Hheap. unfold siftDown_func.
  apply siftDownLoop_spec;
    try first [ lia | done
              | intros p c Hp Hne Hc Hc2; apply Hheap; (lia || done)
              | intros; lia ].
Qed.

(** The root of a heap is less than none of its nodes. *)
Lemma heap_root_greatest (data : list A) (first hi : nat) :
  first + hi ≤ length data → Forall ok data → heapFrom less data first 0 hi →
  ∀ k, k < hi → less (data !!! first) (data !!! (first + k)) = false.
Proof.
  intros Hlen Hok Hheap k. induction (lt_wf k) as [k _ IH]. intros Hk.
  destruct (decide (k = 0)) as [->|Hpos].
  { rewrite Nat.add_0_r. apply less_irrefl. ok_elem. }
  pose proof (Nat.div_mod (k - 1) 2 ltac:(lia)) as Hdiv.
  pose proof (Nat.mod_upper_bound (k - 1) 2 ltac:(lia)) as Hmod.
  set (p := (k - 1) / 2) in *.
  apply (notless_trans _ (data !!! (first + p))); try ok_elem.
  - apply Hheap; lia.
  - apply IH; lia.
Qed.

Lemma rev_seq_S (n : nat) : rev (seq 0 (S n)) = n :: rev (seq 0 n).
Proof. by rewrite seq_S, rev_app_distr. Qed.

Lemma heapSort_spec (data : list A) (a b : nat) :
  a ≤ b → b ≤ length data → Forall ok data →
  moved a b data (heapSort_func less data a b) ∧
  sortedOn less (heapSort_func less data a b) a b.
Proof.
  intros Hab Hb Hok. unfold heapSort_func. cbv zeta.
  set (hi := b - a).
  assert (Hhi : hi = b - a) by done. clearbody hi.
  assert (Hbuild : ∀ n (d : list A),
            moved a b data d → heapFrom less d a (n + 1) hi →
            let d' := foldl (λ d i, siftDown_func less d i hi a) d (rev (seq 0 (n + 1))) in
            moved a b data d' ∧ heapFrom less d' a 0 hi).
  { induction n as [|n IH]; intros d Hmoved Hheap.
    - simpl. pose proof (moved_length _ _ _ _ Hmoved) as Hlen.
      destruct (siftDown_spec a 0 hi d) as [Hm Hh];
        [lia | by eapply moved_ok | done |].
      split; [|done]. apply (moved_trans _ _ _ d); [done|].
      eapply moved_wider; [| |exact Hm]; lia.
    - replace (S n + 1) with (S (S n)) in * by lia. rewrite rev_seq_S. cbn [foldl].
      pose proof (moved_length _ _ _ _ Hmoved) as Hlen.
      destruct (siftDown_spec a (S n) hi d) as [Hm Hh];
        [lia | by eapply moved_ok | by replace (S n + 1) with (S (S n)) by lia |].
      replace (S n) with (n + 1) in * by lia.
      apply IH; [|done]. apply (moved_trans _ _ _ d); [done|].
      eapply moved_wider; [| |exact Hm]; lia. }
  specialize (Hbuild ((hi - 1) / 2) data (moved_refl _ _ _)).
  destruct Hbuild as [Hm1 Hheap1].
  { intros p c Hp Hc Hc2.
    pose proof (Nat.div_mod (hi - 1) 2 ltac:(lia)) as Hdiv.
    pose proof (Nat.mod_upper_bound (hi - 1) 2 ltac:(lia)) as Hmod. lia. }
  set (data1 := foldl _ data (rev (seq 0 ((hi - 1) / 2 + 1)))) in *.
  assert (Hpop : ∀ m (d : list A),
            m ≤ hi → moved a b data d → heapFrom less d a 0 m →
            sortedOn less d (a + m) b →
            (∀ k k', k < m → m ≤ k' → k' < hi →
                     less (d !!! (a + k')) (d !!! (a + k)) = false) →
            let d' := foldl (λ d i, siftDown_func less (Swap d a (a + i)) 0 i a) d
                        (rev (seq 0 m)) in
            moved a b data d' ∧ sortedOn less d' a b).
  { induction m as [|m IH]; intros d Hm Hmoved Hheap Hsorted Hcross.
    - simpl. split; [done|]. by rewrite Nat.add_0_r in Hsorted.
    - rewrite rev_seq_S. cbn [foldl].
      pose proof (moved_length _ _ _ _ Hmoved) as Hlen.
      assert (Hokd : Forall ok d) by (by eapply moved_ok).
      pose proof (heap_root_greatest d a (S m) ltac:(lia) Hokd Hheap) as Hroot.
      set (d1 := Swap d a (a + m)).
      assert (Hm1' : moved a b d d1) by (apply Swap_moved; lia).
      assert (Hlen1 : length d1 = length d) by apply Swap_length.
      destruct (siftDown_spec a 0 m d1) as [Hm2 Hh2]; [lia | by eapply moved_ok | |].
      { intros p c Hp Hc Hc2. subst d1. read_swap. apply Hheap; lia. }
      set (d2 := siftDown_func less d1 0 m a) in *.
      rewrite Nat.add_0_r in Hm2.
      assert (Hlen2 : length d2 = length d1) by (by eapply moved_length).
      assert (Hkeep : ∀ k, a + m ≤ k → d2 !!! k = d1 !!! k).
      { intros k Hk. apply (moved_lookup a (a + m)); [done | lia]. }
      assert (Hbelow : ∀ y, (∀ k, k < S m → less y (d !!! (a + k)) = false) →
                ∀ k, k < m → less y (d2 !!! (a + k)) = false).
      { intros y Hy k Hk.
        apply (moved_allIn a (a + m) d1 d2 (λ x, less y x = false)); try lia; [done|].
        intros j Hj1 Hj2. subst d1. read_swap.
        - replace (a + m) with (a + m) by lia. apply Hy. lia.
        - replace j with (a + (j - a)) by lia. apply Hy. lia. }
      apply IH; try lia.
      + apply (moved_trans _ _ _ d); [done|]. apply (moved_trans _ _ _ d1); [done|].
        eapply moved_wider; [| |exact Hm2]; lia.
      + done.
      + intros i j Hi Hij Hj. rewrite !Hkeep by lia. subst d1.
        read_swap;
          first [ apply less_irrefl; ok_elem
                | apply Hsorted; lia
                | match goal with
                  | |- less (d !!! ?x) (d !!! ?y) = false =>
                      replace (d !!! x) with (d !!! (a + (x - a))) by (f_equal; lia);
                      replace (d !!! y) with (d !!! (a + (y - a))) by (f_equal; lia);
                      apply Hcross; lia
                  end ].
      + intros k k' Hk Hk' Hk2. rewrite (Hkeep (a + k')) by lia.
        apply Hbelow; [|done]. subst d1. read_swap.
        * intros j Hj. by apply Hroot.
        * intros j Hj. apply Hcross; lia. }
  pose proof (moved_length _ _ _ _ Hm1) as Hlen1.
  apply Hpop; try done; [intros i j ? ? ?; lia | intros k k' ? ? ?; lia].
Qed.

(** *** The quicksort rounds *)

Lemma sortedOn_around_pivot (data : list A) (a mid b : nat) (p : A) :
  a ≤ mid → mid < b → b ≤ length data → Forall ok data →
  data !!! mid = p →
  sortedOn less data a mid → sortedOn less data (mid + 1) b →
  allIn a mid data (λ x, less x p = true) →
  allIn (mid + 1) b data (λ x, less x p = false) →
  sortedOn less data a b.
Proof.
  intros Ham Hmb Hb Hok Hp Hleft Hright Hless Hnotless i j Hi Hij Hj.
  assert (Hokp : ok p) by (rewrite <- Hp; ok_elem).
  destruct (decide (j < mid)); [by apply Hleft|].
  destruct (decide (mid < i)); [apply Hright; lia|].
  destruct (decide (i = mid)) as [->|].
  { destruct (decide (j = mid)) as [->|]; [apply less_irrefl; ok_elem|].
    rewrite Hp. apply Hnotless; lia. }
  pose proof (Hless i ltac:(lia) ltac:(lia)) as Hi_less.
  destruct (decide (j = mid)) as [->|].
  { rewrite Hp. apply less_asym; [ok_elem | done | done]. }
  pose proof (Hnotless j ltac:(lia) ltac:(lia)) as Hj_notless. simpl in *.
  destruct (less (data !!! j) (data !!! i)) eqn:Hji; [|done].
  rewrite (less_trans (data !!! j) (data !!! i) p) in Hj_notless; try done; ok_elem.
Qed.

Lemma sortedOn_after_equal (data : list A) (a mid b : nat) (p : A) :
  a ≤ mid → mid ≤ b → b ≤ length data → Forall ok data → ok p →
  allIn a mid data (λ x, less p x = false) →
  allIn a mid data (λ x, less x p = false) →
  allIn mid b data (λ x, less p x = true) →
  sortedOn less data mid b →
  sortedOn less data a b.
Proof.
  intros Ham Hmb Hb Hok Hokp Hnotabove Hnotbelow Habove Hright i j Hi Hij Hj.
  destruct (decide (mid ≤ i)); [apply Hright; lia|].
  pose proof (Hnotabove i ltac:(lia) ltac:(lia)) as Hpi. simpl in Hpi.
  destruct (less (data !!! j) (data !!! i)) eqn:Hji; [|done].
  destruct (decide (j < mid)).
  - pose proof (Hnotbelow j ltac:(lia) ltac:(lia)) as Hjp. simpl in Hjp.
    destruct (less_cotrans (data !!! j) p (data !!! i)); try done; try ok_elem; congruence.
  - pose proof (Habove j ltac:(lia) ltac:(lia)) as Hpj. simpl in Hpj.
    rewrite (less_trans p (data !!! j) (data !!! i)) in Hpi; try done; ok_elem.
Qed.

Lemma lowerBound_narrower (data : list A) (a b b' : nat) :
  b' ≤ b → lowerBound less data a b → lowerBound less data a b'.
Proof. intros Hb Hlow Ha k Hk1 Hk2. apply Hlow; lia. Qed.

Lemma allIn_kept (lo hi : nat) (data data' : list A) (a b : nat) (P : A → Prop) :
  moved lo hi data data' → b ≤ lo ∨ hi ≤ a → allIn a b data P → allIn a b data' P.
Proof.
  intros Hmoved Hout Hall k Hk1 Hk2.
  rewrite (moved_lookup lo hi data data') by (done || lia). by apply Hall.
Qed.

(** One round of [pdqsort_func]. *)
Lemma pdqsort_func_round (fuel : nat) (data : list A) (a b limit : nat)
    (wasBalanced wasPartitioned : bool) :
  pdqsort_func less (S fuel) data a b limit wasBalanced wasPartitioned
  = if b - a <=? 12 then Some (insertionSort_func less data a b)
    else if limit =? 0 then Some (heapSort_func less data a b)
    else
      let '(data, limit) :=
        if negb wasBalanced then (breakPatterns_func data a b, limit - 1)
        else (data, limit) in
      let '(pivot, hint) := choosePivot_func less data a b in
      let '(data, pivot, hint) :=
        if isDecreasing hint
        then (reverseRange_func data a b, (b - 1) - (pivot - a), increasingHint)
        else (data, pivot, hint) in
      let '(data, sorted) :=
        if wasBalanced && wasPartitioned && isIncreasing hint
        then partialInsertionSort_func less data a b
        else (data, false) in
      if sorted then Some data
      else if (0 <? a) && negb (Less less data (a - 1) pivot) then
        let '(data, mid) := partitionEqual_func less data a b pivot in
        pdqsort_func less fuel data mid b limit wasBalanced wasPartitioned
      else
        let '(data, mid, alreadyPartitioned) := partition_func less data a b pivot in
        if mid - a <? b - mid then
          data ← pdqsort_func less fuel data a mid limit true true;
          pdqsort_func less fuel data (mid + 1) b limit
            ((b - a) / 8 <=? mid - a) alreadyPartitioned
        else
          data ← pdqsort_func less fuel data (mid + 1) b limit true true;
          pdqsort_func less fuel data a mid limit
            ((b - a) / 8 <=? b - mid) alreadyPartitioned.
Proof. reflexivity. Qed.

(** [pdqsort_func] does not run out of fuel: every round shortens the
    range. *)
Lemma pdqsort_total (fuel : nat) :
  ∀ (data : list A) (a b limit : nat) (wasBalanced wasPartitioned : bool),
    a ≤ b → b ≤ length data → b - a < fuel →
    is_Some (pdqsort_func less fuel data a b limit wasBalanced wasPartitioned).
Proof.
  induction fuel as [|fuel IH];
    intros data a b limit wasBalanced wasPartitioned Hab Hb Hfuel; [lia|].
  rewrite pdqsort_func_round.
  destruct (b - a <=? 12) eqn:Hshort; [done|].
  apply Nat.leb_gt in Hshort.
  destruct (limit =? 0); [done|].
  set (broken := if negb wasBalanced then (breakPatterns_func data a b, limit - 1)
                 else (data, limit)).
  assert (Hbroken : length broken.1 = length data).
  { subst broken. destruct wasBalanced; simpl; [done|].
    by rewrite breakPatterns_Permutation. }
  destruct broken as [data1 limit1]. simpl in Hbroken.
  pose proof (choosePivot_range data1 a b ltac:(lia)) as Hpivot.
  destruct (choosePivot_func less data1 a b) as [pivot hint]. simpl in Hpivot.
  set (reversed := if isDecreasing hint
                   then (reverseRange_func data1 a b, b - 1 - (pivot - a), increasingHint)
                   else (data1, pivot, hint)).
  assert (Hreversed : length reversed.1.1 = length data ∧
                      a ≤ reversed.1.2 ∧ reversed.1.2 < b).
  { subst reversed. destruct (isDecreasing hint); simpl; [|lia].
    rewrite reverseRange_Permutation. lia. }
  destruct reversed as [[data2 pivot2] hint2]. simpl in Hreversed.
  set (partial := if wasBalanced && wasPartitioned && isIncreasing hint2
                  then partialInsertionSort_func less data2 a b else (data2, false)).
  assert (Hpartial : length partial.1 = length data).
  { subst partial. destruct (_ && _); simpl; [|lia].
    rewrite partialInsertionSort_Permutation. lia. }
  destruct partial as [data3 sorted]. simpl in Hpartial.
  destruct sorted; [done|].
  destruct (_ && _).
  - pose proof (partitionEqual_core data3 a b pivot2 ltac:(lia) ltac:(lia) ltac:(lia))
      as Hcore.
    destruct (partitionEqual_func less data3 a b pivot2) as [data4 mid].
    destruct Hcore as (Hmoved & Hmid1 & Hmid2 & _).
    apply IH; [lia | rewrite (moved_length _ _ _ _ Hmoved); lia | lia].
  - pose proof (partition_spec data3 a b pivot2 ltac:(lia) ltac:(lia) ltac:(lia)) as Hspec.
    destruct (partition_func less data3 a b pivot2) as [[data4 mid] already].
    destruct Hspec as (Hmoved & Hmid1 & Hmid2 & _).
    pose proof (moved_length _ _ _ _ Hmoved) as Hlen4.
    destruct (mid - a <? b - mid).
    + destruct (IH data4 a mid limit1 true true) as [data5 Hrun5]; try lia.
      rewrite Hrun5. cbn [mbind option_bind].
      apply pdqsort_Permutation, Permutation_length in Hrun5.
      apply IH; lia.
    + destruct (IH data4 (mid + 1) b limit1 true true) as [data5 Hrun5]; try lia.
      rewrite Hrun5. cbn [mbind option_bind].
      apply pdqsort_Permutation, Permutation_length in Hrun5.
      apply IH; lia.
Qed.

(** [pdqsort_func] returns, with enough fuel, and sorts its range. *)
Lemma pdqsort_spec (fuel : nat) :
  ∀ (data : list A) (a b limit : nat) (wasBalanced wasPartitioned : bool),
    a ≤ b → b ≤ length data → Forall ok data → lowerBound less data a b →
    b - a < fuel →
    ∃ data', pdqsort_func less fuel data a b limit wasBalanced wasPartitioned = Some data' ∧
             moved a b data data' ∧ sortedOn less data' a b.
Proof.
  induction fuel as [|fuel IH];
    intros data a b limit wasBalanced wasPartitioned Hab Hb Hok Hlow Hfuel; [lia|].
  rewrite pdqsort_func_round.
  destruct (b - a <=? 12) eqn:Hshort.
  { eexists. split; [done|]. by apply insertionSort_spec. }
  apply Nat.leb_gt in Hshort.
  destruct (limit =? 0).
  { eexists. split; [done|]. by apply heapSort_spec. }
  set (broken := if negb wasBalanced then (breakPatterns_func data a b, limit - 1)
                 else (data, limit)).
  assert (Hbroken : moved a b data broken.1).
  { subst broken. destruct wasBalanced; simpl;
      [apply moved_refl | by apply breakPatterns_moved]. }
  destruct broken as [data1 limit1]. simpl in Hbroken.
  pose proof (moved_length _ _ _ _ Hbroken) as Hlen1.
  pose proof (choosePivot_range data1 a b ltac:(lia)) as Hpivot.
  destruct (choosePivot_func less data1 a b) as [pivot hint]. simpl in Hpivot.
  set (reversed := if isDecreasing hint
                   then (reverseRange_func data1 a b, b - 1 - (pivot - a), increasingHint)
                   else (data1, pivot, hint)).
  assert (Hreversed : moved a b data1 reversed.1.1 ∧ a ≤ reversed.1.2 ∧ reversed.1.2 < b).
  { subst reversed. destruct (isDecreasing hint); simpl.
    - split; [apply reverseRange_moved; lia | lia].
    - split; [apply moved_refl | lia]. }
  destruct reversed as [[data2 pivot2] hint2]. simpl in Hreversed.
  destruct Hreversed as (Hm2 & Hp2a & Hp2b).
  assert (Hmoved2 : moved a b data data2) by (by eapply moved_trans).
  pose proof (moved_length _ _ _ _ Hmoved2) as Hlen2.
  set (partial := if wasBalanced && wasPartitioned && isIncreasing hint2
                  then partialInsertionSort_func less data2 a b else (data2, false)).
  assert (Hpartial : moved a b data2 partial.1 ∧
                     (partial.2 = true → sortedOn less partial.1 a b)).
  { subst partial. destruct (_ && _); [|split; [apply moved_refl | done]].
    pose proof (partialInsertionSort_spec data2 a b ltac:(lia) ltac:(lia)) as Hspec.
    destruct (partialInsertionSort_func less data2 a b) as [d sorted].
    apply Hspec; [by eapply moved_ok | by eapply moved_lowerBound]. }
  destruct partial as [data3 sorted]. simpl in Hpartial.
  destruct Hpartial as [Hm3 Hsorted3].
  assert (Hmoved3 : moved a b data data3) by (by eapply moved_trans).
  pose proof (moved_length _ _ _ _ Hmoved3) as Hlen3.
  assert (Hok3 : Forall ok data3) by (by eapply moved_ok).
  assert (Hlow3 : lowerBound less data3 a b) by (by eapply moved_lowerBound).
  destruct sorted.
  { exists data3. auto. }
  set (p := data3 !!! pivot2).
  assert (Hokp : ok p) by (subst p; ok_elem).
  destruct ((0 <? a) && negb (Less less data3 (a - 1) pivot2)) eqn:Hequal.
  - (* the pivot equals the element before the range *)
    apply andb_true_iff in Hequal as [Ha Hnotless].
    apply Nat.ltb_lt in Ha. apply negb_true_iff in Hnotless.
    rewrite Less_lookup in Hnotless by lia. fold p in Hnotless.
    assert (Hmin : allIn a b data3 (λ x, less x p = false)).
    { intros k Hk1 Hk2.
      apply (notless_trans _ (data3 !!! (a - 1))); try ok_elem; [done|].
      by apply Hlow3. }
    pose proof (partitionEqual_spec data3 a b pivot2 Hp2a Hp2b ltac:(lia) Hok3) as Hspec.
    destruct (partitionEqual_func less data3 a b pivot2) as [data4 mid].
    fold p in Hspec. destruct Hspec as (Hm4 & Hmid1 & Hmid2 & Hnotabove & Habove).
    pose proof (moved_length _ _ _ _ Hm4) as Hlen4.
    assert (Hok4 : Forall ok data4) by (by eapply moved_ok).
    assert (Hmin4 : allIn a b data4 (λ x, less x p = false)).
    { eapply moved_allIn; [exact Hm4 | lia | lia | done]. }
    destruct (IH data4 mid b limit1 wasBalanced wasPartitioned)
      as (data5 & Hrun & Hm5 & Hs5); try lia; [done | |].
    { intros _ k Hk1 Hk2.
      pose proof (Hnotabove (mid - 1) ltac:(lia) ltac:(lia)) as Hlast.
      pose proof (Habove k Hk1 Hk2) as Hk. simpl in *.
      destruct (less (data4 !!! k) (data4 !!! (mid - 1))) eqn:Hcontra; [|done].
      rewrite (less_trans p (data4 !!! k) (data4 !!! (mid - 1))) in Hlast;
        try done; ok_elem. }
    exists data5. split; [done|].
    pose proof (moved_length _ _ _ _ Hm5) as Hlen5.
    split.
    + apply (moved_trans _ _ _ data3); [done|]. apply (moved_trans _ _ _ data4); [done|].
      eapply moved_wider; [| |exact Hm5]; lia.
    + apply (sortedOn_after_equal data5 a mid b p); try (lia || done).
      * by eapply moved_ok.
      * eapply allIn_kept; [exact Hm5 | lia | done].
      * eapply allIn_kept; [exact Hm5 | lia |]. intros k ? ?. apply Hmin4; lia.
      * eapply moved_allIn; [exact Hm5 | lia | lia | done].
  - (* an ordinary partition, then the shorter side first *)
    clear Hequal.
    pose proof (partition_spec data3 a b pivot2 Hp2a Hp2b ltac:(lia)) as Hspec.
    destruct (partition_func less data3 a b pivot2) as [[data4 mid] already].
    fold p in Hspec. destruct Hspec as (Hm4 & Hmid1 & Hmid2 & Hpm & Hless & Hnotless).
    pose proof (moved_length _ _ _ _ Hm4) as Hlen4.
    assert (Hok4 : Forall ok data4) by (by eapply moved_ok).
    assert (Hlow4 : lowerBound less data4 a b) by (eapply moved_lowerBound; eauto; lia).
    assert (Hright4 : lowerBound less data4 (mid + 1) b).
    { intros _ k Hk1 Hk2. replace (mid + 1 - 1) with mid by lia. rewrite Hpm.
      by apply Hnotless. }
    assert (Hfinish : ∀ data6,
              moved a b data4 data6 → data6 !!! mid = p →
              sortedOn less data6 a mid → sortedOn less data6 (mid + 1) b →
              allIn a mid data6 (λ x, less x p = true) →
              allIn (mid + 1) b data6 (λ x, less x p = false) →
              moved a b data data6 ∧ sortedOn less data6 a b).
    { intros data6 Hm6 Hp6 Hs1 Hs2 Hl6 Hn6.
      pose proof (moved_length _ _ _ _ Hm6) as Hlen6.
      split.
      - apply (moved_trans _ _ _ data3); [done|]. by apply (moved_trans _ _ _ data4).
      - apply (sortedOn_around_pivot data6 a mid b p); try (lia || done).
        by eapply moved_ok. }
    destruct (mid - a <? b - mid).
    + destruct (IH data4 a mid limit1 true true)
        as (data5 & Hrun5 & Hm5 & Hs5); try (lia || done).
      { eapply lowerBound_narrower; [|exact Hlow4]. lia. }
      rewrite Hrun5. cbn [mbind option_bind].
      pose proof (moved_length _ _ _ _ Hm5) as Hlen5.
      destruct (IH data5 (mid + 1) b limit1 ((b - a) / 8 <=? mid - a) already)
        as (data6 & Hrun6 & Hm6 & Hs6); try lia.
      { by eapply moved_ok. }
      { intros Hpos k Hk1 Hk2.
        rewrite !(moved_lookup a mid data4 data5) by (done || lia). by apply Hright4. }
      exists data6. split; [exact Hrun6|].
      apply Hfinish.
      * apply (moved_trans _ _ _ data5);
          [ apply (moved_wider a b a mid); [lia | lia | exact Hm5]
          | apply (moved_wider a b (mid + 1) b); [lia | lia | exact Hm6] ].
      * rewrite (moved_lookup (mid + 1) b data5 data6) by (done || lia).
        by rewrite (moved_lookup a mid data4 data5) by (done || lia).
      * eapply sortedOn_kept; [exact Hm6 | lia | done].
      * done.
      * eapply allIn_kept; [exact Hm6 | lia |].
        eapply moved_allIn; [exact Hm5 | lia | lia | done].
      * eapply moved_allIn; [exact Hm6 | lia | lia |].
        eapply allIn_kept; [exact Hm5 | lia | done].
    + destruct (IH data4 (mid + 1) b limit1 true true)
        as (data5 & Hrun5 & Hm5 & Hs5); try (lia || done).
      rewrite Hrun5. cbn [mbind option_bind].
      pose proof (moved_length _ _ _ _ Hm5) as Hlen5.
      destruct (IH data5 a mid limit1 ((b - a) / 8 <=? b - mid) already)
        as (data6 & Hrun6 & Hm6 & Hs6); try lia.
      { by eapply moved_ok. }
      { intros Hpos k Hk1 Hk2.
        rewrite !(moved_lookup (mid + 1) b data4 data5) by (done || lia).
        apply Hlow4; lia. }
      exists data6. split; [exact Hrun6|].
      apply Hfinish.
      * apply (moved_trans _ _ _ data5);
          [ apply (moved_wider a b (mid + 1) b); [lia | lia | exact Hm5]
          | apply (moved_wider a b a mid); [lia | lia | exact Hm6] ].
      * rewrite (moved_lookup a mid data5 data6) by (done || lia).
        by rewrite (moved_lookup (mid + 1) b data4 data5) by (done || lia).
      * done.
      * eapply sortedOn_kept; [exact Hm6 | lia | done].
      * eapply moved_allIn; [exact Hm6 | lia | lia |].
        eapply allIn_kept; [exact Hm5 | lia | done].
      * eapply allIn_kept; [exact Hm6 | lia |].
        eapply moved_allIn; [exact Hm5 | lia | lia | done].
Qed.

(** *** Ties under insertion sort *)

Lemma Swap_cons (x : A) (data : list A) (i j : nat) :
  Swap (x :: data) (S i) (S j) = x :: Swap data i j.
Proof.
  unfold Swap. simpl.
  destruct (data !! i) as [y|]; [|done]. by destruct (data !! j) as [z|].
Qed.

(** Swapping two neighbours of which at most one passes the filter
    leaves the filtered list as it was. *)
Lemma Swap_adjacent_filter (f : A → bool) :
  ∀ (data : list A) j,
    S j < length data → f (data !!! j) && f (data !!! S j) = false →
    List.filter f (Swap data (S j) j) = List.filter f data.
Proof.
  induction data as [|x data IH]; intros j Hj Hf; [simpl in Hj; lia|].
  destruct j as [|j].
  - destruct data as [|y data]; [simpl in Hj; lia|].
    change (Swap (x :: y :: data) 1 0) with (y :: x :: data).
    change (f x && f y = false) in Hf. simpl.
    destruct (f x), (f y); simpl in *; congruence.
  - rewrite Swap_cons. simpl. rewrite IH; [done | simpl in Hj; lia | exact Hf].
Qed.

Lemma keepsTies_refl (data : list A) : keepsTies less ok data data.
Proof. by intros z Hz. Qed.

Lemma keepsTies_trans (data1 data2 data3 : list A) :
  keepsTies less ok data1 data2 → keepsTies less ok data2 data3 →
  keepsTies less ok data1 data3.
Proof. intros H12 H23 z Hz. by rewrite H23, H12. Qed.

Lemma insertDown_keepsTies (a : nat) :
  ∀ j (data : list A),
    j < length data → Forall ok data → keepsTies less ok data (insertDown less data a j).
Proof.
  induction j as [|j IH]; intros data Hj Hok; simpl; [apply keepsTies_refl|].
  destruct (a <? S j); simpl; [|apply keepsTies_refl].
  rewrite Less_lookup by lia.
  destruct (less (data !!! S j) (data !!! j)) eqn:Hless; [|apply keepsTies_refl].
  apply (keepsTies_trans _ (Swap data (S j) j)).
  - intros z Hz. apply Swap_adjacent_filter; [done|].
    unfold tied. apply andb_false_iff.
    destruct (less_cotrans (data !!! S j) z (data !!! j)) as [Hyz | Hzx];
      try done; try ok_elem.
    + right. rewrite Hyz. by rewrite andb_false_r.
    + left. by rewrite Hzx.
  - apply IH; [rewrite Swap_length; lia|]. by rewrite Swap_Permutation.
Qed.

Lemma insertionSort_keepsTies (data : list A) (a b : nat) :
  b ≤ length data → Forall ok data →
  keepsTies less ok data (insertionSort_func less data a b).
Proof.
  intros Hb Hok. unfold insertionSort_func.
  assert (Hloop : ∀ n (d : list A) i,
            i + n ≤ length d → Forall ok d →
            keepsTies less ok d (foldl (λ d i, insertDown less d a i) d (seq i n))).
  { induction n as [|n IH]; intros d i Hi Hokd; simpl; [apply keepsTies_refl|].
    apply (keepsTies_trans _ (insertDown less d a i)).
    - apply insertDown_keepsTies; [lia | done].
    - apply IH.
      + rewrite (Permutation_length (insertDown_Permutation less a i d)). lia.
      + by rewrite insertDown_Permutation. }
  destruct (decide (b ≤ a + 1)).
  - replace (b - (a + 1)) with 0 by lia. apply keepsTies_refl.
  - apply Hloop; [lia | done].
Qed.

(** *** [sort.Slice] *)

Theorem Slice_total (data : list A) :
  SliceFuel less (S (length data)) data = Some (Slice less data).
Proof.
  unfold Slice.
  destruct (pdqsort_total (S (length data)) data 0 (length data)
              (bitsLen (length data)) true true) as [data' Hrun]; try lia.
  unfold SliceFuel. by rewrite Hrun.
Qed.

Lemma Slice_short (data : list A) :
  length data ≤ 12 → Slice less data = insertionSort_func less data 0 (length data).
Proof.
  intros Hshort. unfold Slice, SliceFuel. rewrite pdqsort_func_round.
  rewrite Nat.sub_0_r. by rewrite (proj2 (Nat.leb_le _ _) Hshort).
Qed.

(** On elements among which [less] is a strict weak order, [sort.Slice]
    rearranges the slice into sorted order, and a slice of at most 12
    elements keeps every tie in place. *)
Theorem Slice_sorts (data : list A) :
  Forall ok data →
  Slice less data ≡ₚ data ∧
  sortedOn less (Slice less data) 0 (length data) ∧
  (length data ≤ 12 → keepsTies less ok data (Slice less data)).
Proof.
  intros Hok. split; [apply Slice_Permutation|]. split.
  - destruct (pdqsort_spec (S (length data)) data 0 (length data)
                (bitsLen (length data)) true true) as (data' & Hrun & _ & Hsorted);
      try (lia || done).
    { intros Hpos. lia. }
    pose proof (Slice_total data) as Htotal. unfold SliceFuel in Htotal.
    rewrite Hrun in Htotal. by injection Htotal as <-.
  - intros Hshort. rewrite Slice_short by done. by apply insertionSort_keepsTies.
Qed.

End Order.

End SortOrder.

(* ===================================================================== *)
(** ** The Ranker *)
(* ===================================================================== *)

Module RankerFacts.

Import GoFloat Services.

(** *** The order of [float64] *)

Lemma Qlt_bool_iff (p q : Q) : Qlt_bool p q = true ↔ (p < q)%Q.
Proof.
  unfold Qlt_bool. rewrite negb_true_iff. split.
  - intros Hle. apply Qnot_le_lt. intros Hqp.
    apply Qle_bool_iff in Hqp. congruence.
  - intros Hlt. destruct (Qle_bool q p) eqn:Hle; [|done].
    apply Qle_bool_iff in Hle. by apply Qlt_not_le in Hlt.
Qed.

Lemma gt_irrefl (x : float64) : gt x x = false.
Proof.
  destruct x as [|[]|q]; try done. simpl.
  destruct (Qlt_bool q q) eqn:Hlt; [|done].
  apply Qlt_bool_iff in Hlt. by apply Qlt_irrefl in Hlt.
Qed.

Lemma gt_trans (x y z : float64) : gt x y = true → gt y z = true → gt x z = true.
Proof.
  destruct x as [|[]|p], y as [|[]|q], z as [|[]|r]; simpl; try done.
  rewrite !Qlt_bool_iff. intros Hqp Hrq. by apply (Qlt_trans r q p).
Qed.

Lemma gt_cotrans (x y z : float64) :
  isNaN y = false → gt x z = true → gt x y = true ∨ gt y z = true.
Proof.
  destruct x as [|[]|p], y as [|[]|q], z as [|[]|r]; simpl; try done; auto.
  rewrite !Qlt_bool_iff. intros _ Hrp.
  destruct (Qlt_le_dec q p) as [Hqp | Hpq]; [by left|].
  right. by apply (Qlt_le_trans r p q).
Qed.

(** A rating above zero is a number. *)
Lemma gt_zero_not_NaN (x : float64) : gt x zero = true → isNaN x = false.
Proof. by destruct x. Qed.

Section Ranker.

Context (lib : GoLib).

Lemma ratingLess_irrefl (x : MovieBrief.t) : rated lib x → ratingLess lib x x = false.
Proof. intros _. apply gt_irrefl. Qed.

Lemma ratingLess_trans (x y z : MovieBrief.t) :
  rated lib x → rated lib y → rated lib z →
  ratingLess lib x y = true → ratingLess lib y z = true → ratingLess lib x z = true.
Proof. intros _ _ _. apply gt_trans. Qed.

Lemma ratingLess_cotrans (x y z : MovieBrief.t) :
  rated lib x → rated lib y → rated lib z →
  ratingLess lib x z = true → ratingLess lib x y = true ∨ ratingLess lib y z = true.
Proof. intros _ Hy _. by apply gt_cotrans. Qed.

Lemma ratedAboveZero_rated (b : MovieBrief.t) : ratedAboveZero lib b → rated lib b.
Proof. apply gt_zero_not_NaN. Qed.

(** C3 (as amended): for every input sequence of briefs whose ratings
    parse to numbers, as those of candidates do, [sort.Slice] returns (its
    rounds are bounded by the length), and the Ranker's output is a
    rearrangement of the input that is sorted non-increasing by parsed
    rating; briefs with equal parsed ratings keep their input order when
    the input has at most 12 entries. *)
Theorem ranker_sorts_non_increasing (movies : list MovieBrief.t) :
  Forall (rated lib) movies →
  let ranked := sortMoviesByRating lib movies in
  GoSort.SliceFuel (ratingLess lib) (S (length movies)) movies = Some ranked ∧
  ranked ≡ₚ movies ∧
  nonIncreasing lib ranked ∧
  (length movies ≤ 12 → keepsInputOrder lib movies ranked).
Proof.
  intros Hrated ranked.
  destruct (SortOrder.Slice_sorts (ratingLess lib) (rated lib)
              ratingLess_irrefl ratingLess_trans ratingLess_cotrans movies Hrated)
    as (Hperm & Hsorted & Hties).
  split; [apply SortOrder.Slice_total|]. split; [done|]. split; [|done].
  intros i j x y Hij Hx Hy.
  pose proof (lookup_lt_Some _ _ _ Hy) as Hj.
  apply list_lookup_total_correct in Hx as <-.
  apply list_lookup_total_correct in Hy as <-.
  apply (Hsorted i j); [lia | done |].
  unfold ranked, sortMoviesByRating in Hj. by rewrite Hperm in Hj.
Qed.

End Ranker.

End RankerFacts.

(* ===================================================================== *)
(** ** Properties of the Candidate Collector *)
(* ===================================================================== *)

Module CollectorFacts.

Import GoFloat Services.

Section Collector.

Context (lib : GoLib) {W : Type} (up : Upstream W).

Lemma GetMovieByTitle_requests (t : string) (st st' : State) (got : Result OMDbResponse.t) :
  GetMovieByTitle up t st = (got, st') →
  requests st' = requests st ++ [TitleRequest t].
Proof.
  unfold GetMovieByTitle, makeRequest.
  destruct (title up (world st) t) as [w f]. by intros [= _ <-].
Qed.

Lemma GetMovieByTitle_fetched (t : string) (st st' : State) (movieDetails : OMDbResponse.t) :
  GetMovieByTitle up t st = (Ok movieDetails, st') →
  fetched up (briefOf movieDetails).
Proof.
  unfold GetMovieByTitle, makeRequest.
  destruct (title up (world st) t) as [w f] eqn:Hget.
  destruct f as [e|e|e|r]; try discriminate.
  destruct (String.eqb _ _); [discriminate|].
  intros [= <- _]. by exists (world st), t, w, r.
Qed.

Lemma SearchMovies_requests (q : string) (page : Z) (st st' : State)
    (got : Result SearchResponse.t) :
  SearchMovies up q page st = (got, st') →
  requests st' = requests st ++ [SearchRequest q (if (0 <? page)%Z then Some page else None)].
Proof.
  unfold SearchMovies.
  destruct (search up (world st) q _) as [w f]. by intros [= _ <-].
Qed.

Lemma lookupFor_cons (excludeTitle : string) (hit : SearchResult.t)
    (results : list SearchResult.t) (reqs : list Request) :
  Forall (lookupFor lib excludeTitle results) reqs →
  Forall (lookupFor lib excludeTitle (hit :: results)) reqs.
Proof.
  intros Hall. eapply Forall_impl; [exact Hall|].
  intros r (h & Hin & -> & Hne).
  exists h. split; [by right | done].
Qed.

(** The loop over the hits of one page: what it appends, what it sends,
    and how far it lets the list grow. *)
Lemma excludingResults_spec (searchTerm searchType excludeTitle : string) (limit : Z)
    (results : list SearchResult.t) :
  ∀ (movies : list MovieBrief.t) (movieSet : gmap string bool) (st st' : State) flow,
    excludingResults lib up searchTerm searchType excludeTitle limit results movies movieSet st
      = (flow, st') →
    ∃ (added : list MovieBrief.t) (sent : list Request),
      requests st' = requests st ++ sent ∧
      Forall (lookupFor lib excludeTitle results) sent ∧
      Forall (candidate lib up) added ∧
      match flow with
      | Next (movies', _) =>
          movies' = movies ++ added ∧ ((len movies < limit)%Z → (len movies' < limit)%Z)
      | Return (movies', err) =>
          movies' = movies ++ added ∧ err = None ∧
          ((len movies < limit)%Z → (len movies' <= limit)%Z)
      end.
Proof.
  induction results as [|result rest IH]; intros movies movieSet st st' flow; simpl.
  - intros [= <- <-]. exists [], []. rewrite !app_nil_r. by repeat split.
  - destruct (mapRead movieSet (SearchResult.ImdbID result)) eqn:Hseen; simpl.
    { intros Hrun. apply IH in Hrun as (added & sent & ? & ? & ? & ?).
      exists added, sent. repeat split; eauto using lookupFor_cons. }
    destruct (EqualFold lib (SearchResult.Title result) excludeTitle) eqn:Hfold.
    { intros Hrun. apply IH in Hrun as (added & sent & ? & ? & ? & ?).
      exists added, sent. repeat split; eauto using lookupFor_cons. }
    unfold mbind, M_bind at 1.
    destruct (GetMovieByTitle up (SearchResult.Title result) st) as [got st1] eqn:Hget.
    pose proof (λ md, GetMovieByTitle_fetched (SearchResult.Title result) st st1 md) as Hfetched.
    rewrite Hget in Hfetched.
    apply GetMovieByTitle_requests in Hget.
    assert (Hfirst : lookupFor lib excludeTitle (result :: rest)
                       (TitleRequest (SearchResult.Title result))).
    { exists result. split; [by left | done]. }
    assert (Hnext : ∀ flow,
      excludingResults lib up searchTerm searchType excludeTitle limit rest movies movieSet st1
        = (flow, st') →
      ∃ added sent,
        requests st' = requests st ++ sent ∧
        Forall (lookupFor lib excludeTitle (result :: rest)) sent ∧
        Forall (candidate lib up) added ∧
        match flow with
        | Next (movies', _) =>
            movies' = movies ++ added ∧ ((len movies < limit)%Z → (len movies' < limit)%Z)
        | Return (movies', err) =>
            movies' = movies ++ added ∧ err = None ∧
            ((len movies < limit)%Z → (len movies' <= limit)%Z)
        end).
    { intros flow' Hrun. apply IH in Hrun as (added & sent & Hreq & ? & ? & ?).
      exists added, (TitleRequest (SearchResult.Title result) :: sent).
      rewrite Hreq, Hget, <- app_assoc. repeat split; eauto using lookupFor_cons. }
    destruct got as [movieDetails|err]; [|by apply Hnext].
    destruct (String.eqb (OMDbResponse.Response movieDetails) "False"); [by apply Hnext|].
    destruct (facetMatches lib searchType searchTerm movieDetails); [|by apply Hnext].
    destruct (gt (ratingOf lib (OMDbResponse.ImdbRating movieDetails)) zero) eqn:Hpos;
      [|by apply Hnext].
    assert (Hcand : candidate lib up (briefOf movieDetails)) by (split; [done | by apply Hfetched]).
    destruct (limit <=? len (movies ++ [briefOf movieDetails]))%Z eqn:Hfull.
    + intros [= <- <-].
      exists [briefOf movieDetails], [TitleRequest (SearchResult.Title result)].
      repeat split; eauto.
      unfold len in *. rewrite length_app in *. simpl in *. lia.
    + intros Hrun. apply IH in Hrun as (added & sent & Hreq & ? & ? & Hflow).
      exists (briefOf movieDetails :: added), (TitleRequest (SearchResult.Title result) :: sent).
      rewrite Hreq, Hget, <- app_assoc. repeat split; eauto using lookupFor_cons.
      apply Z.leb_gt in Hfull.
      destruct flow as [[movies' set']|[movies' err]].
      * destruct Hflow as [-> Hlen]. rewrite <- app_assoc in *. split; [done|].
        intros _. by apply Hlen.
      * destruct Hflow as (-> & -> & Hlen). rewrite <- app_assoc in *. repeat split.
        intros _. by apply Hlen.
Qed.

Lemma lookupFor_sentFor (searchTerm excludeTitle : string)
    (results : list SearchResult.t) (sent : list Request) :
  Forall (lookupFor lib excludeTitle results) sent →
  Forall (sentFor lib searchTerm excludeTitle) sent.
Proof.
  intros Hall. eapply Forall_impl; [exact Hall|].
  by intros r (h & _ & -> & Hne).
Qed.

(** The loop over the pages. *)
Lemma excludingPages_spec (searchTerm searchType excludeTitle : string) (limit : Z)
    (pages : list Z) :
  Forall (λ p, p = 1%Z ∨ p = 2%Z) pages →
  ∀ (movies : list MovieBrief.t) (movieSet : gmap string bool) (st st' : State)
    (movies' : list MovieBrief.t) (err : option string),
    excludingPages lib up searchTerm searchType excludeTitle limit pages movies movieSet st
      = ((movies', err), st') →
    ∃ (added : list MovieBrief.t) (sent : list Request),
      requests st' = requests st ++ sent ∧
      Forall (sentFor lib searchTerm excludeTitle) sent ∧
      Forall (candidate lib up) added ∧
      movies' = movies ++ added ∧ err = None ∧
      ((len movies < limit)%Z → (len movies' <= limit)%Z).
Proof.
  induction 1 as [|page rest Hpage Hrest IH]; intros movies movieSet st st' movies' err; simpl.
  - intros [= <- <- <-]. exists [], []. rewrite !app_nil_r. repeat split; auto. lia.
  - unfold mbind, M_bind at 1.
    destruct (SearchMovies up searchTerm page st) as [got st1] eqn:Hsearch.
    apply SearchMovies_requests in Hsearch.
    assert (Hfirst : sentFor lib searchTerm excludeTitle
                       (SearchRequest searchTerm (if (0 <? page)%Z then Some page else None))).
    { split; [done|]. destruct Hpage as [-> | ->]; auto. }
    assert (Hnext : ∀ st2 movies2 movieSet2 added2 sent2,
      requests st2 = requests st1 ++ sent2 →
      Forall (sentFor lib searchTerm excludeTitle) sent2 →
      Forall (candidate lib up) added2 →
      movies2 = movies ++ added2 →
      ((len movies < limit)%Z → (len movies2 < limit)%Z) →
      excludingPages lib up searchTerm searchType excludeTitle limit rest movies2 movieSet2 st2
        = (movies', err, st') →
      ∃ added sent,
        requests st' = requests st ++ sent ∧
        Forall (sentFor lib searchTerm excludeTitle) sent ∧
        Forall (candidate lib up) added ∧
        movies' = movies ++ added ∧ err = None ∧
        ((len movies < limit)%Z → (len movies' <= limit)%Z)).
    { intros st2 movies2 movieSet2 added2 sent2 Hreq2 Hsent2 Hadded2 -> Hlen2 Hrun.
      apply IH in Hrun as (added & sent & Hreq & Hsent & Hadded & -> & -> & Hlen).
      exists (added2 ++ added), (SearchRequest searchTerm
                (if (0 <? page)%Z then Some page else None) :: sent2 ++ sent).
      rewrite Hreq, Hreq2, Hsearch, <- !app_assoc. simpl.
      repeat split; auto.
      - constructor; [done|]. by apply Forall_app.
      - by apply Forall_app.
      - intros Hlt. rewrite app_assoc. by apply Hlen, Hlen2. }
    assert (Hstay : excludingPages lib up searchTerm searchType excludeTitle limit rest
                      movies movieSet st1 = (movies', err, st') → _) by
      (apply (Hnext st1 movies movieSet [] []); rewrite ?app_nil_r; auto).
    destruct got as [searchResp|e]; [|exact Hstay].
    destruct (String.eqb (SearchResponse.Response searchResp) "False"); [exact Hstay|].
    unfold mbind, M_bind at 1.
    destruct (excludingResults _ _ _ _ _ _ _ _ _ st1) as [flow st2] eqn:Hresults.
    apply excludingResults_spec in Hresults as (added2 & sent2 & Hreq2 & Hsent2 & Hadded2 & Hflow).
    apply (lookupFor_sentFor searchTerm) in Hsent2.
    destruct flow as [[movies2 movieSet2]|[movies2 err2]].
    + destruct Hflow as [-> Hlen2]. by eapply Hnext.
    + destruct Hflow as (-> & -> & Hlen2). intros [= <- <- <-].
      exists added2, (SearchRequest searchTerm
                (if (0 <? page)%Z then Some page else None) :: sent2).
      rewrite Hreq2, Hsearch, <- !app_assoc. simpl. repeat split; auto.
Qed.

(** [getMoviesExcluding]: its error is nil, every brief it returns is
    rated above zero, it returns at most [limit] of them when [limit] is
    positive, and it sends only requests for its own term. *)
Lemma getMoviesExcluding_spec (searchTerm searchType excludeTitle : string) (limit : Z)
    (st st' : State) (movies : list MovieBrief.t) (err : option string) :
  getMoviesExcluding lib up searchTerm searchType excludeTitle limit st = ((movies, err), st') →
  err = None ∧
  Forall (candidate lib up) movies ∧
  ((0 < limit)%Z → (len movies <= limit)%Z) ∧
  ∃ sent, requests st' = requests st ++ sent ∧
          Forall (sentFor lib searchTerm excludeTitle) sent.
Proof.
  unfold getMoviesExcluding. intros Hrun.
  apply excludingPages_spec in Hrun as (added & sent & Hreq & Hsent & Hadded & -> & -> & Hlen);
    [|repeat first [apply Forall_nil_2 | apply Forall_cons_2; [by (left + right)|]]].
  repeat split; eauto.
Qed.

Lemma wrapInt_small (z : Z) :
  (- 2 ^ 63 <= z < 2 ^ 63)%Z → wrapInt z = z.
Proof. intros Hz. unfold wrapInt. rewrite Z.mod_small; lia. Qed.

(** The loop over the names of one facet keeps the list within 20. *)
Lemma facetLoop_spec (searchType excludeTitle : string) (names : list string) :
  ∀ (based based' : list MovieBrief.t) (st st' : State),
    facetLoop lib up searchType excludeTitle names based st = (based', st') →
    (len based <= 20)%Z →
    ∃ (added : list MovieBrief.t) (sent : list Request),
      based' = based ++ added ∧
      (len based' <= 20)%Z ∧
      Forall (candidate lib up) added ∧
      requests st' = requests st ++ sent ∧
      Forall (λ r, ∃ name, name ∈ names ∧ sentFor lib name excludeTitle r) sent.
Proof.
  induction names as [|name rest IH]; intros based based' st st'; simpl.
  - intros [= <- <-] Hlen. exists [], []. rewrite !app_nil_r. by repeat split.
  - destruct (20 <=? len based)%Z eqn:Hfull.
    { intros [= <- <-] Hlen. exists [], []. rewrite !app_nil_r. by repeat split. }
    apply Z.leb_gt in Hfull. intros Hrun Hlen.
    unfold mbind in Hrun at 1. unfold M_bind in Hrun at 1.
    destruct (getMoviesExcluding _ _ _ _ _ _ st) as [[movies err] st1] eqn:Hcall.
    rewrite wrapInt_small in Hcall by (unfold len in *; lia).
    apply getMoviesExcluding_spec in Hcall as (-> & Hadded & Hcap & sent1 & Hreq1 & Hsent1).
    apply IH in Hrun as (added & sent & -> & Hlen' & Hadded' & Hreq & Hsent).
    + exists (movies ++ added), (sent1 ++ sent).
      rewrite <- app_assoc in Hlen'.
      rewrite Hreq, Hreq1, <- !app_assoc. repeat split; auto.
      * by apply Forall_app.
      * apply Forall_app. split.
        -- eapply Forall_impl; [exact Hsent1|]. intros r Hr. exists name. split; [by left|done].
        -- eapply Forall_impl; [exact Hsent|]. intros r (n & Hin & Hr).
           exists n. split; [by right|done].
    + unfold len in *. rewrite length_app. lia.
Qed.

(** *** The genre-listing collector *)

Lemma genreResults_candidates (genre : string) (limit : Z) (results : list SearchResult.t) :
  ∀ (allMovies allMovies' : list MovieBrief.t) (movieSet movieSet' : gmap string bool)
    (st st' : State),
    genreResults lib up genre limit results allMovies movieSet st
      = ((allMovies', movieSet'), st') →
    Forall (candidate lib up) allMovies → Forall (candidate lib up) allMovies'.
Proof.
  induction results as [|result rest IH]; intros allMovies allMovies' movieSet movieSet' st st';
    simpl.
  - by intros [= <- <- <-].
  - destruct (mapRead movieSet (SearchResult.ImdbID result)); [by apply IH|].
    unfold mbind, M_bind at 1.
    destruct (GetMovieByTitle up (SearchResult.Title result) st) as [got st1] eqn:Hget.
    destruct got as [movieDetails|err]; [|by apply IH].
    apply GetMovieByTitle_fetched in Hget.
    destruct (String.eqb (OMDbResponse.Response movieDetails) "False"); [by apply IH|].
    destruct (GoStrings.Contains _ _); [|by apply IH].
    destruct (gt (ratingOf lib (OMDbResponse.ImdbRating movieDetails)) zero) eqn:Hpos;
      [|by apply IH].
    assert (Hgrow : Forall (candidate lib up) allMovies →
                    Forall (candidate lib up) (allMovies ++ [briefOf movieDetails])).
    { intros Hall. apply Forall_app. split; [done|]. by repeat constructor. }
    destruct (_ <=? _)%Z.
    + intros [= <- <- <-]. exact Hgrow.
    + intros Hrun Hall. eapply IH; [exact Hrun | by apply Hgrow].
Qed.

Lemma genrePages_candidates (genre : string) (limit : Z) (term : string) (pages : list Z) :
  ∀ (allMovies allMovies' : list MovieBrief.t) (movieSet movieSet' : gmap string bool)
    (st st' : State),
    genrePages lib up genre limit term pages allMovies movieSet st
      = ((allMovies', movieSet'), st') →
    Forall (candidate lib up) allMovies → Forall (candidate lib up) allMovies'.
Proof.
  induction pages as [|page rest IH]; intros allMovies allMovies' movieSet movieSet' st st';
    simpl.
  - by intros [= <- <- <-].
  - unfold mbind, M_bind at 1.
    destruct (SearchMovies up term page st) as [got st1].
    destruct got as [searchResp|err]; [|by apply IH].
    destruct (String.eqb _ _); [by apply IH|].
    unfold mbind, M_bind at 1.
    destruct (genreResults _ _ _ _ _ _ _ st1) as [[allMovies1 movieSet1] st2] eqn:Hresults.
    intros Hrun Hall. eapply IH; [exact Hrun|].
    by eapply genreResults_candidates.
Qed.

Lemma genreTermsLoop_candidates (genre : string) (limit : Z) (searchTerms : list string) :
  ∀ (allMovies allMovies' : list MovieBrief.t) (movieSet movieSet' : gmap string bool)
    (st st' : State),
    genreTermsLoop lib up genre limit searchTerms allMovies movieSet st
      = ((allMovies', movieSet'), st') →
    Forall (candidate lib up) allMovies → Forall (candidate lib up) allMovies'.
Proof.
  induction searchTerms as [|term rest IH];
    intros allMovies allMovies' movieSet movieSet' st st'; cbn [genreTermsLoop].
  - by intros [= <- <- <-].
  - destruct (_ <=? _)%Z; [by intros [= <- <- <-]|].
    unfold mbind, M_bind at 1.
    destruct (genrePages _ _ _ _ _ _ _ _ st) as [[allMovies1 movieSet1] st1] eqn:Hpages.
    intros Hrun Hall. eapply IH; [exact Hrun|].
    by eapply genrePages_candidates.
Qed.

Lemma collectByGenre_candidates (genre : string) (limit : Z) (st st' : State)
    (allMovies : list MovieBrief.t) :
  collectByGenre lib up genre limit st = (allMovies, st') →
  Forall (candidate lib up) allMovies.
Proof.
  unfold collectByGenre, mbind, M_bind.
  destruct (genreTermsLoop _ _ _ _ _ _ _ st) as [[allMovies1 movieSet1] st1] eqn:Hloop.
  intros [= <- <-]. by eapply genreTermsLoop_candidates.
Qed.

Lemma sortMoviesByRating_Permutation (movies : list MovieBrief.t) :
  sortMoviesByRating lib movies ≡ₚ movies.
Proof. apply SortPermutation.Slice_Permutation. Qed.

Lemma sortMoviesByRating_len (movies : list MovieBrief.t) :
  len (sortMoviesByRating lib movies) = len movies.
Proof. unfold len. by rewrite sortMoviesByRating_Permutation. Qed.

Lemma sortMoviesByRating_Forall (P : MovieBrief.t → Prop) (movies : list MovieBrief.t) :
  Forall P movies → Forall P (sortMoviesByRating lib movies).
Proof. by rewrite sortMoviesByRating_Permutation. Qed.

(** [GetMoviesByGenre] returns without an error whenever it returns, and
    what it returns are candidates. *)
Lemma GetMoviesByGenre_spec (genre : string) (limit : Z) (st st' : State)
    (movies : list MovieBrief.t) (err : option string) :
  GetMoviesByGenre lib up genre limit st = (Returned (movies, err), st') →
  err = None ∧ Forall (candidate lib up) movies ∧ ((0 <= limit)%Z → (len movies <= limit)%Z).
Proof.
  unfold GetMoviesByGenre, mbind, M_bind.
  destruct (collectByGenre lib up genre limit st) as [allMovies st1] eqn:Hcollect.
  apply collectByGenre_candidates in Hcollect.
  apply (sortMoviesByRating_Forall _ allMovies) in Hcollect.
  fold (sortMoviesByRating lib allMovies).
  destruct (limit <? len _)%Z eqn:Hcut.
  - destruct (limit <? 0)%Z eqn:Hneg; [discriminate|].
    intros [= <- <- <-]. repeat split; [by apply Forall_take|].
    intros _. unfold len. rewrite length_take. lia.
  - intros [= <- <- <-]. repeat split; [done|]. intros _. by apply Z.ltb_ge in Hcut.
Qed.

End Collector.

End CollectorFacts.

(* ===================================================================== *)
(** ** The recommendation operation *)
(* ===================================================================== *)

Module RecommendationFacts.

Import GoFloat Services CollectorFacts Scenarios.

Section Recommendation.

Context (lib : GoLib) {W : Type} (up : Upstream W).

(** The three facet loops of a successful [GetRecommendations], one
    after the other. *)
Lemma GetRecommendations_unfold (favoriteMovie : string) (st : State) (w1 : W)
    (movieDetails : OMDbResponse.t) :
  title up (world st) favoriteMovie = (w1, Decoded movieDetails) →
  String.eqb (OMDbResponse.Response movieDetails) "False" = false →
  let seed := OMDbResponse.Title movieDetails in
  let st1 := mkState w1 (requests st ++ [TitleRequest favoriteMovie]) in
  let genres := GoStrings.Split (OMDbResponse.Genre movieDetails) ", " in
  let directors := GoStrings.Split (OMDbResponse.Director movieDetails) ", " in
  let actors := GoStrings.Split (OMDbResponse.Actors movieDetails) ", " in
  ∃ (byGenre byDirector byActor : list MovieBrief.t) (st2 st3 st4 : State),
    facetLoop lib up "genre" seed genres [] st1 = (byGenre, st2) ∧
    facetLoop lib up "director" seed directors [] st2 = (byDirector, st3) ∧
    facetLoop lib up "actor" seed (take (Z.to_nat (min 3 (len actors))) actors) [] st3
      = (byActor, st4) ∧
    GetRecommendations lib up favoriteMovie st
      = (Ok (RecommendationsResponse.mk seed
               (RecommendationsByCategory.mk
                  (sortMoviesByRating lib byGenre)
                  (sortMoviesByRating lib byDirector)
                  (sortMoviesByRating lib byActor))), st4).
Proof.
  intros Hseed Hresponse. cbv zeta.
  unfold GetRecommendations, mbind, M_bind, GetMovieByTitle, makeRequest. cbv beta.
  rewrite Hseed. cbv iota beta. rewrite Hresponse. cbv iota beta.
  rewrite Hresponse. cbv iota beta.
  do 3 match goal with
       | |- context [facetLoop ?l ?u ?ty ?ex ?names ?based ?s] =>
           lazymatch s with
           | context [facetLoop] => fail
           | _ => destruct (facetLoop l u ty ex names based s) as [? ?] eqn:?
           end
       end.
  by eexists _, _, _, _, _, _.
Qed.

(** A failed seed lookup, whatever the failure, is answered with the one
    error "favorite movie not found". *)
Lemma GetRecommendations_error (favoriteMovie : string) (st st' : State) (err : string) :
  GetRecommendations lib up favoriteMovie st = (Err err, st') →
  err = "favorite movie not found: " +:+ favoriteMovie.
Proof.
  unfold GetRecommendations, mbind, M_bind.
  destruct (GetMovieByTitle up favoriteMovie st) as [got st1].
  destruct got as [movieDetails|e]; [|by intros [= <- _]].
  destruct (String.eqb _ _); [by intros [= <- _]|].
  repeat match goal with
         | |- context [facetLoop ?l ?u ?ty ?ex ?names ?based ?s] =>
             destruct (facetLoop l u ty ex names based s)
         end.
  discriminate.
Qed.

Lemma not_found_in_message (favoriteMovie : string) :
  GoStrings.Contains ("favorite movie not found: " +:+ favoriteMovie) "not found" = true.
Proof. reflexivity. Qed.


(** C10 (as amended): with a limit that is not negative, and whatever
    the upstream does, [GetMoviesByGenre] returns, and returns a nil
    error. *)
Theorem GetMoviesByGenre_returns_nil_error (genre : string) (limit : Z) (st : State) :
  (0 <= limit)%Z →
  ∃ movies : list MovieBrief.t,
    (GetMoviesByGenre lib up genre limit st).1 = Returned (movies, None).
Proof.
  intros Hlimit. unfold GetMoviesByGenre, mbind, M_bind.
  destruct (collectByGenre lib up genre limit st) as [allMovies st1].
  destruct (limit <? len _)%Z; [|by eexists].
  destruct (limit <? 0)%Z eqn:Hneg; [lia | by eexists].
Qed.

(** The handler, which asks for 15, never answers 500. *)
Lemma GetMoviesByGenre_handler_never_500 (genre : string) (st : State) :
  ∃ reply : Handlers.Reply,
    (Handlers.GetMoviesByGenre lib up genre st).1 = Returned reply ∧
    Handlers.status reply ≠ Handlers.StatusInternalServerError.
Proof.
  unfold Handlers.GetMoviesByGenre.
  destruct (String.eqb genre ""); [by eexists|].
  unfold mbind, M_bind, GetMoviesByGenre, mbind, M_bind.
  destruct (collectByGenre lib up genre 15 st) as [allMovies st1].
  change (15 <? 0)%Z with false.
  destruct (15 <? len _)%Z; unfold mret, M_ret; cbv beta iota;
    match goal with |- context [(len ?movies =? 0)%Z] =>
      destruct (len movies =? 0)%Z; by eexists end.
Qed.

(** However the seed lookup fails, the handler answers 404. *)
Lemma GetRecommendations_handler_failure_is_404 (favoriteMovie : string) (st : State)
    (err : string) :
  String.eqb favoriteMovie "" = false →
  (GetRecommendations lib up favoriteMovie st).1 = Err err →
  Handlers.status (Handlers.GetRecommendations lib up favoriteMovie st).1
    = Handlers.StatusNotFound.
Proof.
  intros Hgiven Hfail. unfold Handlers.GetRecommendations. rewrite Hgiven.
  unfold mbind, M_bind.
  destruct (GetRecommendations lib up favoriteMovie st) as [got st'] eqn:Hrun.
  simpl in Hfail. subst got. apply GetRecommendations_error in Hrun as ->.
  by rewrite not_found_in_message.
Qed.

End Recommendation.

End RecommendationFacts.

(* ===================================================================== *)
(** ** The scenarios, evaluated *)
(* ===================================================================== *)

Module ScenarioFacts.

Import GoFloat Services Scenarios RecommendationFacts.

Example seed_lookup :
  run (GetMovieByTitle proxyOnly "The Matrix") () = (Ok seedRecord, afterSeedLookup).
Proof. reflexivity. Qed.

(** *** Genre facet and Term Expander *)

Example proxyOnly_code_facet :
  titles (genreBased (run (GetRecommendations asciiLib proxyOnly "The Matrix") ()).1) = [].
Proof. vm_compute. reflexivity. Qed.

Example proxyOnly_spec_facet :
  titles (Spec.genreFacet asciiLib proxyOnly seedRecord afterSeedLookup).1 = ["Speed"].
Proof. vm_compute. reflexivity. Qed.

Example proxyOnly_requests :
  requests (run (GetRecommendations asciiLib proxyOnly "The Matrix") ()).2
  = [ TitleRequest "The Matrix";
      SearchRequest "Action" (Some 1%Z); SearchRequest "Action" (Some 2%Z);
      SearchRequest "Sci-Fi" (Some 1%Z); SearchRequest "Sci-Fi" (Some 2%Z);
      SearchRequest "Lana Wachowski" (Some 1%Z); SearchRequest "Lana Wachowski" (Some 2%Z);
      SearchRequest "Keanu Reeves" (Some 1%Z); SearchRequest "Keanu Reeves" (Some 2%Z) ].
Proof. vm_compute. reflexivity. Qed.

(** C1, refuted as stated: for the seed "The Matrix" of genre
    "Action, Sci-Fi", the genre facet that the service returns is not the
    one obtained by expanding each genre and collecting over the proxy
    terms, and no proxy term such as "adventure" is ever searched. *)
Lemma genre_facet_skips_term_expander :
  let code := run (GetRecommendations asciiLib proxyOnly "The Matrix") () in
  genreBased code.1 ≠ (Spec.genreFacet asciiLib proxyOnly seedRecord afterSeedLookup).1 ∧
  SearchRequest "adventure" (Some 1%Z) ∉ requests code.2.
Proof.
  split.
  - intros Heq. apply (f_equal titles) in Heq.
    rewrite proxyOnly_code_facet, proxyOnly_spec_facet in Heq. discriminate.
  - rewrite proxyOnly_requests. intros Hin.
    repeat (apply elem_of_cons in Hin as [Hin | Hin]; [discriminate|]).
    by apply elem_of_nil in Hin.
Qed.

(** *** Duplicates within a facet *)

(** C2 at the failing input: "Dune" is found under "Action" and again
    under "Sci-Fi", each collector call starting with an empty set of
    seen identifiers, and the genre facet lists it twice. *)
Theorem genre_facet_lists_a_movie_twice :
  genreBased (run (GetRecommendations asciiLib bothGenres "The Matrix") ()).1
  = [ MovieBrief.mk "Dune" "" "8.0" "Action, Sci-Fi" "Denis Villeneuve" "";
      MovieBrief.mk "Dune" "" "8.0" "Action, Sci-Fi" "Denis Villeneuve" "" ].
Proof. vm_compute. reflexivity. Qed.

(** *** Errors of the seed lookup *)

(** C4 at the failing input: the upstream cannot be reached, the service
    reports "favorite movie not found", and the handler answers 404. *)
Theorem transport_failure_answered_not_found :
  (run (Services.GetRecommendations asciiLib unreachable "The Matrix") ()).1
    = Err "favorite movie not found: The Matrix" ∧
  (run (Handlers.GetRecommendations asciiLib unreachable "The Matrix") ()).1
    = Handlers.errorReply 404 "Not Found" "Favorite movie not found: The Matrix".
Proof. split; vm_compute; reflexivity. Qed.

(** The sibling path keeps the two failures apart. *)
Example title_lookup_keeps_failures_apart :
  (run (GetMovieByTitle unreachable "The Matrix") ()).1
    = Err "failed to make request: dial tcp: connection refused" ∧
  (run (GetMovieByTitle proxyOnly "Heat") ()).1
    = Err "OMDb API error: Movie not found!".
Proof. split; reflexivity. Qed.

(** *** Exclusion of the seed *)

(** C5 at the failing input: the hit is titled "Matrix", which is not
    the excluded title, the lookup of "Matrix" brings the record titled
    "The Matrix", and the seed is recommended. *)
Theorem seed_recommended_under_other_hit_title :
  let movies :=
    (run (getMoviesExcluding asciiLib shortTitle "Action" "genre" "The Matrix" 20) ()).1.1 in
  titles movies = ["The Matrix"] ∧
  Forall (λ b, EqualFold asciiLib (MovieBrief.Title b) "The Matrix" = true) movies ∧
  titles (genreBased (run (GetRecommendations asciiLib shortTitle "The Matrix") ()).1)
    = ["The Matrix"].
Proof.
  split; [vm_compute; reflexivity|]. split; [|vm_compute; reflexivity].
  assert ((run (getMoviesExcluding asciiLib shortTitle "Action" "genre" "The Matrix" 20) ()).1.1
          = [MovieBrief.mk "The Matrix" "" "8.5" "Action, Sci-Fi" "Lana Wachowski" ""]) as ->
    by (vm_compute; reflexivity).
  by repeat constructor.
Qed.

(** *** The cap of the genre listing *)

(** C6 at the failing input: with [limit] 1 the collection is full at two
    films, after "Whiplash" on page 1 of the first term; pages 2 and 3 of
    that term are searched all the same, their hits are fetched, and four
    films are collected. *)
Theorem genre_listing_goes_on_after_cap :
  let '(collected, st) := run (collectByGenre asciiLib jazzPages "jazz" 1) () in
  titles collected = ["Bird"; "Whiplash"; "Round Midnight"; "Mo Better Blues"] ∧
  requests st
  = [ SearchRequest "jazz" (Some 1%Z); TitleRequest "Bird"; TitleRequest "Whiplash";
      SearchRequest "jazz" (Some 2%Z); TitleRequest "Round Midnight";
      SearchRequest "jazz" (Some 3%Z); TitleRequest "Mo Better Blues" ].
Proof. vm_compute. split; reflexivity. Qed.

Example genre_listing_output :
  (run (GetMoviesByGenre asciiLib jazzPages "jazz" 1) ()).1
  = Returned ([MovieBrief.mk "Whiplash" "" "8.5" "Drama, Jazz" "" ""], None).
Proof. vm_compute. reflexivity. Qed.

(** *** Ranking *)

Example three_ranked :
  titles (sortMoviesByRating asciiLib three) = ["B"; "A"; "C"].
Proof. vm_compute. reflexivity. Qed.

Example thirteen_ranked :
  titles (sortMoviesByRating asciiLib thirteen)
  = ["M"; "G"; "C"; "D"; "E"; "F"; "A"; "H"; "I"; "J"; "K"; "L"; "B"].
Proof. vm_compute. reflexivity. Qed.

(** C3, refuted as stated: of thirteen candidates, twelve rated 8.0 and
    then one rated 9.0, the Ranker returns "G" before "A" and "B" last,
    though all three have the same rating and came in the order "A", "B",
    "G". *)
Lemma ranker_reorders_equal_ratings :
  Forall (ratedAboveZero asciiLib) thirteen ∧
  ¬ keepsInputOrder asciiLib thirteen (sortMoviesByRating asciiLib thirteen).
Proof.
  split; [repeat constructor|].
  intros Hstable. specialize (Hstable (brief "A" "8.0") eq_refl).
  apply (f_equal titles) in Hstable. vm_compute in Hstable. discriminate.
Qed.

Lemma ranker_sorts_non_increasing_witness :
  Forall (rated asciiLib) three ∧
  sortMoviesByRating asciiLib three ≡ₚ three ∧
  nonIncreasing asciiLib (sortMoviesByRating asciiLib three) ∧
  keepsInputOrder asciiLib three (sortMoviesByRating asciiLib three).
Proof.
  assert (Hrated : Forall (rated asciiLib) three) by (repeat constructor).
  destruct (RankerFacts.ranker_sorts_non_increasing asciiLib three Hrated)
    as (_ & Hperm & Hsorted & Hties).
  split; [exact Hrated|]. split; [exact Hperm|]. split; [exact Hsorted|].
  apply Hties. simpl. lia.
Defined.

(** *** Limits *)



(** *** Ratings *)

Example unrated_answer :
  (run (GetRecommendations asciiLib unrated "The Matrix") ()).1
  = Ok (RecommendationsResponse.mk "The Matrix" (RecommendationsByCategory.mk [] [] [])).
Proof. vm_compute. reflexivity. Qed.


(** *** The error of the genre listing *)

(** C10, refuted as stated: with a limit of -1 the final re-slice
    panics, so that nothing is returned. *)
Lemma GetMoviesByGenre_negative_limit_panics :
  ¬ ∃ movies : list MovieBrief.t,
      (run (GetMoviesByGenre asciiLib jazzPages "jazz" (-1)) ()).1 = Returned (movies, None).
Proof. intros [movies Hrun]. vm_compute in Hrun. discriminate. Qed.

Lemma GetMoviesByGenre_returns_nil_error_witness :
  ∃ movies : list MovieBrief.t,
    (GetMoviesByGenre asciiLib jazzPages "jazz" 1 (mkState () [])).1 = Returned (movies, None).
Proof.
  apply (GetMoviesByGenre_returns_nil_error asciiLib jazzPages "jazz" 1 (mkState () [])). lia.
Defined.

End ScenarioFacts.

(* ===================================================================== *)
(** ** What the two operations hand out: ranked candidates *)
(* ===================================================================== *)

Module RankedFacts.

Import GoFloat Services CollectorFacts RankerFacts Scenarios.

Section Ranked.

Context (lib : GoLib) {W : Type} (up : Upstream W).

Lemma candidates_rated (movies : list MovieBrief.t) :
  Forall (candidate lib up) movies → Forall (rated lib) movies.
Proof.
  intros Hall. eapply Forall_impl; [exact Hall|].
  intros b [Hb _]. by apply ratedAboveZero_rated.
Qed.

Lemma sortMoviesByRating_nonIncreasing (movies : list MovieBrief.t) :
  Forall (rated lib) movies → nonIncreasing lib (sortMoviesByRating lib movies).
Proof.
  intros Hrated.
  destruct (SortOrder.Slice_sorts (ratingLess lib) (rated lib)
              (ratingLess_irrefl lib) (ratingLess_trans lib) (ratingLess_cotrans lib)
              movies Hrated) as (Hperm & Hsorted & _).
  intros i j x y Hij Hx Hy.
  pose proof (lookup_lt_Some _ _ _ Hy) as Hj.
  apply list_lookup_total_correct in Hx as <-.
  apply list_lookup_total_correct in Hy as <-.
  apply (Hsorted i j); [lia | done |].
  unfold sortMoviesByRating in Hj. by rewrite Hperm in Hj.
Qed.

(** The seed lookup decides between the two courses of
    [GetRecommendations]. *)
Lemma GetRecommendations_cases (favoriteMovie : string) (st : State) :
  (∃ (w1 : W) (movieDetails : OMDbResponse.t),
     title up (world st) favoriteMovie = (w1, Decoded movieDetails) ∧
     String.eqb (OMDbResponse.Response movieDetails) "False" = false) ∨
  (∃ w1 : W,
     match (title up (world st) favoriteMovie).2 with
     | Decoded movieDetails => String.eqb (OMDbResponse.Response movieDetails) "False" = true
     | _ => True
     end ∧
     GetRecommendations lib up favoriteMovie st
     = (Err ("favorite movie not found: " +:+ favoriteMovie),
        mkState w1 (requests st ++ [TitleRequest favoriteMovie]))).
Proof.
  unfold GetRecommendations, mbind, M_bind, GetMovieByTitle, makeRequest.
  destruct (title up (world st) favoriteMovie) as [w1 got] eqn:Hseed.
  destruct got as [e|e|e|movieDetails]; try (right; by exists w1).
  destruct (String.eqb (OMDbResponse.Response movieDetails) "False") eqn:Hresponse.
  - right. exists w1. simpl. by rewrite Hresponse.
  - left. by exists w1, movieDetails.
Qed.

(** X1: end to end, whatever the upstream sends: each of the three lists of
    a recommendation holds only candidates (built from a fetched record,
    rated above zero) and comes sorted, no entry rated above an entry
    before it. *)
Theorem recommendation_lists_are_ranked (favoriteMovie : string) (st : State) :
  let got := (GetRecommendations lib up favoriteMovie st).1 in
  (Forall (candidate lib up) (genreBased got) ∧ nonIncreasing lib (genreBased got)) ∧
  (Forall (candidate lib up) (directorBased got) ∧ nonIncreasing lib (directorBased got)) ∧
  (Forall (candidate lib up) (actorBased got) ∧ nonIncreasing lib (actorBased got)).
Proof.
  intros got. subst got.
  assert (Hnil : Forall (candidate lib up) [] ∧ nonIncreasing lib []).
  { split; [constructor|]. intros i j x y _ Hx. by rewrite lookup_nil in Hx. }
  destruct (GetRecommendations_cases favoriteMovie st)
    as [(w1 & movieDetails & Hseed & Hresponse) | (w1 & _ & ->)]; [|done].
  destruct (RecommendationFacts.GetRecommendations_unfold lib up favoriteMovie st w1
              movieDetails Hseed Hresponse)
    as (byGenre & byDirector & byActor & st2 & st3 & st4 & Hg & Hd & Ha & ->).
  assert (Hranked : ∀ movies, Forall (candidate lib up) movies →
            Forall (candidate lib up) (sortMoviesByRating lib movies) ∧
            nonIncreasing lib (sortMoviesByRating lib movies)).
  { intros movies Hall. split; [by apply sortMoviesByRating_Forall|].
    by apply sortMoviesByRating_nonIncreasing, candidates_rated. }
  apply facetLoop_spec in Hg as (? & ? & -> & _ & Hg & _); [|done].
  apply facetLoop_spec in Hd as (? & ? & -> & _ & Hd & _); [|done].
  apply facetLoop_spec in Ha as (? & ? & -> & _ & Ha & _); [|done].
  simpl. auto.
Qed.

Lemma nonIncreasing_app_l (movies dropped : list MovieBrief.t) :
  nonIncreasing lib (movies ++ dropped) → nonIncreasing lib movies.
Proof.
  intros Hsorted i j x y Hij Hx Hy.
  apply (Hsorted i j); [done |..]; by apply lookup_app_l_Some.
Qed.

(** What [GetMoviesByGenre] returns is sorted. *)
Lemma GetMoviesByGenre_returns_sorted (genre : string) (limit : Z) (st st' : State)
    (movies : list MovieBrief.t) (err : option string) :
  GetMoviesByGenre lib up genre limit st = (Returned (movies, err), st') →
  nonIncreasing lib movies.
Proof.
  unfold GetMoviesByGenre, mbind, M_bind.
  destruct (collectByGenre lib up genre limit st) as [allMovies st1] eqn:Hcollect.
  apply collectByGenre_candidates, candidates_rated in Hcollect.
  pose proof (sortMoviesByRating_nonIncreasing allMovies Hcollect) as Hsorted.
  unfold sortMoviesByRating in Hsorted.
  destruct (limit <? len _)%Z.
  - destruct (limit <? 0)%Z; [discriminate|]. intros [= <- _ _].
    apply (nonIncreasing_app_l _ (drop (Z.to_nat limit) (GoSort.Slice (ratingLess lib) allMovies))).
    by rewrite take_drop.
  - by intros [= <- _ _].
Qed.

(** X2: with a limit that is not negative, [GetMoviesByGenre] returns the
    best-rated of what it collected: its list, followed by what the cut
    dropped, is a sorted rearrangement of the collection, and the list
    is the collection itself or has [limit] entries. *)
Theorem GetMoviesByGenre_keeps_the_best (genre : string) (limit : Z) (st : State) :
  (0 <= limit)%Z →
  let collected := (collectByGenre lib up genre limit st).1 in
  ∃ movies dropped : list MovieBrief.t,
    (GetMoviesByGenre lib up genre limit st).1 = Returned (movies, None) ∧
    movies ++ dropped ≡ₚ collected ∧
    nonIncreasing lib (movies ++ dropped) ∧
    len movies = Z.min limit (len collected).
Proof.
  intros Hlimit collected. subst collected.
  unfold GetMoviesByGenre, mbind, M_bind.
  destruct (collectByGenre lib up genre limit st) as [allMovies st1] eqn:Hcollect.
  apply collectByGenre_candidates, candidates_rated in Hcollect.
  pose proof (sortMoviesByRating_nonIncreasing allMovies Hcollect) as Hsorted.
  pose proof (sortMoviesByRating_Permutation lib allMovies) as Hperm.
  pose proof (sortMoviesByRating_len lib allMovies) as Hlen.
  unfold sortMoviesByRating in *.
  set (ranked := GoSort.Slice (ratingLess lib) allMovies) in *. clearbody ranked.
  cbn [fst].
  destruct (limit <? len ranked)%Z eqn:Hcut.
  - apply Z.ltb_lt in Hcut.
    destruct (limit <? 0)%Z eqn:Hneg; [lia|].
    exists (take (Z.to_nat limit) ranked), (drop (Z.to_nat limit) ranked).
    rewrite take_drop. split_and!; [done | done | done |].
    unfold len in *. rewrite length_take. lia.
  - apply Z.ltb_ge in Hcut.
    exists ranked, []. rewrite app_nil_r. split_and!; [done | done | done | lia].
Qed.

End Ranked.

End RankedFacts.

(* ===================================================================== *)
(** ** Which hits a collector accepts, and that it accepts none twice *)
(* ===================================================================== *)

Module PickFacts.

Import GoStrings GoFloat Services CollectorFacts Picks.

Lemma mapRead_insert (movieSet : gmap string bool) (k k' : string) :
  mapRead (<[k := true]> movieSet) k' = true ↔ k = k' ∨ mapRead movieSet k' = true.
Proof.
  unfold mapRead. destruct (decide (k = k')) as [-> | Hne].
  - rewrite lookup_insert_eq. simpl. tauto.
  - rewrite lookup_insert_ne by done. split; [by right|]. by intros [?|?].
Qed.

Lemma mapRead_empty (k : string) : mapRead ∅ k = false.
Proof. unfold mapRead. by rewrite lookup_empty. Qed.

Lemma briefs_app (picked more : list Pick) :
  briefs (picked ++ more) = briefs picked ++ briefs more.
Proof. apply map_app. Qed.

Lemma hitIDs_app (picked more : list Pick) :
  hitIDs (picked ++ more) = hitIDs picked ++ hitIDs more.
Proof. apply map_app. Qed.

Section Pick.

Context (lib : GoLib) {W : Type} (up : Upstream W).

Lemma seenAll_accept (movieSet : gmap string bool) (picked : list Pick) (p : Pick) :
  seenAll movieSet picked →
  seenAll (<[SearchResult.ImdbID (hit p) := true]> movieSet) (picked ++ [p]).
Proof.
  intros Hseen id. rewrite hitIDs_app, elem_of_app, mapRead_insert.
  intros [Hin | Hin]; [right; by apply Hseen|].
  left. simpl in Hin. by apply list_elem_of_singleton in Hin.
Qed.

Lemma NoDup_accept (movieSet : gmap string bool) (picked : list Pick) (p : Pick) :
  seenAll movieSet picked → NoDup (hitIDs picked) →
  mapRead movieSet (SearchResult.ImdbID (hit p)) = false →
  NoDup (hitIDs (picked ++ [p])).
Proof.
  intros Hseen Hnodup Hnew. rewrite hitIDs_app. apply NoDup_app. split_and!; [done | | ].
  - intros id Hin Hp. simpl in Hp. apply list_elem_of_singleton in Hp as ->.
    apply Hseen in Hin. congruence.
  - simpl. apply NoDup_singleton.
Qed.

Lemma GetMovieByTitle_Ok (t : string) (st st' : State) (movieDetails : OMDbResponse.t) :
  GetMovieByTitle up t st = (Ok movieDetails, st') →
  ∃ w', title up (world st) t = (w', Decoded movieDetails) ∧
        String.eqb (OMDbResponse.Response movieDetails) "False" = false.
Proof.
  unfold GetMovieByTitle, makeRequest.
  destruct (title up (world st) t) as [w f].
  destruct f as [e|e|e|r]; try discriminate.
  destruct (String.eqb _ _) eqn:Hresponse; [discriminate|].
  intros [= <- _]. by exists w.
Qed.

Lemma SearchMovies_Ok (q : string) (page : Z) (st st' : State) (searchResp : SearchResponse.t) :
  SearchMovies up q page st = (Ok searchResp, st') →
  ∃ w', search up (world st) q (if (0 <? page)%Z then Some page else None)
        = (w', Decoded searchResp).
Proof.
  unfold SearchMovies.
  destruct (search up (world st) q _) as [w f].
  destruct f as [e|e|e|r]; try discriminate.
  intros [= <- _]. by exists w.
Qed.

(** *** [getMoviesExcluding] *)

Lemma excludingResults_picks (searchTerm searchType excludeTitle : string) (limit : Z)
    (results : list SearchResult.t) :
  ∀ (picked : list Pick) (movieSet : gmap string bool) (st st' : State) flow,
    NoDup (hitIDs picked) → seenAll movieSet picked →
    excludingResults lib up searchTerm searchType excludeTitle limit results
      (briefs picked) movieSet st = (flow, st') →
    ∃ more : list Pick,
      Forall (λ p, hit p ∈ results ∧ facetPick lib up searchTerm searchType excludeTitle p) more ∧
      NoDup (hitIDs (picked ++ more)) ∧
      match flow with
      | Next (movies', movieSet') =>
          movies' = briefs (picked ++ more) ∧ seenAll movieSet' (picked ++ more)
      | Return (movies', _) => movies' = briefs (picked ++ more)
      end.
Proof.
  induction results as [|result rest IH]; intros picked movieSet st st' flow Hnodup Hseen; simpl.
  - intros [= <- <-]. exists []. rewrite app_nil_r. by split_and!.
  - assert (Hskip : ∀ st1 flow,
      excludingResults lib up searchTerm searchType excludeTitle limit rest
        (briefs picked) movieSet st1 = (flow, st') →
      ∃ more : list Pick,
        Forall (λ p, hit p ∈ result :: rest ∧
                     facetPick lib up searchTerm searchType excludeTitle p) more ∧
        NoDup (hitIDs (picked ++ more)) ∧
        match flow with
        | Next (movies', movieSet') =>
            movies' = briefs (picked ++ more) ∧ seenAll movieSet' (picked ++ more)
        | Return (movies', _) => movies' = briefs (picked ++ more)
        end).
    { intros st1 flow' Hrun. apply IH in Hrun as (more & Hmore & ? & ?); [|done..].
      exists more. split_and!; [|done..].
      eapply Forall_impl; [exact Hmore|]. intros p [Hin Hp]. split; [by right | done]. }
    destruct (mapRead movieSet (SearchResult.ImdbID result)) eqn:Hnew; simpl; [by apply Hskip|].
    destruct (EqualFold lib (SearchResult.Title result) excludeTitle) eqn:Hfold;
      [by apply Hskip|].
    unfold mbind, M_bind at 1.
    destruct (GetMovieByTitle up (SearchResult.Title result) st) as [got st1] eqn:Hget.
    destruct got as [movieDetails|err]; [|by apply Hskip].
    apply GetMovieByTitle_Ok in Hget as (w1 & Hget & Hresponse).
    rewrite Hresponse.
    destruct (facetMatches lib searchType searchTerm movieDetails) eqn:Hmatches;
      [|by apply Hskip].
    destruct (gt (ratingOf lib (OMDbResponse.ImdbRating movieDetails)) zero) eqn:Hpos;
      [|by apply Hskip].
    set (p := mkPick result movieDetails).
    assert (Hp : hit p ∈ result :: rest ∧ facetPick lib up searchTerm searchType excludeTitle p).
    { split; [by left|]. split_and!; [|done..]. by exists (world st), w1. }
    change (briefs picked ++ [briefOf movieDetails]) with (briefs picked ++ briefs [p]).
    rewrite <- briefs_app.
    pose proof (NoDup_accept movieSet picked p Hseen Hnodup Hnew) as Hnodup'.
    pose proof (seenAll_accept movieSet picked p Hseen) as Hseen'.
    destruct (limit <=? len (briefs (picked ++ [p])))%Z.
    + intros [= <- <-]. exists [p]. split_and!; [by constructor | done | done].
    + intros Hrun. apply IH in Hrun as (more & Hmore & Hnodup2 & Hflow); [|done..].
      exists (p :: more). rewrite (assoc_L _ picked [p] more : picked ++ p :: more = _).
      split_and!; [|done..].
      constructor; [done|].
      eapply Forall_impl; [exact Hmore|]. intros q [Hin Hq]. split; [by right | done].
Qed.

Lemma excludingPages_picks (searchTerm searchType excludeTitle : string) (limit : Z)
    (pages : list Z) :
  ∀ (picked : list Pick) (movieSet : gmap string bool) (st st' : State)
    (movies' : list MovieBrief.t) (err : option string),
    NoDup (hitIDs picked) → seenAll movieSet picked →
    excludingPages lib up searchTerm searchType excludeTitle limit pages
      (briefs picked) movieSet st = ((movies', err), st') →
    ∃ more : list Pick,
      Forall (λ p, foundBy up searchTerm p ∧
                   facetPick lib up searchTerm searchType excludeTitle p) more ∧
      NoDup (hitIDs (picked ++ more)) ∧
      movies' = briefs (picked ++ more).
Proof.
  induction pages as [|page rest IH]; intros picked movieSet st st' movies' err Hnodup Hseen;
    simpl.
  - intros [= <- <- <-]. exists []. rewrite app_nil_r. by split_and!.
  - unfold mbind, M_bind at 1.
    destruct (SearchMovies up searchTerm page st) as [got st1] eqn:Hsearch.
    destruct got as [searchResp|e]; [|by apply IH].
    apply SearchMovies_Ok in Hsearch as (w1 & Hsearch).
    destruct (String.eqb (SearchResponse.Response searchResp) "False") eqn:Hresponse;
      [by apply IH|].
    unfold mbind, M_bind at 1.
    destruct (excludingResults _ _ _ _ _ _ _ _ _ st1) as [flow st2] eqn:Hresults.
    apply excludingResults_picks in Hresults as (more1 & Hmore1 & Hnodup1 & Hflow); [|done..].
    assert (Hfound : Forall (λ p, foundBy up searchTerm p ∧
                       facetPick lib up searchTerm searchType excludeTitle p) more1).
    { eapply Forall_impl; [exact Hmore1|]. intros p [Hin Hp]. split; [|done].
      by exists (world st), (if (0 <? page)%Z then Some page else None), w1, searchResp. }
    destruct flow as [[movies1 movieSet1]|[movies1 err1]].
    + destruct Hflow as [-> Hseen1]. intros Hrun.
      apply IH in Hrun as (more2 & Hmore2 & Hnodup2 & ->); [|done..].
      exists (more1 ++ more2). rewrite app_assoc. split_and!; [|done..].
      by apply Forall_app.
    + subst movies1. intros [= <- <- <-]. by exists more1.
Qed.

(** X3: what one call of [getMoviesExcluding] returns: the briefs of search
    hits with pairwise distinct identifiers, each found by a search of
    the term, not titled like the excluded film, and looked up to a
    record that passes the test of the facet and is rated above zero. *)
Theorem getMoviesExcluding_accepts_no_hit_twice
    (searchTerm searchType excludeTitle : string) (limit : Z) (st : State) :
  ∃ picked : list Pick,
    (getMoviesExcluding lib up searchTerm searchType excludeTitle limit st).1.1
      = briefs picked ∧
    NoDup (hitIDs picked) ∧
    Forall (λ p, foundBy up searchTerm p ∧
                 facetPick lib up searchTerm searchType excludeTitle p) picked.
Proof.
  unfold getMoviesExcluding.
  destruct (excludingPages _ _ _ _ _ _ _ _ _ st) as [[movies err] st'] eqn:Hrun.
  apply (excludingPages_picks _ _ _ _ _ []) in Hrun as (more & Hmore & Hnodup & ->).
  - by exists more.
  - constructor.
  - intros id Hin. by apply elem_of_nil in Hin.
Qed.

(** *** [GetMoviesByGenre] *)

Lemma genreResults_picks (genre : string) (limit : Z) (results : list SearchResult.t) :
  ∀ (picked : list Pick) (movieSet movieSet' : gmap string bool) (st st' : State)
    (allMovies' : list MovieBrief.t),
    NoDup (hitIDs picked) → seenAll movieSet picked →
    genreResults lib up genre limit results (briefs picked) movieSet st
      = ((allMovies', movieSet'), st') →
    ∃ more : list Pick,
      Forall (λ p, hit p ∈ results ∧ genrePick lib up genre p) more ∧
      NoDup (hitIDs (picked ++ more)) ∧
      allMovies' = briefs (picked ++ more) ∧ seenAll movieSet' (picked ++ more).
Proof.
  induction results as [|result rest IH];
    intros picked movieSet movieSet' st st' allMovies' Hnodup Hseen; simpl.
  - intros [= <- <- <-]. exists []. rewrite app_nil_r. by split_and!.
  - assert (Hskip : ∀ st1,
      genreResults lib up genre limit rest (briefs picked) movieSet st1
        = ((allMovies', movieSet'), st') →
      ∃ more : list Pick,
        Forall (λ p, hit p ∈ result :: rest ∧ genrePick lib up genre p) more ∧
        NoDup (hitIDs (picked ++ more)) ∧
        allMovies' = briefs (picked ++ more) ∧ seenAll movieSet' (picked ++ more)).
    { intros st1 Hrun. apply IH in Hrun as (more & Hmore & ? & ? & ?); [|done..].
      exists more. split_and!; [|done..].
      eapply Forall_impl; [exact Hmore|]. intros p [Hin Hp]. split; [by right | done]. }
    destruct (mapRead movieSet (SearchResult.ImdbID result)) eqn:Hnew; [by apply Hskip|].
    unfold mbind, M_bind at 1.
    destruct (GetMovieByTitle up (SearchResult.Title result) st) as [got st1] eqn:Hget.
    destruct got as [movieDetails|err]; [|by apply Hskip].
    apply GetMovieByTitle_Ok in Hget as (w1 & Hget & Hresponse).
    rewrite Hresponse.
    destruct (Contains _ _) eqn:Hmatches; [|by apply Hskip].
    destruct (gt (ratingOf lib (OMDbResponse.ImdbRating movieDetails)) zero) eqn:Hpos;
      [|by apply Hskip].
    set (p := mkPick result movieDetails).
    assert (Hp : hit p ∈ result :: rest ∧ genrePick lib up genre p).
    { split; [by left|]. split_and!; [|done..]. by exists (world st), w1. }
    change (briefs picked ++ [briefOf movieDetails]) with (briefs picked ++ briefs [p]).
    rewrite <- briefs_app.
    pose proof (NoDup_accept movieSet picked p Hseen Hnodup Hnew) as Hnodup'.
    pose proof (seenAll_accept movieSet picked p Hseen) as Hseen'.
    destruct (_ <=? _)%Z.
    + intros [= <- <- <-]. exists [p]. split_and!; [by constructor | done..].
    + intros Hrun. apply IH in Hrun as (more & Hmore & Hnodup2 & -> & Hseen2); [|done..].
      exists (p :: more). rewrite (assoc_L _ picked [p] more : picked ++ p :: more = _).
      split_and!; [|done..].
      constructor; [done|].
      eapply Forall_impl; [exact Hmore|]. intros q [Hin Hq]. split; [by right | done].
Qed.

Lemma genrePages_picks (genre : string) (limit : Z) (term : string) (pages : list Z) :
  ∀ (picked : list Pick) (movieSet movieSet' : gmap string bool) (st st' : State)
    (allMovies' : list MovieBrief.t),
    NoDup (hitIDs picked) → seenAll movieSet picked →
    genrePages lib up genre limit term pages (briefs picked) movieSet st
      = ((allMovies', movieSet'), st') →
    ∃ more : list Pick,
      Forall (λ p, foundBy up term p ∧ genrePick lib up genre p) more ∧
      NoDup (hitIDs (picked ++ more)) ∧
      allMovies' = briefs (picked ++ more) ∧ seenAll movieSet' (picked ++ more).
Proof.
  induction pages as [|page rest IH];
    intros picked movieSet movieSet' st st' allMovies' Hnodup Hseen; simpl.
  - intros [= <- <- <-]. exists []. rewrite app_nil_r. by split_and!.
  - unfold mbind, M_bind at 1.
    destruct (SearchMovies up term page st) as [got st1] eqn:Hsearch.
    destruct got as [searchResp|e]; [|by apply IH].
    apply SearchMovies_Ok in Hsearch as (w1 & Hsearch).
    destruct (String.eqb (SearchResponse.Response searchResp) "False") eqn:Hresponse;
      [by apply IH|].
    unfold mbind, M_bind at 1.
    destruct (genreResults _ _ _ _ _ _ _ st1) as [[allMovies1 movieSet1] st2] eqn:Hresults.
    apply genreResults_picks in Hresults as (more1 & Hmore1 & Hnodup1 & -> & Hseen1);
      [|done..].
    intros Hrun. apply IH in Hrun as (more2 & Hmore2 & Hnodup2 & -> & Hseen2); [|done..].
    exists (more1 ++ more2). rewrite app_assoc. split_and!; [|done..].
    apply Forall_app. split; [|done].
    eapply Forall_impl; [exact Hmore1|]. intros p [Hin Hp]. split; [|done].
    by exists (world st), (if (0 <? page)%Z then Some page else None), w1, searchResp.
Qed.

Lemma genreTermsLoop_picks (genre : string) (limit : Z) (searchTerms : list string) :
  ∀ (picked : list Pick) (movieSet movieSet' : gmap string bool) (st st' : State)
    (allMovies' : list MovieBrief.t),
    NoDup (hitIDs picked) → seenAll movieSet picked →
    genreTermsLoop lib up genre limit searchTerms (briefs picked) movieSet st
      = ((allMovies', movieSet'), st') →
    ∃ more : list Pick,
      Forall (λ p, (∃ term, term ∈ searchTerms ∧ foundBy up term p) ∧
                   genrePick lib up genre p) more ∧
      NoDup (hitIDs (picked ++ more)) ∧
      allMovies' = briefs (picked ++ more).
Proof.
  induction searchTerms as [|term rest IH];
    intros picked movieSet movieSet' st st' allMovies' Hnodup Hseen; cbn [genreTermsLoop].
  - intros [= <- <- <-]. exists []. rewrite app_nil_r. by split_and!.
  - destruct (_ <=? _)%Z.
    { intros [= <- <- <-]. exists []. rewrite app_nil_r. by split_and!. }
    unfold mbind, M_bind at 1.
    destruct (genrePages _ _ _ _ _ _ _ _ st) as [[allMovies1 movieSet1] st1] eqn:Hpages.
    apply genrePages_picks in Hpages as (more1 & Hmore1 & Hnodup1 & -> & Hseen1); [|done..].
    intros Hrun. apply IH in Hrun as (more2 & Hmore2 & Hnodup2 & ->); [|done..].
    exists (more1 ++ more2). rewrite app_assoc. split_and!; [|done..].
    apply Forall_app. split.
    + eapply Forall_impl; [exact Hmore1|]. intros p [Hin Hp]. split; [|done].
      exists term. split; [by left | done].
    + eapply Forall_impl; [exact Hmore2|]. intros p [(t & Hin & Hfound) Hp]. split; [|done].
      exists t. split; [by right | done].
Qed.

(** X4: what [GetMoviesByGenre] returns, whenever it returns: the briefs of
    search hits with pairwise distinct identifiers (one set of seen
    identifiers serves all terms and pages), each found by a search of
    one of the expanded terms and looked up to a record whose genre text
    contains the requested genre, case folded, and that is rated above
    zero. *)
Theorem GetMoviesByGenre_lists_no_hit_twice (genre : string) (limit : Z) (st : State) :
  match (GetMoviesByGenre lib up genre limit st).1 with
  | Returned (movies, _) =>
      ∃ picked : list Pick,
        movies = briefs picked ∧
        NoDup (hitIDs picked) ∧
        Forall (λ p, (∃ term, term ∈ getGenreSearchTerms lib genre ∧ foundBy up term p) ∧
                     genrePick lib up genre p) picked
  | Panicked _ => True
  end.
Proof.
  unfold GetMoviesByGenre, collectByGenre, mbind, M_bind.
  destruct (genreTermsLoop _ _ _ _ _ _ _ st) as [[allMovies movieSet] st1] eqn:Hloop.
  apply (genreTermsLoop_picks _ _ _ []) in Hloop as (picked & Hpicked & Hnodup & ->);
    [|constructor | by intros id Hin; apply elem_of_nil in Hin].
  rewrite app_nil_l in *.
  pose proof (SortPermutation.Slice_Permutation (ratingLess lib) (briefs picked)) as Hperm.
  unfold briefs in Hperm at 2.
  apply Permutation_map_inv in Hperm as (ranked & Hranked & Hsame).
  fold (briefs ranked) in Hranked. unfold mret, M_ret. rewrite Hranked.
  assert (Hkept : ∀ n, ∃ kept : list Pick,
            take n (briefs ranked) = briefs kept ∧ NoDup (hitIDs kept) ∧
            Forall (λ p, (∃ term, term ∈ getGenreSearchTerms lib genre ∧ foundBy up term p) ∧
                         genrePick lib up genre p) kept).
  { intros n. exists (take n ranked). split_and!.
    - unfold briefs. by rewrite firstn_map.
    - unfold hitIDs. rewrite <- firstn_map.
      eapply sublist_NoDup; [|apply sublist_take].
      fold (hitIDs ranked). unfold hitIDs. by rewrite <- Hsame.
    - apply Forall_take. by rewrite <- Hsame. }
  destruct (limit <? len (briefs ranked))%Z; [destruct (limit <? 0)%Z; [done|]|]; cbn [fst].
  - apply Hkept.
  - destruct (Hkept (length (briefs ranked))) as (kept & Hk & ?).
    rewrite firstn_all in Hk. by exists kept.
Qed.

End Pick.

End PickFacts.

(* ===================================================================== *)
(** ** The requests that the operations send *)
(* ===================================================================== *)

Module TrafficFacts.

Import GoStrings GoFloat Services CollectorFacts Traffic.

Lemma searchesOf_app (reqs reqs' : list Request) :
  searchesOf (reqs ++ reqs') = searchesOf reqs ++ searchesOf reqs'.
Proof. apply omap_app. Qed.

Lemma lookupsOf_app (reqs reqs' : list Request) :
  lookupsOf (reqs ++ reqs') = lookupsOf reqs ++ lookupsOf reqs'.
Proof. apply omap_app. Qed.

Lemma searchesOf_lookups (titles : list string) :
  searchesOf (map TitleRequest titles) = [].
Proof. by induction titles. Qed.

Lemma lookupsOf_lookups (titles : list string) :
  lookupsOf (map TitleRequest titles) = titles.
Proof. induction titles as [|t titles IH]; [done|]. simpl. by f_equal. Qed.

Section Sent.

Context (lib : GoLib) {W : Type} (up : Upstream W).

(** *** [getMoviesExcluding] *)

(** The loop over the hits of a page sends title lookups only, one at
    least for each brief it appends, and it returns from the function
    only with the limit reached. *)
Lemma excludingResults_traffic (searchTerm searchType excludeTitle : string) (limit : Z)
    (results : list SearchResult.t) :
  ∀ (movies : list MovieBrief.t) (movieSet : gmap string bool) (st st' : State) flow,
    excludingResults lib up searchTerm searchType excludeTitle limit results movies movieSet st
      = (flow, st') →
    ∃ titles : list string,
      requests st' = requests st ++ map TitleRequest titles ∧
      length titles ≤ length results ∧
      match flow with
      | Next (movies', _) => length movies' ≤ length movies + length titles
      | Return (movies', _) =>
          length movies' ≤ length movies + length titles ∧ (limit <= len movies')%Z
      end.
Proof.
  induction results as [|result rest IH]; intros movies movieSet st st' flow; simpl.
  - intros [= <- <-]. exists []. rewrite app_nil_r. split_and!; [done | done | lia].
  - assert (Hskip : ∀ flow,
      excludingResults lib up searchTerm searchType excludeTitle limit rest movies movieSet st
        = (flow, st') →
      ∃ titles : list string,
        requests st' = requests st ++ map TitleRequest titles ∧
        length titles ≤ S (length rest) ∧
        match flow with
        | Next (movies', _) => length movies' ≤ length movies + length titles
        | Return (movies', _) =>
            length movies' ≤ length movies + length titles ∧ (limit <= len movies')%Z
        end).
    { intros flow' Hrun. apply IH in Hrun as (titles & ? & ? & ?).
      exists titles. split_and!; [done | lia | done]. }
    destruct (mapRead movieSet (SearchResult.ImdbID result)); simpl; [by apply Hskip|].
    destruct (EqualFold lib (SearchResult.Title result) excludeTitle); [by apply Hskip|].
    unfold mbind, M_bind at 1.
    destruct (GetMovieByTitle up (SearchResult.Title result) st) as [got st1] eqn:Hget.
    apply GetMovieByTitle_requests in Hget.
    assert (Hnext : ∀ movies1 movieSet1 flow,
      length movies1 ≤ S (length movies) →
      excludingResults lib up searchTerm searchType excludeTitle limit rest movies1 movieSet1 st1
        = (flow, st') →
      ∃ titles : list string,
        requests st' = requests st ++ map TitleRequest titles ∧
        length titles ≤ S (length rest) ∧
        match flow with
        | Next (movies', _) => length movies' ≤ length movies + length titles
        | Return (movies', _) =>
            length movies' ≤ length movies + length titles ∧ (limit <= len movies')%Z
        end).
    { intros movies1 movieSet1 flow' Hlen Hrun.
      apply IH in Hrun as (titles & Hreq & Hcount & Hflow).
      exists (SearchResult.Title result :: titles).
      rewrite Hreq, Hget, <- app_assoc. simpl.
      split_and!; [done | lia |].
      destruct flow' as [[movies' set']|[movies' err]]; lia. }
    assert (Hsame : ∀ flow,
      excludingResults lib up searchTerm searchType excludeTitle limit rest movies movieSet st1
        = (flow, st') → _) by (intros flow'; apply Hnext; lia).
    destruct got as [movieDetails|err]; [|by apply Hsame].
    destruct (String.eqb (OMDbResponse.Response movieDetails) "False"); [by apply Hsame|].
    destruct (facetMatches lib searchType searchTerm movieDetails); [|by apply Hsame].
    destruct (gt (ratingOf lib (OMDbResponse.ImdbRating movieDetails)) zero);
      [|by apply Hsame].
    destruct (limit <=? len (movies ++ [briefOf movieDetails]))%Z eqn:Hfull.
    + intros [= <- <-]. exists [SearchResult.Title result].
      rewrite Hget. apply Z.leb_le in Hfull.
      rewrite length_app in *. simpl. split_and!; [done | lia | lia | done].
    + apply Hnext. rewrite length_app. simpl. lia.
Qed.

(** The loop over the pages searches them in order and stops early only
    with the limit reached. *)
Lemma excludingPages_traffic (searchTerm searchType excludeTitle : string) (limit : Z)
    (pages : list Z) :
  Forall (λ page, (0 < page)%Z) pages →
  ∀ (movies : list MovieBrief.t) (movieSet : gmap string bool) (st st' : State)
    (movies' : list MovieBrief.t) (err : option string),
    excludingPages lib up searchTerm searchType excludeTitle limit pages movies movieSet st
      = ((movies', err), st') →
    ∃ (sent : list Request) (k : nat),
      requests st' = requests st ++ sent ∧
      searchesOf sent = pagesOf searchTerm (take k pages) ∧
      (k = length pages ∨ 1 ≤ k < length pages ∧ (limit <= len movies')%Z) ∧
      length movies' ≤ length movies + length (lookupsOf sent).
Proof.
  induction 1 as [|page rest Hpage Hrest IH]; intros movies movieSet st st' movies' err; simpl.
  - intros [= <- <- <-]. exists [], 0. rewrite app_nil_r. split_and!; [done | done | by left | lia].
  - unfold mbind, M_bind at 1.
    destruct (SearchMovies up searchTerm page st) as [got st1] eqn:Hsearch.
    apply SearchMovies_requests in Hsearch.
    rewrite (proj2 (Z.ltb_lt 0 page) Hpage) in Hsearch.
    assert (Hnext : ∀ st2 movies2 movieSet2 titles,
      requests st2 = requests st1 ++ map TitleRequest titles →
      length movies2 ≤ length movies + length titles →
      excludingPages lib up searchTerm searchType excludeTitle limit rest movies2 movieSet2 st2
        = (movies', err, st') →
      ∃ (sent : list Request) (k : nat),
        requests st' = requests st ++ sent ∧
        searchesOf sent = pagesOf searchTerm (take k (page :: rest)) ∧
        (k = S (length rest) ∨ 1 ≤ k < S (length rest) ∧ (limit <= len movies')%Z) ∧
        length movies' ≤ length movies + length (lookupsOf sent)).
    { intros st2 movies2 movieSet2 titles Hreq2 Hlen2 Hrun.
      apply IH in Hrun as (sent & k & Hreq & Hsearches & Hk & Hlen).
      exists (SearchRequest searchTerm (Some page) :: map TitleRequest titles ++ sent), (S k).
      rewrite Hreq, Hreq2, Hsearch, <- !app_assoc. simpl.
      rewrite searchesOf_app, lookupsOf_app, searchesOf_lookups, lookupsOf_lookups, Hsearches.
      rewrite length_app. split_and!; [done | done | lia | lia]. }
    assert (Hstay : excludingPages lib up searchTerm searchType excludeTitle limit rest
                      movies movieSet st1 = (movies', err, st') → _)
      by (apply (Hnext st1 movies movieSet []); [by rewrite app_nil_r | simpl; lia]).
    destruct got as [searchResp|e]; [|exact Hstay].
    destruct (String.eqb (SearchResponse.Response searchResp) "False"); [exact Hstay|].
    unfold mbind, M_bind at 1.
    destruct (excludingResults _ _ _ _ _ _ _ _ _ st1) as [flow st2] eqn:Hresults.
    apply excludingResults_traffic in Hresults as (titles & Hreq2 & _ & Hflow).
    destruct flow as [[movies2 movieSet2]|[movies2 err2]].
    + apply (Hnext st2 movies2 movieSet2 titles); [done | lia].
    + intros [= <- <- <-].
      exists (SearchRequest searchTerm (Some page) :: map TitleRequest titles), 1.
      rewrite Hreq2, Hsearch, <- !app_assoc. simpl.
      rewrite searchesOf_lookups, lookupsOf_lookups, ?take_0.
      split_and!; [done | done | | lia].
      destruct rest as [|page2 rest]; [by left | right]. simpl. split; [lia | tauto].
Qed.

(** X5: one call of [getMoviesExcluding] searches page 1 of its term, then
    page 2 unless the limit was reached on page 1, and nothing else; and
    every brief it returns has cost a title lookup. *)
Theorem getMoviesExcluding_searches_two_pages
    (searchTerm searchType excludeTitle : string) (limit : Z) (st : State) :
  let '(movies, _, st') :=
    getMoviesExcluding lib up searchTerm searchType excludeTitle limit st in
  ∃ sent : list Request,
    requests st' = requests st ++ sent ∧
    (searchesOf sent = [(searchTerm, Some 1%Z); (searchTerm, Some 2%Z)] ∨
     searchesOf sent = [(searchTerm, Some 1%Z)] ∧ (limit <= len movies)%Z) ∧
    length movies ≤ length (lookupsOf sent).
Proof.
  unfold getMoviesExcluding.
  destruct (excludingPages _ _ _ _ _ _ _ _ _ st) as [[movies err] st'] eqn:Hrun.
  apply excludingPages_traffic in Hrun as (sent & k & Hreq & Hsearches & Hk & Hlen);
    [|repeat constructor; lia].
  exists sent. split_and!; [done | | simpl in Hlen; lia].
  simpl in Hk. destruct Hk as [-> | [Hk Hfull]]; [by left|].
  right. by replace k with 1 in Hsearches by lia.
Qed.

(** *** [GetMoviesByGenre] *)

Lemma genreResults_traffic (genre : string) (limit : Z) (results : list SearchResult.t) :
  ∀ (allMovies allMovies' : list MovieBrief.t) (movieSet movieSet' : gmap string bool)
    (st st' : State),
    genreResults lib up genre limit results allMovies movieSet st
      = ((allMovies', movieSet'), st') →
    ∃ titles : list string,
      requests st' = requests st ++ map TitleRequest titles ∧
      length titles ≤ length results.
Proof.
  induction results as [|result rest IH]; intros allMovies allMovies' movieSet movieSet' st st';
    simpl.
  - intros [= <- <- <-]. exists []. by rewrite app_nil_r.
  - assert (Hskip :
      genreResults lib up genre limit rest allMovies movieSet st
        = ((allMovies', movieSet'), st') →
      ∃ titles : list string,
        requests st' = requests st ++ map TitleRequest titles ∧
        length titles ≤ S (length rest)).
    { intros Hrun. apply IH in Hrun as (titles & ? & ?). exists titles. split; [done | lia]. }
    destruct (mapRead movieSet (SearchResult.ImdbID result)); [exact Hskip|].
    unfold mbind, M_bind at 1.
    destruct (GetMovieByTitle up (SearchResult.Title result) st) as [got st1] eqn:Hget.
    apply GetMovieByTitle_requests in Hget.
    assert (Hnext : ∀ allMovies1 movieSet1,
      genreResults lib up genre limit rest allMovies1 movieSet1 st1
        = ((allMovies', movieSet'), st') →
      ∃ titles : list string,
        requests st' = requests st ++ map TitleRequest titles ∧
        length titles ≤ S (length rest)).
    { intros allMovies1 movieSet1 Hrun. apply IH in Hrun as (titles & Hreq & Hcount).
      exists (SearchResult.Title result :: titles).
      rewrite Hreq, Hget, <- app_assoc. simpl. split; [done | lia]. }
    destruct got as [movieDetails|err]; [|by apply Hnext].
    destruct (String.eqb (OMDbResponse.Response movieDetails) "False"); [by apply Hnext|].
    destruct (Contains _ _); [|by apply Hnext].
    destruct (gt (ratingOf lib (OMDbResponse.ImdbRating movieDetails)) zero); [|by apply Hnext].
    destruct (_ <=? _)%Z; [|by apply Hnext].
    intros [= <- <- <-]. exists [SearchResult.Title result].
    rewrite Hget. simpl. split; [done | lia].
Qed.

(** The loop over the pages of a term searches every one of them. *)
Lemma genrePages_traffic (genre : string) (limit : Z) (term : string) (pages : list Z) :
  Forall (λ page, (0 < page)%Z) pages →
  ∀ (allMovies allMovies' : list MovieBrief.t) (movieSet movieSet' : gmap string bool)
    (st st' : State),
    genrePages lib up genre limit term pages allMovies movieSet st
      = ((allMovies', movieSet'), st') →
    ∃ sent : list Request,
      requests st' = requests st ++ sent ∧
      searchesOf sent = pagesOf term pages.
Proof.
  induction 1 as [|page rest Hpage Hrest IH];
    intros allMovies allMovies' movieSet movieSet' st st'; simpl.
  - intros [= <- <- <-]. exists []. by rewrite app_nil_r.
  - unfold mbind, M_bind at 1.
    destruct (SearchMovies up term page st) as [got st1] eqn:Hsearch.
    apply SearchMovies_requests in Hsearch.
    rewrite (proj2 (Z.ltb_lt 0 page) Hpage) in Hsearch.
    assert (Hnext : ∀ st2 allMovies2 movieSet2 titles,
      requests st2 = requests st1 ++ map TitleRequest titles →
      genrePages lib up genre limit term rest allMovies2 movieSet2 st2
        = ((allMovies', movieSet'), st') →
      ∃ sent : list Request,
        requests st' = requests st ++ sent ∧
        searchesOf sent = pagesOf term (page :: rest)).
    { intros st2 allMovies2 movieSet2 titles Hreq2 Hrun.
      apply IH in Hrun as (sent & Hreq & Hsearches).
      exists (SearchRequest term (Some page) :: map TitleRequest titles ++ sent).
      rewrite Hreq, Hreq2, Hsearch, <- !app_assoc. simpl.
      by rewrite searchesOf_app, searchesOf_lookups, Hsearches. }
    assert (Hstay : genrePages lib up genre limit term rest allMovies movieSet st1
                    = ((allMovies', movieSet'), st') → _)
      by (apply (Hnext st1 allMovies movieSet []); by rewrite app_nil_r).
    destruct got as [searchResp|e]; [|exact Hstay].
    destruct (String.eqb (SearchResponse.Response searchResp) "False"); [exact Hstay|].
    unfold mbind, M_bind at 1.
    destruct (genreResults _ _ _ _ _ _ _ st1) as [[allMovies1 movieSet1] st2] eqn:Hresults.
    apply genreResults_traffic in Hresults as (titles & Hreq2 & _).
    by apply (Hnext st2 allMovies1 movieSet1 titles).
Qed.

Lemma genreTermsLoop_traffic (genre : string) (limit : Z) (searchTerms : list string) :
  ∀ (allMovies allMovies' : list MovieBrief.t) (movieSet movieSet' : gmap string bool)
    (st st' : State),
    genreTermsLoop lib up genre limit searchTerms allMovies movieSet st
      = ((allMovies', movieSet'), st') →
    ∃ (sent : list Request) (k : nat),
      requests st' = requests st ++ sent ∧
      searchesOf sent
        = flat_map (λ term, pagesOf term [1; 2; 3]%Z) (take k searchTerms) ∧
      (k = length searchTerms ∨
       k < length searchTerms ∧ (wrapInt (limit * 2) <= len allMovies')%Z) ∧
      (k = 0 → allMovies' = allMovies ∧ sent = []).
Proof.
  induction searchTerms as [|term rest IH];
    intros allMovies allMovies' movieSet movieSet' st st'; cbn [genreTermsLoop].
  - intros [= <- <- <-]. exists [], 0. rewrite app_nil_r. split_and!; [done | done | by left | done].
  - destruct (_ <=? _)%Z eqn:Hfull.
    { intros [= <- <- <-]. exists [], 0. rewrite app_nil_r. apply Z.leb_le in Hfull.
      split_and!; [done | done | | done]. right. simpl. split; [lia | done]. }
    unfold mbind, M_bind at 1.
    destruct (genrePages _ _ _ _ _ _ _ _ st) as [[allMovies1 movieSet1] st1] eqn:Hpages.
    apply genrePages_traffic in Hpages as (sent1 & Hreq1 & Hsearches1);
      [|repeat constructor; lia].
    intros Hrun. apply IH in Hrun as (sent & k & Hreq & Hsearches & Hk & _).
    exists (sent1 ++ sent), (S k).
    rewrite Hreq, Hreq1, <- app_assoc, searchesOf_app, Hsearches1, Hsearches.
    split_and!; [done | done | simpl; lia | lia].
Qed.

Lemma getGenreSearchTerms_length (genre : string) :
  length (getGenreSearchTerms lib genre) ≤ 5.
Proof.
  unfold getGenreSearchTerms.
  destruct (genreTerms !! ToLower lib genre) as [terms|] eqn:Hk; [|simpl; lia].
  unfold genreTerms in Hk. apply elem_of_list_to_map_2 in Hk.
  repeat (apply elem_of_cons in Hk as [Hk | Hk]; [inversion Hk; simpl; lia |]).
  by apply elem_of_nil in Hk.
Qed.

Lemma flat_map_pages_length (terms : list string) :
  length (flat_map (λ term, pagesOf term [1; 2; 3]%Z) terms) = 3 * length terms.
Proof. induction terms as [|term terms IH]; simpl in *; lia. Qed.

(** X6: [GetMoviesByGenre] searches its expanded terms in order, the three
    pages of one term after those of the term before, up to some term.
    It stops before the last term only when the number collected has
    reached [limit * 2] as a Go [int] holds it, wrapped around; for a
    limit from -2^62 up to, but not including, 2^62 that is twice the
    limit.  So it sends at most 15 searches, always a multiple of
    three. *)
Theorem GetMoviesByGenre_searches_whole_terms (genre : string) (limit : Z) (st : State) :
  let '(collected, st') := collectByGenre lib up genre limit st in
  let searchTerms := getGenreSearchTerms lib genre in
  (GetMoviesByGenre lib up genre limit st).2 = st' ∧
  ∃ (sent : list Request) (k : nat),
    requests st' = requests st ++ sent ∧
    searchesOf sent = flat_map (λ term, pagesOf term [1; 2; 3]%Z) (take k searchTerms) ∧
    (k = length searchTerms ∨
     k < length searchTerms ∧ (wrapInt (limit * 2) <= len collected)%Z) ∧
    ((- 2 ^ 62 <= limit < 2 ^ 62)%Z → k < length searchTerms →
     (2 * limit <= len collected)%Z) ∧
    length (searchesOf sent) = 3 * Nat.min k (length searchTerms) ∧
    length (searchesOf sent) ≤ 15.
Proof.
  destruct (collectByGenre lib up genre limit st) as [collected st'] eqn:Hcollect.
  intros searchTerms. split.
  { unfold GetMoviesByGenre, mbind, M_bind. rewrite Hcollect.
    destruct (_ <? _)%Z; [destruct (_ <? _)%Z|]; done. }
  revert Hcollect. unfold collectByGenre, mbind, M_bind.
  destruct (genreTermsLoop _ _ _ _ _ _ _ st) as [[allMovies movieSet] st1] eqn:Hloop.
  intros [= <- <-].
  apply genreTermsLoop_traffic in Hloop as (sent & k & Hreq & Hsearches & Hk & _).
  fold searchTerms in Hsearches, Hk.
  exists sent, k. rewrite Hsearches, flat_map_pages_length, length_take.
  pose proof (getGenreSearchTerms_length genre) as Hfive. fold searchTerms in Hfive.
  split_and!; [done | done | done | | done | lia].
  intros Hlimit Hshort. destruct Hk as [-> | [_ Hfull]]; [lia|].
  rewrite wrapInt_small in Hfull; lia.
Qed.

(** X7: with a limit of zero or less [GetMoviesByGenre] sends nothing: the
    loop over the terms is left at once, with nothing collected, and
    the answer is the empty list, or the panic of the re-slice when the
    limit is negative. *)
Theorem GetMoviesByGenre_without_limit_sends_nothing (genre : string) (limit : Z)
    (st : State) :
  (- 2 ^ 62 <= limit <= 0)%Z →
  GetMoviesByGenre lib up genre limit st
  = (if (limit <? 0)%Z
     then Panicked "runtime error: slice bounds out of range"
     else Returned ([], None), st).
Proof.
  intros Hlimit.
  assert (Hcollect : collectByGenre lib up genre limit st = ([], st)).
  { unfold collectByGenre, mbind, M_bind.
    pose proof (ExpanderFacts.genreTerms_nonempty) as Hnonempty.
    unfold getGenreSearchTerms.
    destruct (genreTerms !! ToLower lib genre) as [[|term terms]|] eqn:Hk;
      [by apply Hnonempty in Hk | |];
      cbn [genreTermsLoop];
      rewrite wrapInt_small by lia;
      by rewrite (proj2 (Z.leb_le (limit * 2) (len (@nil MovieBrief.t))))
        by (unfold len; simpl; lia). }
  unfold GetMoviesByGenre, mbind, M_bind. rewrite Hcollect.
  rewrite (SortOrder.Slice_short (ratingLess lib) []) by (simpl; lia).
  change (GoSort.insertionSort_func (ratingLess lib) [] 0 (length [])) with (@nil MovieBrief.t).
  change (len (@nil MovieBrief.t)) with 0%Z.
  destruct (limit <? 0)%Z eqn:Hneg; [done|].
  apply Z.ltb_ge in Hneg. by replace limit with 0%Z by lia.
Qed.

End Sent.

End TrafficFacts.

(* ===================================================================== *)
(** ** The recommendation operation and the two engine handlers *)
(* ===================================================================== *)

Module AnswerFacts.

Import GoStrings GoFloat Services CollectorFacts Traffic TrafficFacts RankedFacts Scenarios.

Section Answer.

Context (lib : GoLib) {W : Type} (up : Upstream W).

Lemma getMoviesExcluding_traffic (searchTerm searchType excludeTitle : string) (limit : Z)
    (st st' : State) (movies : list MovieBrief.t) (err : option string) :
  getMoviesExcluding lib up searchTerm searchType excludeTitle limit st = ((movies, err), st') →
  ∃ sent : list Request,
    requests st' = requests st ++ sent ∧ 1 ≤ length (searchesOf sent) ≤ 2.
Proof.
  unfold getMoviesExcluding. intros Hrun.
  apply excludingPages_traffic in Hrun as (sent & k & Hreq & Hsearches & Hk & _);
    [|repeat constructor; lia].
  exists sent. split; [done|]. rewrite Hsearches. unfold pagesOf.
  rewrite length_map, length_take. simpl in *. lia.
Qed.

(** A loop over the names of a facet sends at most two searches for
    each name. *)
Lemma facetLoop_traffic (searchType excludeTitle : string) (names : list string) :
  ∀ (based based' : list MovieBrief.t) (st st' : State),
    facetLoop lib up searchType excludeTitle names based st = (based', st') →
    ∃ sent : list Request,
      requests st' = requests st ++ sent ∧
      length (searchesOf sent) ≤ 2 * length names.
Proof.
  induction names as [|name rest IH]; intros based based' st st'; simpl.
  - intros [= <- <-]. exists []. by rewrite app_nil_r.
  - destruct (20 <=? len based)%Z.
    { intros [= <- <-]. exists []. rewrite app_nil_r. split; [done | simpl; lia]. }
    unfold mbind, M_bind at 1.
    destruct (getMoviesExcluding _ _ _ _ _ _ st) as [[movies err] st1] eqn:Hcall.
    apply getMoviesExcluding_traffic in Hcall as (sent1 & Hreq1 & Hcount1).
    assert (Hnext : ∀ based1,
      facetLoop lib up searchType excludeTitle rest based1 st1 = (based', st') →
      ∃ sent : list Request,
        requests st' = requests st ++ sent ∧
        length (searchesOf sent) ≤ 2 * S (length rest)).
    { intros based1 Hrun. apply IH in Hrun as (sent & Hreq & Hcount).
      exists (sent1 ++ sent). rewrite Hreq, Hreq1, <- app_assoc, searchesOf_app, length_app.
      split; [done | lia]. }
    destruct err; apply Hnext.
Qed.

Lemma take_min_three (actors : list string) :
  take (Z.to_nat (min 3 (len actors))) actors = take 3 actors.
Proof.
  unfold min, len. destruct (3 <? Z.of_nat (length actors))%Z eqn:Hlong; [done|].
  apply Z.ltb_ge in Hlong. rewrite Nat2Z.id.
  rewrite !take_ge by lia. done.
Qed.

(** X8: the requests of [GetRecommendations]: the seed lookup comes first,
    and is the only one when it fails; after it, every search is one of
    at most two for a genre name, a director name or one of the first
    three actor names of the seed, and every title lookup is for a hit
    not titled like the seed. *)
Theorem GetRecommendations_requests (favoriteMovie : string) (st : State) :
  let '(got, st') := GetRecommendations lib up favoriteMovie st in
  ∃ sent : list Request,
    requests st' = requests st ++ TitleRequest favoriteMovie :: sent ∧
    match got with
    | Err _ => sent = []
    | Ok r =>
        ∃ (w1 : W) (movieDetails : OMDbResponse.t),
          title up (world st) favoriteMovie = (w1, Decoded movieDetails) ∧
          RecommendationsResponse.FavoriteMovie r = OMDbResponse.Title movieDetails ∧
          let names :=
            Split (OMDbResponse.Genre movieDetails) ", " ++
            Split (OMDbResponse.Director movieDetails) ", " ++
            take 3 (Split (OMDbResponse.Actors movieDetails) ", ") in
          Forall (λ r, ∃ name, name ∈ names ∧
                               sentFor lib name (OMDbResponse.Title movieDetails) r) sent ∧
          length (searchesOf sent) ≤ 2 * length names
    end.
Proof.
  destruct (GetRecommendations_cases lib up favoriteMovie st)
    as [(w1 & movieDetails & Hseed & Hresponse) | (w1 & _ & ->)];
    [|by exists []].
  destruct (RecommendationFacts.GetRecommendations_unfold lib up favoriteMovie st w1
              movieDetails Hseed Hresponse)
    as (byGenre & byDirector & byActor & st2 & st3 & st4 & Hg & Hd & Ha & ->).
  rewrite take_min_three in Ha.
  pose proof Hg as Hg'. pose proof Hd as Hd'. pose proof Ha as Ha'.
  apply facetLoop_traffic in Hg' as (sentG & HreqG & HcountG).
  apply facetLoop_traffic in Hd' as (sentD & HreqD & HcountD).
  apply facetLoop_traffic in Ha' as (sentA & HreqA & HcountA).
  apply facetLoop_spec in Hg as (? & sentG' & _ & _ & _ & HreqG' & HsentG); [|done].
  apply facetLoop_spec in Hd as (? & sentD' & _ & _ & _ & HreqD' & HsentD); [|done].
  apply facetLoop_spec in Ha as (? & sentA' & _ & _ & _ & HreqA' & HsentA); [|done].
  rewrite HreqG in HreqG'. apply app_inv_head in HreqG' as <-.
  rewrite HreqD in HreqD'. apply app_inv_head in HreqD' as <-.
  rewrite HreqA in HreqA'. apply app_inv_head in HreqA' as <-.
  exists (sentG ++ sentD ++ sentA). split.
  { rewrite HreqA, HreqD, HreqG. simpl. by rewrite <- !app_assoc. }
  exists w1, movieDetails. split; [done|]. split; [done|]. cbv zeta. split.
  - rewrite !Forall_app. split_and!.
    + eapply Forall_impl; [exact HsentG|]. intros r (n & Hin & Hr).
      exists n. split; [|done]. rewrite !elem_of_app. auto.
    + eapply Forall_impl; [exact HsentD|]. intros r (n & Hin & Hr).
      exists n. split; [|done]. rewrite !elem_of_app. auto.
    + eapply Forall_impl; [exact HsentA|]. intros r (n & Hin & Hr).
      exists n. split; [|done]. rewrite !elem_of_app. auto.
  - rewrite !searchesOf_app, !length_app. lia.
Qed.

(** *** The handlers *)

(** X9: the genre handler: without a genre it answers 400 and sends
    nothing; otherwise it never panics and never answers 500, but
    answers 404, or 200 with between 1 and 15 candidates, sorted, and
    their number as the count. *)
Theorem genre_handler_answers (genre : string) (st : State) :
  let '(out, st') := Handlers.GetMoviesByGenre lib up genre st in
  if String.eqb genre "" then
    out = Returned (Handlers.errorReply 400 "Bad Request" "Genre query parameter is required") ∧
    st' = st
  else
    out = Returned (Handlers.errorReply 404 "Not Found"
                      ("No movies found for genre: " +:+ genre)) ∨
    ∃ movies : list MovieBrief.t,
      out = Returned (Handlers.mkReply 200
                        (Handlers.GenreMoviesPayload genre movies (len movies))) ∧
      (1 <= len movies <= 15)%Z ∧
      Forall (candidate lib up) movies ∧
      nonIncreasing lib movies.
Proof.
  unfold Handlers.GetMoviesByGenre.
  destruct (String.eqb genre ""); [done|].
  unfold mbind, M_bind.
  destruct (GetMoviesByGenre lib up genre 15 st) as [out st'] eqn:Hcall.
  destruct out as [[movies err]|message].
  - pose proof (GetMoviesByGenre_returns_sorted lib up genre 15 st st' movies err Hcall)
      as Hsorted.
    apply GetMoviesByGenre_spec in Hcall as (-> & Hall & Hcap).
    destruct (len movies =? 0)%Z eqn:Hnone; [by left | right].
    apply Z.eqb_neq in Hnone. exists movies. split_and!; [done | | by apply Hcap | done..].
    unfold len in *. lia.
  - revert Hcall. unfold GetMoviesByGenre, mbind, M_bind.
    destruct (collectByGenre lib up genre 15 st) as [allMovies st1].
    change (15 <? 0)%Z with false.
    destruct (15 <? len _)%Z; discriminate.
Qed.

(** X10: the recommendation handler: without a favorite movie it answers
    400 and sends nothing; otherwise it answers 200 exactly when the
    upstream sends a record for the seed that is not an error record,
    and 404 in every other case, a transport failure included; it never
    answers 500. *)
Theorem recommendation_handler_answers (favoriteMovie : string) (st : State) :
  let '(reply, st') := Handlers.GetRecommendations lib up favoriteMovie st in
  if String.eqb favoriteMovie "" then
    reply = Handlers.errorReply 400 "Bad Request" "favorite_movie query parameter is required" ∧
    st' = st
  else
    let notFound :=
      Handlers.errorReply 404 "Not Found" ("Favorite movie not found: " +:+ favoriteMovie) in
    match (title up (world st) favoriteMovie).2 with
    | Decoded movieDetails =>
        if String.eqb (OMDbResponse.Response movieDetails) "False" then reply = notFound
        else ∃ lists : RecommendationsByCategory.t,
               reply = Handlers.mkReply 200
                         (Handlers.RecommendationsPayload
                            (RecommendationsResponse.mk (OMDbResponse.Title movieDetails) lists))
    | _ => reply = notFound
    end.
Proof.
  unfold Handlers.GetRecommendations.
  destruct (String.eqb favoriteMovie ""); [done|].
  unfold mbind, M_bind.
  destruct (GetRecommendations_cases lib up favoriteMovie st)
    as [(w1 & movieDetails & Hseed & Hresponse) | (w1 & Hw & Hrun)].
  - destruct (RecommendationFacts.GetRecommendations_unfold lib up favoriteMovie st w1
                movieDetails Hseed Hresponse)
      as (byGenre & byDirector & byActor & st2 & st3 & st4 & _ & _ & _ & ->).
    rewrite Hseed. simpl. rewrite Hresponse. by eexists.
  - rewrite Hrun. rewrite RecommendationFacts.not_found_in_message.
    destruct (title up (world st) favoriteMovie).2 as [e|e|e|movieDetails]; try done.
    by rewrite Hw.
Qed.

End Answer.

End AnswerFacts.

(* ===================================================================== *)
(** ** Numbers in and out: [strconv.Atoi] and [strconv.Itoa] *)
(* ===================================================================== *)

Module StrconvFacts.

Import GoStrconv.

Lemma digitOf_digitChar (d : Z) :
  (0 <= d <= 9)%Z → GoFloat.digitOf (digitChar d) = Some d.
Proof.
  intros Hd.
  assert (d = 0 ∨ d = 1 ∨ d = 2 ∨ d = 3 ∨ d = 4 ∨ d = 5 ∨ d = 6 ∨ d = 7 ∨ d = 8 ∨ d = 9)%Z
    as Hcases by lia.
  repeat (destruct Hcases as [-> | Hcases]; [reflexivity|]). by subst.
Qed.

Lemma maxUint64_value : maxUint64 = 18446744073709551615%Z.
Proof. reflexivity. Qed.

Lemma cutoff64_value : cutoff64 = 1844674407370955162%Z.
Proof. reflexivity. Qed.

Lemma scanUint_digit (d n : Z) (s : string) :
  (0 <= d <= 9)%Z → (0 <= n)%Z → (n * 10 + d <= maxUint64)%Z →
  scanUint (String (digitChar d) s) n = scanUint s (n * 10 + d).
Proof.
  intros Hd Hn Hmax. cbn [scanUint]. rewrite digitOf_digitChar by done.
  rewrite maxUint64_value in *. rewrite cutoff64_value.
  rewrite (proj2 (Z.leb_gt _ _)) by lia.
  by rewrite (proj2 (Z.ltb_ge _ _)) by lia.
Qed.

(** Reading back the digits that [formatBits] has written. *)
Lemma scanUint_formatBits (rounds : nat) :
  ∀ (u : Z) (acc : string) (n : Z),
    (0 <= u < 10 ^ Z.of_nat rounds)%Z → (0 <= n)%Z →
    ∃ p : Z, (0 < p)%Z ∧
      ((n * p + u <= maxUint64)%Z →
       scanUint (formatBits rounds u acc) n = scanUint acc (n * p + u)).
Proof.
  induction rounds as [|rounds IH]; intros u acc n Hu Hn.
  - exists 1%Z. split; [lia|]. intros _. simpl in *.
    by replace (n * 1 + u)%Z with n by lia.
  - cbn [formatBits]. destruct (u <? 10)%Z eqn:Hsmall.
    + apply Z.ltb_lt in Hsmall. exists 10%Z. split; [lia|]. intros Hmax.
      apply scanUint_digit; lia.
    + apply Z.ltb_ge in Hsmall.
      assert (Hdiv : (0 <= u / 10 < 10 ^ Z.of_nat rounds)%Z).
      { split; [apply Z.div_pos; lia|].
        apply Z.div_lt_upper_bound; [lia|].
        rewrite Nat2Z.inj_succ, Z.pow_succ_r in Hu by lia. lia. }
      destruct (IH (u / 10)%Z (String (digitChar (u mod 10)) acc) n Hdiv Hn)
        as (p & Hp & Hread).
      exists (p * 10)%Z. split; [lia|]. intros Hmax.
      pose proof (Z.div_mod u 10 ltac:(lia)) as Hsplit.
      pose proof (Z.mod_pos_bound u 10 ltac:(lia)) as Hdigit.
      rewrite Hread by nia.
      rewrite scanUint_digit by nia.
      f_equal. lia.
Qed.

Lemma formatBits_startsWithDigit (rounds : nat) :
  ∀ (u : Z) (acc : string),
    (0 <= u)%Z → rounds ≠ 0 ∨ startsWithDigit acc →
    startsWithDigit (formatBits rounds u acc).
Proof.
  induction rounds as [|rounds IH]; intros u acc Hu Hstart.
  - by destruct Hstart.
  - cbn [formatBits]. destruct (u <? 10)%Z eqn:Hsmall.
    + apply Z.ltb_lt in Hsmall. simpl. by rewrite digitOf_digitChar by lia.
    + apply IH; [apply Z.div_pos; lia|]. right. simpl.
      pose proof (Z.mod_pos_bound u 10 ltac:(lia)).
      by rewrite digitOf_digitChar by lia.
Qed.

Lemma digit_is_no_sign (c : ascii) :
  GoFloat.digitOf c ≠ None → Ascii.eqb c "-" = false ∧ Ascii.eqb c "+" = false.
Proof.
  intros Hdigit. split.
  - destruct (Ascii.eqb_spec c "-") as [-> |]; [|done]. by destruct Hdigit.
  - destruct (Ascii.eqb_spec c "+") as [-> |]; [|done]. by destruct Hdigit.
Qed.

Lemma twenty_digits (u : Z) : (0 <= u <= 2 ^ 63)%Z → (0 <= u < 10 ^ Z.of_nat 20)%Z.
Proof. intros Hu. change (10 ^ Z.of_nat 20)%Z with 100000000000000000000%Z. lia. Qed.

Lemma ParseUint_formatBits (u : Z) :
  (0 <= u <= 2 ^ 63)%Z → ParseUint (formatBits 20 u "") = inl u.
Proof.
  intros Hu.
  pose proof (formatBits_startsWithDigit 20 u "" ltac:(lia) ltac:(by left)) as Hstart.
  destruct (scanUint_formatBits 20 u "" 0 (twenty_digits u Hu) ltac:(lia)) as (p & Hp & Hread).
  unfold ParseUint. destruct (formatBits 20 u "") as [|c s]; [done|].
  rewrite Hread; [done|]. rewrite maxUint64_value. lia.
Qed.

(** Every [int] comes back from its decimal form. *)
Lemma Atoi_Itoa (i : Z) : isInt i → Atoi (Itoa i) = inl i.
Proof.
  unfold isInt. intros Hi. unfold Atoi, Itoa.
  destruct (i <? 0)%Z eqn:Hneg.
  - apply Z.ltb_lt in Hneg. unfold ParseInt.
    change (Ascii.eqb "-" "-") with true. change (Ascii.eqb "-" "+") with false.
    cbv iota beta zeta. simpl orb. cbv iota.
    rewrite ParseUint_formatBits by lia.
    simpl negb. simpl andb.
    rewrite (proj2 (Z.ltb_ge _ _)) by lia.
    f_equal. lia.
  - apply Z.ltb_ge in Hneg.
    pose proof (formatBits_startsWithDigit 20 i "" ltac:(lia) ltac:(by left)) as Hstart.
    pose proof (ParseUint_formatBits i ltac:(lia)) as Hread.
    unfold ParseInt. destruct (formatBits 20 i "") as [|c s]; [done|].
    simpl in Hstart. destruct (digit_is_no_sign c Hstart) as [-> ->].
    cbv iota beta zeta. simpl orb. cbv iota. rewrite Hread.
    simpl negb. simpl andb.
    by rewrite (proj2 (Z.leb_gt _ _)) by lia.
Qed.

(** What [Atoi] accepts is an [int]. *)
Lemma scanUint_bound (s : string) :
  ∀ n u : Z, (0 <= n)%Z → scanUint s n = inl u → (0 <= u <= maxUint64)%Z ∨ u = n.
Proof.
  induction s as [|c s IH]; intros n u Hn; simpl.
  - intros [= <-]. by right.
  - destruct (GoFloat.digitOf c) as [d|] eqn:Hdigit; [|discriminate].
    destruct (cutoff64 <=? n)%Z; [discriminate|].
    destruct (maxUint64 <? n * 10 + d)%Z eqn:Hmax; [discriminate|].
    apply Z.ltb_ge in Hmax.
    assert (0 <= d)%Z.
    { unfold GoFloat.digitOf in Hdigit. destruct (_ && _); [|discriminate].
      injection Hdigit as <-. lia. }
    intros Hrun. apply IH in Hrun; [|lia].
    destruct Hrun as [Hu | ->]; [by left | left; lia].
Qed.

Lemma Atoi_isInt (s : string) (i : Z) : Atoi s = inl i → isInt i.
Proof.
  unfold Atoi, ParseInt, isInt. destruct s as [|c rest]; [discriminate|].
  cbv zeta.
  destruct (ParseUint _) as [un|e] eqn:Hparse; [|discriminate].
  assert (0 <= un)%Z as Hun.
  { revert Hparse. unfold ParseUint.
    match goal with |- context [match ?body with EmptyString => _ | _ => _ end] =>
      destruct body as [|c' s'] end; [discriminate|].
    intros Hscan. apply scanUint_bound in Hscan; [|lia]. destruct Hscan as [? | ->]; lia. }
  destruct (Ascii.eqb c "-"); simpl.
  - destruct (2 ^ 63 <? un)%Z eqn:Hbig; [discriminate|].
    apply Z.ltb_ge in Hbig. intros [= <-]. lia.
  - destruct (2 ^ 63 <=? un)%Z eqn:Hbig; [discriminate|].
    apply Z.leb_gt in Hbig. intros [= <-]. lia.
Qed.

End StrconvFacts.

(* ===================================================================== *)
(** ** The detail handlers *)
(* ===================================================================== *)

Module DetailFacts.

Import GoStrings GoStrconv GoURL Lookups DetailHandlers StrconvFacts.

(** A string that contains [a ++ b] contains [b]. *)
Lemma prefix_Contains (a b s : string) :
  String.prefix (a +:+ b) s = true → Contains s b = true.
Proof.
  revert s. induction a as [|c a IH]; intros s.
  - change ("" +:+ b) with b. intros Hprefix.
    destruct s; cbn [Contains]; by rewrite Hprefix.
  - change (String c a +:+ b) with (String c (a +:+ b)).
    destruct s as [|c' s]; [done|]. cbn [String.prefix].
    destruct (Ascii.ascii_dec c c') as [-> | Hne]; [|done].
    intros Hprefix. apply IH in Hprefix. cbn [Contains]. rewrite Hprefix.
    by rewrite orb_true_r.
Qed.

Lemma Contains_longer (a b s : string) :
  Contains s (a +:+ b) = true → Contains s b = true.
Proof.
  induction s as [|c s IH]; cbn [Contains]; intros [Hhere | Hlater]%orb_true_iff.
  - by apply (prefix_Contains a b "").
  - done.
  - by apply (prefix_Contains a b (String c s)).
  - cbn [Contains] in IH. rewrite (IH Hlater). by rewrite orb_true_r.
Qed.

(** The second test of the handlers decides nothing: whatever contains
    "Movie not found" or "Episode not found" contains "not found". *)
Lemma not_found_tests (err : string) :
  Contains err "not found" || Contains err "Movie not found" = Contains err "not found" ∧
  Contains err "not found" || Contains err "Episode not found" = Contains err "not found".
Proof.
  split.
  - destruct (Contains err "not found") eqn:Hshort; [done|]. simpl.
    destruct (Contains err "Movie not found") eqn:Hlong; [|done].
    apply (Contains_longer "Movie " "not found") in Hlong. congruence.
  - destruct (Contains err "not found") eqn:Hshort; [done|]. simpl.
    destruct (Contains err "Episode not found") eqn:Hlong; [|done].
    apply (Contains_longer "Episode " "not found") in Hlong. congruence.
Qed.

(** None of the four openings that [makeRequest] puts before a cause
    adds a "not found" of its own. *)
Lemma openings_decide_nothing (cause : string) :
  Contains ("failed to make request: " +:+ cause) "not found" = Contains cause "not found" ∧
  Contains ("failed to read response: " +:+ cause) "not found" = Contains cause "not found" ∧
  Contains ("failed to parse response: " +:+ cause) "not found" = Contains cause "not found" ∧
  Contains ("OMDb API error: " +:+ cause) "not found" = Contains cause "not found".
Proof. split_and!; reflexivity. Qed.

Lemma Add_fresh (v : Values) (key value : string) :
  v !! key = None → Add v key value = <[key := [value]]> v.
Proof. intros Hfresh. unfold Add. by rewrite Hfresh. Qed.

Section Detail.

Context (APIKey : string) {W : Type} (catalog : Catalog W).

(** The engine's title lookup, against the upstream that a catalog
    gives, returns the engine's part of what [GetMovieByTitle] returns
    here. *)
Lemma GetMovieByTitle_trim (searches : W → string → option Z → W * Fetch SearchResponse.t)
    (t : string) (w : W) (log : list Request) (queries : list Values) :
  (Services.GetMovieByTitle (asUpstream APIKey catalog searches) t
     (Services.mkState w log)).1
  = mapResult OMDbFull.trim (GetMovieByTitle APIKey catalog t (mkState w queries)).1.
Proof.
  unfold Services.GetMovieByTitle, Services.makeRequest, GetMovieByTitle, makeRequest. simpl.
  destruct (get catalog w (titleParams APIKey t)) as [w' got].
  destruct got as [e|e|e|r]; simpl; try done.
  by destruct (String.eqb (OMDbFull.Response r) "False").
Qed.

(** X11: the movie handler: without a title it answers 400 and sends
    nothing; otherwise it sends the one query [apikey], [t], [plot], and
    answers 200 with seven fields of the record, or, when the lookup
    fails, 404 if the cause (the upstream's error text, or the text of
    the transport, read or parse failure) contains "not found", and 500
    with the whole message if it does not. *)
Theorem movie_handler_answers (title : string) (st : State) :
  let '(reply, st') := GetMovieDetails APIKey catalog title st in
  if String.eqb title "" then
    reply = errorReply 400 "Bad Request" "Title query parameter is required" ∧ st' = st
  else
    let failed (opening cause : string) :=
      if Contains cause "not found"
      then errorReply 404 "Not Found" ("Movie not found: " +:+ title)
      else errorReply 500 "Internal Server Error"
             ("Failed to fetch movie details: " +:+ opening +:+ cause) in
    sent st' = sent st ++ [titleParams APIKey title] ∧
    match (get catalog (world st) (titleParams APIKey title)).2 with
    | RequestFailed e => reply = failed "failed to make request: " e
    | ReadFailed e => reply = failed "failed to read response: " e
    | ParseFailed e => reply = failed "failed to parse response: " e
    | Decoded movieData =>
        if String.eqb (OMDbFull.Response movieData) "False"
        then reply = failed "OMDb API error: " (OMDbFull.Error movieData)
        else reply = mkReply 200
               (MovieDetailsPayload
                  (MovieDetailsResponse.mk
                     (OMDbFull.Title movieData) (OMDbFull.Year movieData)
                     (OMDbFull.Plot movieData) (OMDbFull.Country movieData)
                     (OMDbFull.Awards movieData) (OMDbFull.Director movieData)
                     (OMDbFull.Ratings movieData)))
    end.
Proof.
  unfold GetMovieDetails. destruct (String.eqb title ""); [done|].
  unfold GetMovieByTitle, makeRequest.
  destruct (get catalog (world st) (titleParams APIKey title)) as [w got].
  cbv zeta. cbn [snd].
  assert (Hfailed : ∀ (opening cause : string) (st' : State (W:=W)),
    Contains (opening +:+ cause) "not found" = Contains cause "not found" →
    (if Contains (opening +:+ cause) "not found"
        || Contains (opening +:+ cause) "Movie not found"
     then (errorReply Handlers.StatusNotFound "Not Found" ("Movie not found: " +:+ title), st')
     else (errorReply Handlers.StatusInternalServerError "Internal Server Error"
             ("Failed to fetch movie details: " +:+ (opening +:+ cause)), st'))
    = (if Contains cause "not found"
       then errorReply 404 "Not Found" ("Movie not found: " +:+ title)
       else errorReply 500 "Internal Server Error"
              ("Failed to fetch movie details: " +:+ opening +:+ cause), st')).
  { intros opening cause st' Hopening.
    rewrite (proj1 (not_found_tests _)), Hopening.
    by destruct (Contains cause "not found"). }
  destruct got as [e|e|e|movieData].
  - rewrite Hfailed by apply openings_decide_nothing. done.
  - rewrite Hfailed by apply openings_decide_nothing. done.
  - rewrite Hfailed by apply openings_decide_nothing. done.
  - destruct (String.eqb (OMDbFull.Response movieData) "False"); [|done].
    rewrite Hfailed by apply openings_decide_nothing. done.
Qed.

(** X12: the episode handler, before it asks: a missing parameter is
    answered 400, then a season that is no integer, then an episode
    number that is none, each without a request; otherwise one query is
    sent, with [apikey], the series title as [t], no [plot], and a
    [Season] and an [Episode] that read back, by [Atoi], as the numbers
    that the two parameters stand for. *)
Theorem episode_handler_asks_with_the_numbers
    (seriesTitle seasonStr episodeStr : string) (st : State) :
  let '(reply, st') := GetEpisodeDetails APIKey catalog seriesTitle seasonStr episodeStr st in
  if String.eqb seriesTitle "" || String.eqb seasonStr "" || String.eqb episodeStr "" then
    reply = errorReply 400 "Bad Request"
              "series_title, season, and episode_number query parameters are required" ∧
    st' = st
  else
    match Atoi seasonStr, Atoi episodeStr with
    | inr _, _ =>
        reply = errorReply 400 "Bad Request" "Season must be a valid integer" ∧ st' = st
    | inl _, inr _ =>
        reply = errorReply 400 "Bad Request" "Episode number must be a valid integer" ∧
        st' = st
    | inl season, inl episode =>
        ∃ params : Values,
          sent st' = sent st ++ [params] ∧
          params !! "apikey" = Some [APIKey] ∧
          params !! "t" = Some [seriesTitle] ∧
          params !! "plot" = None ∧
          Atoi (Get params "Season") = inl season ∧
          Atoi (Get params "Episode") = inl episode ∧
          status reply ≠ 400%Z
    end.
Proof.
  unfold GetEpisodeDetails.
  destruct (String.eqb seriesTitle "" || String.eqb seasonStr "" || String.eqb episodeStr "");
    [done|].
  destruct (Atoi seasonStr) as [season|e1] eqn:Hseason; [|done].
  destruct (Atoi episodeStr) as [episode|e2] eqn:Hepisode; [|done].
  apply Atoi_isInt in Hseason. apply Atoi_isInt in Hepisode.
  unfold Lookups.GetEpisodeDetails, makeRequest.
  destruct (get catalog (world st) (episodeParams APIKey seriesTitle season episode))
    as [w got].
  assert (Hparams :
    episodeParams APIKey seriesTitle season episode !! "apikey" = Some [APIKey] ∧
    episodeParams APIKey seriesTitle season episode !! "t" = Some [seriesTitle] ∧
    episodeParams APIKey seriesTitle season episode !! "plot" = None ∧
    Get (episodeParams APIKey seriesTitle season episode) "Season" = Itoa season ∧
    Get (episodeParams APIKey seriesTitle season episode) "Episode" = Itoa episode).
  { unfold episodeParams, Get, Add.
    repeat (rewrite ?lookup_insert_eq, ?lookup_empty;
            try rewrite lookup_insert_ne by done).
    simpl. done. }
  destruct Hparams as (Hkey & Ht & Hplot & HgetS & HgetE).
  assert (Hasked : ∀ reply : Reply,
    status reply ≠ 400%Z →
    ∃ params : Values,
      sent st ++ [episodeParams APIKey seriesTitle season episode] = sent st ++ [params] ∧
      params !! "apikey" = Some [APIKey] ∧
      params !! "t" = Some [seriesTitle] ∧
      params !! "plot" = None ∧
      Atoi (Get params "Season") = inl season ∧
      Atoi (Get params "Episode") = inl episode ∧
      status reply ≠ 400%Z).
  { intros reply Hreply. eexists. split_and!; [done | exact Hkey | exact Ht | exact Hplot | | | done].
    - by rewrite HgetS, Atoi_Itoa.
    - by rewrite HgetE, Atoi_Itoa. }
  destruct got as [e|e|e|r]; cbv iota beta zeta;
    [| | |destruct (String.eqb (OMDbFull.Response r) "False"); cbv iota beta zeta];
    try match goal with
        | |- context [if ?b then (_, _) else (_, _)] => destruct b; cbv iota beta zeta
        end;
    by apply Hasked.
Qed.

(** X13: the episode handler, once it has asked: 200 with the fields of the
    record and, as [SeriesTitle], the series title of the request; or,
    when the lookup fails, 404 if the cause contains "not found", and
    500 with the whole message if it does not. *)
Theorem episode_handler_answers (seriesTitle seasonStr episodeStr : string)
    (season episode : Z) (st : State) :
  String.eqb seriesTitle "" || String.eqb seasonStr "" || String.eqb episodeStr "" = false →
  Atoi seasonStr = inl season →
  Atoi episodeStr = inl episode →
  let reply := (GetEpisodeDetails APIKey catalog seriesTitle seasonStr episodeStr st).1 in
  let failed (opening cause : string) :=
    if Contains cause "not found"
    then errorReply 404 "Not Found" "Episode not found for the given parameters"
    else errorReply 500 "Internal Server Error"
           ("Failed to fetch episode details: " +:+ opening +:+ cause) in
  match (get catalog (world st) (episodeParams APIKey seriesTitle season episode)).2 with
  | RequestFailed e => reply = failed "failed to make request: " e
  | ReadFailed e => reply = failed "failed to read response: " e
  | ParseFailed e => reply = failed "failed to parse response: " e
  | Decoded episodeData =>
      if String.eqb (OMDbFull.Response episodeData) "False"
      then reply = failed "OMDb API error: " (OMDbFull.Error episodeData)
      else reply = mkReply 200
             (EpisodeDetailsPayload
                (EpisodeDetailsResponse.mk
                   (OMDbFull.Title episodeData) seriesTitle
                   (OMDbFull.Season episodeData) (OMDbFull.Episode episodeData)
                   (OMDbFull.Year episodeData) (OMDbFull.Plot episodeData)
                   (OMDbFull.Director episodeData) (OMDbFull.Actors episodeData)
                   (OMDbFull.Ratings episodeData) (OMDbFull.ImdbRating episodeData)))
  end.
Proof.
  intros Hgiven Hseason Hepisode. cbv zeta.
  unfold GetEpisodeDetails. rewrite Hgiven, Hseason, Hepisode.
  unfold Lookups.GetEpisodeDetails, makeRequest.
  destruct (get catalog (world st) (episodeParams APIKey seriesTitle season episode))
    as [w got].
  cbn [snd].
  assert (Hfailed : ∀ (opening cause : string) (st' : State (W:=W)),
    Contains (opening +:+ cause) "not found" = Contains cause "not found" →
    (if Contains (opening +:+ cause) "not found"
        || Contains (opening +:+ cause) "Episode not found"
     then (errorReply Handlers.StatusNotFound "Not Found"
             "Episode not found for the given parameters", st')
     else (errorReply Handlers.StatusInternalServerError "Internal Server Error"
             ("Failed to fetch episode details: " +:+ (opening +:+ cause)), st')).1
    = (if Contains cause "not found"
       then errorReply 404 "Not Found" "Episode not found for the given parameters"
       else errorReply 500 "Internal Server Error"
              ("Failed to fetch episode details: " +:+ opening +:+ cause))).
  { intros opening cause st' Hopening.
    rewrite (proj2 (not_found_tests _)), Hopening.
    by destruct (Contains cause "not found"). }
  destruct got as [e|e|e|episodeData].
  - rewrite Hfailed by apply openings_decide_nothing. done.
  - rewrite Hfailed by apply openings_decide_nothing. done.
  - rewrite Hfailed by apply openings_decide_nothing. done.
  - destruct (String.eqb (OMDbFull.Response episodeData) "False"); [|done].
    rewrite Hfailed by apply openings_decide_nothing. done.
Qed.

End Detail.

End DetailFacts.

(* ===================================================================== *)
(** ** How far the genre listing collects; what the Ranker keeps *)
(* ===================================================================== *)

Module CapFacts.

Import GoStrings GoFloat Services CollectorFacts.

Section Cap.

Context (lib : GoLib) {W : Type} (up : Upstream W).

(** The loop over the hits of a page adds one brief beyond the cap at
    most. *)
Lemma genreResults_bound (genre : string) (limit : Z) (results : list SearchResult.t) :
  ∀ (allMovies allMovies' : list MovieBrief.t) (movieSet movieSet' : gmap string bool)
    (st st' : State),
    genreResults lib up genre limit results allMovies movieSet st
      = ((allMovies', movieSet'), st') →
    (len allMovies' <= Z.max (len allMovies + 1) (wrapInt (limit * 2)))%Z.
Proof.
  induction results as [|result rest IH]; intros allMovies allMovies' movieSet movieSet' st st';
    simpl.
  - intros [= <- <- <-]. lia.
  - assert (Hskip : ∀ movieSet1 st1,
      genreResults lib up genre limit rest allMovies movieSet1 st1
        = ((allMovies', movieSet'), st') →
      (len allMovies' <= Z.max (len allMovies + 1) (wrapInt (limit * 2)))%Z)
      by (intros movieSet1 st1; apply IH).
    destruct (mapRead movieSet (SearchResult.ImdbID result)); [by apply Hskip|].
    unfold mbind, M_bind at 1.
    destruct (GetMovieByTitle up (SearchResult.Title result) st) as [got st1].
    destruct got as [movieDetails|err]; [|by apply Hskip].
    destruct (String.eqb (OMDbResponse.Response movieDetails) "False"); [by apply Hskip|].
    destruct (Contains _ _); [|by apply Hskip].
    destruct (gt (ratingOf lib (OMDbResponse.ImdbRating movieDetails)) zero); [|by apply Hskip].
    assert (Hone : len (allMovies ++ [briefOf movieDetails]) = (len allMovies + 1)%Z).
    { unfold len. rewrite length_app. simpl. lia. }
    destruct (_ <=? _)%Z eqn:Hfull.
    + intros [= <- <- <-]. lia.
    + apply Z.leb_gt in Hfull. intros Hrun. apply IH in Hrun. lia.
Qed.

Lemma genrePages_bound (genre : string) (limit : Z) (term : string) (pages : list Z) :
  ∀ (allMovies allMovies' : list MovieBrief.t) (movieSet movieSet' : gmap string bool)
    (st st' : State),
    genrePages lib up genre limit term pages allMovies movieSet st
      = ((allMovies', movieSet'), st') →
    (len allMovies' <= Z.max (len allMovies + len pages)
                             (wrapInt (limit * 2) + len pages - 1))%Z.
Proof.
  induction pages as [|page rest IH];
    intros allMovies allMovies' movieSet movieSet' st st'; simpl.
  - intros [= <- <- <-]. unfold len. simpl. lia.
  - assert (Hlen : len (page :: rest) = (len rest + 1)%Z) by (unfold len; simpl; lia).
    rewrite Hlen.
    unfold mbind, M_bind at 1.
    destruct (SearchMovies up term page st) as [got st1].
    assert (Hstay : genrePages lib up genre limit term rest allMovies movieSet st1
                    = ((allMovies', movieSet'), st') →
                    (len allMovies' <= Z.max (len allMovies + (len rest + 1))
                                             (wrapInt (limit * 2) + (len rest + 1) - 1))%Z)
      by (intros Hrun; apply IH in Hrun; lia).
    destruct got as [searchResp|e]; [|exact Hstay].
    destruct (String.eqb (SearchResponse.Response searchResp) "False"); [exact Hstay|].
    unfold mbind, M_bind at 1.
    destruct (genreResults _ _ _ _ _ _ _ st1) as [[allMovies1 movieSet1] st2] eqn:Hresults.
    apply genreResults_bound in Hresults.
    intros Hrun. apply IH in Hrun. lia.
Qed.

Lemma genreTermsLoop_bound (genre : string) (limit : Z) (searchTerms : list string) :
  ∀ (allMovies allMovies' : list MovieBrief.t) (movieSet movieSet' : gmap string bool)
    (st st' : State),
    genreTermsLoop lib up genre limit searchTerms allMovies movieSet st
      = ((allMovies', movieSet'), st') →
    (len allMovies <= wrapInt (limit * 2) + 2)%Z →
    (len allMovies' <= wrapInt (limit * 2) + 2)%Z.
Proof.
  induction searchTerms as [|term rest IH];
    intros allMovies allMovies' movieSet movieSet' st st'; cbn [genreTermsLoop].
  - by intros [= <- <- <-].
  - destruct (_ <=? _)%Z eqn:Hfull; [by intros [= <- <- <-]|].
    apply Z.leb_gt in Hfull.
    unfold mbind, M_bind at 1.
    destruct (genrePages _ _ _ _ _ _ _ _ st) as [[allMovies1 movieSet1] st1] eqn:Hpages.
    apply genrePages_bound in Hpages. change (len [1; 2; 3]%Z) with 3%Z in Hpages.
    intros Hrun _. apply IH in Hrun; lia.
Qed.

(** X14: however many hits the upstream sends, [GetMoviesByGenre] collects
    at most two briefs more than twice the limit (one on each of the
    two pages that may follow the page on which the cap is reached). *)
Theorem GetMoviesByGenre_collects_cap_and_two (genre : string) (limit : Z) (st : State) :
  (0 <= limit < 2 ^ 62)%Z →
  (len (collectByGenre lib up genre limit st).1 <= 2 * limit + 2)%Z.
Proof.
  intros Hlimit. unfold collectByGenre, mbind, M_bind.
  destruct (genreTermsLoop _ _ _ _ _ _ _ st) as [[allMovies movieSet] st1] eqn:Hloop.
  apply genreTermsLoop_bound in Hloop.
  - rewrite wrapInt_small in Hloop by lia. simpl. lia.
  - rewrite wrapInt_small by lia. unfold len. simpl. lia.
Qed.

(** X15: the Ranker loses nothing, whatever the ratings are, parseable or
    not: [sort.Slice] returns within its rounds, and what it returns is
    a rearrangement of the briefs it was given. *)
Theorem sortMoviesByRating_rearranges (movies : list MovieBrief.t) :
  GoSort.SliceFuel (ratingLess lib) (S (length movies)) movies
    = Some (sortMoviesByRating lib movies) ∧
  sortMoviesByRating lib movies ≡ₚ movies ∧
  len (sortMoviesByRating lib movies) = len movies.
Proof.
  split_and!.
  - apply SortOrder.Slice_total.
  - apply sortMoviesByRating_Permutation.
  - apply sortMoviesByRating_len.
Qed.

End Cap.

End CapFacts.

(* ===================================================================== *)
(** ** Cutting a text at commas *)
(* ===================================================================== *)

Module SplitFacts.

Import GoStrings.

Lemma append_nil_l (b : string) : "" +:+ b = b.
Proof. reflexivity. Qed.

Lemma append_cons (x : ascii) (a b : string) : String x a +:+ b = String x (a +:+ b).
Proof. reflexivity. Qed.

Lemma append_assoc (a b c : string) : (a +:+ b) +:+ c = a +:+ (b +:+ c).
Proof.
  induction a as [|x a IH]; [done|]. rewrite !append_cons. by f_equal.
Qed.

Lemma append_empty_r (a : string) : a +:+ "" = a.
Proof.
  induction a as [|x a IH]; [done|]. rewrite append_cons. by f_equal.
Qed.

Lemma append_length (a b : string) :
  String.length (a +:+ b) = String.length a + String.length b.
Proof.
  induction a as [|x a IH]; [done|]. rewrite append_cons. simpl. by f_equal.
Qed.

Lemma prefix_append (sep s : string) :
  String.prefix sep s = true → ∃ rest, s = sep +:+ rest.
Proof.
  revert s. induction sep as [|c sep IH]; intros s; simpl.
  - intros _. exists s. reflexivity.
  - destruct s as [|c' s]; [done|]. cbn [String.prefix].
    destruct (Ascii.ascii_dec c c') as [-> | Hne]; [|done].
    intros [rest ->]%IH. exists rest. reflexivity.
Qed.

(** The bytes of a separator that has been found are stepped over. *)
Lemma splitFrom_skip (sep : string) (t : string) :
  ∀ (cur rest : string),
    splitFrom sep (String.length t) cur (t +:+ rest) = splitFrom sep 0 cur rest.
Proof.
  induction t as [|c t IH]; intros cur rest; [done|].
  rewrite append_cons. simpl. apply IH.
Qed.

Lemma splitFrom_nonempty (sep : string) (s : string) :
  ∀ (skip : nat) (cur : string), splitFrom sep skip cur s ≠ [].
Proof.
  induction s as [|c s IH]; intros skip cur; cbn [splitFrom]; [done|].
  destruct skip; [|apply IH]. destruct (String.prefix sep (String c s)); [done | apply IH].
Qed.

Lemma concat_cons (sep x : string) (pieces : list string) :
  pieces ≠ [] → String.concat sep (x :: pieces) = x +:+ sep +:+ String.concat sep pieces.
Proof. by destruct pieces. Qed.

Lemma splitFrom_concat (c : ascii) (sep' : string) (n : nat) :
  ∀ (s cur : string),
    String.length s ≤ n →
    String.concat (String c sep') (splitFrom (String c sep') 0 cur s) = cur +:+ s.
Proof.
  induction n as [|n IH]; intros s cur Hlen.
  - destruct s; [|simpl in Hlen; lia]. simpl. by rewrite append_empty_r.
  - destruct s as [|c' s]; [simpl; by rewrite append_empty_r|].
    cbn [splitFrom].
    destruct (String.prefix (String c sep') (String c' s)) eqn:Hprefix.
    + apply prefix_append in Hprefix as [rest Hs].
      rewrite append_cons in Hs. injection Hs as -> ->.
      change (String.length (String c sep') - 1) with (String.length sep' - 0).
      rewrite Nat.sub_0_r, splitFrom_skip.
      rewrite concat_cons by apply splitFrom_nonempty.
      rewrite IH, append_nil_l.
      * by rewrite <- append_cons.
      * simpl in Hlen. rewrite append_length in Hlen. lia.
    + rewrite IH by (simpl in Hlen; lia).
      by rewrite append_assoc.
Qed.

(** X16: the names over which the three facet loops run: cutting a text at
    ", " never gives an empty list, so each loop searches at least once,
    and the pieces, joined again with ", ", are the text. *)
Theorem Split_at_commas (s : string) :
  Split s ", " ≠ [] ∧ String.concat ", " (Split s ", ") = s.
Proof.
  split; [apply splitFrom_nonempty|].
  unfold Split. by rewrite (splitFrom_concat "," " " (String.length s)).
Qed.

End SplitFacts.

(* ===================================================================== *)
(** ** Why a film is recommended *)
(* ===================================================================== *)

Module MatchFacts.

Import GoStrings GoFloat Services CollectorFacts Picks PickFacts RankedFacts.

Section Match.

Context (lib : GoLib) {W : Type} (up : Upstream W).

(** A list of briefs all of which were collected for one of [names]. *)
Lemma facetLoop_picks (searchType excludeTitle : string) (names : list string) :
  ∀ (based based' : list MovieBrief.t) (st st' : State),
    facetLoop lib up searchType excludeTitle names based st = (based', st') →
    ∃ more : list Pick,
      based' = based ++ briefs more ∧
      Forall (collectedFor lib up searchType excludeTitle names) more.
Proof.
  induction names as [|name rest IH]; intros based based' st st'; simpl.
  - intros [= <- <-]. exists []. by rewrite app_nil_r.
  - destruct (20 <=? len based)%Z.
    { intros [= <- <-]. exists []. by rewrite app_nil_r. }
    unfold mbind, M_bind at 1. unfold getMoviesExcluding.
    destruct (excludingPages _ _ _ _ _ _ _ _ _ st) as [[movies err] st1] eqn:Hcall.
    change (@nil MovieBrief.t) with (briefs []) in Hcall.
    apply excludingPages_picks in Hcall as (more1 & Hmore1 & _ & ->);
      [|constructor | by intros id Hin; apply elem_of_nil in Hin].
    rewrite app_nil_l.
    assert (Hwider : ∀ more, Forall (collectedFor lib up searchType excludeTitle rest) more →
                             Forall (collectedFor lib up searchType excludeTitle (name :: rest))
                               more).
    { intros more Hmore. eapply Forall_impl; [exact Hmore|].
      intros p (n & Hin & Hp). exists n. split; [by right | done]. }
    destruct err.
    + intros Hrun. apply IH in Hrun as (more & -> & Hmore). exists more. auto.
    + intros Hrun. apply IH in Hrun as (more & -> & Hmore).
      exists (more1 ++ more). rewrite briefs_app, app_assoc. split; [done|].
      apply Forall_app. split; [|auto].
      eapply Forall_impl; [exact Hmore1|]. intros p Hp. exists name. split; [by left | done].
Qed.

Lemma sortMoviesByRating_picks (P : Pick → Prop) (picked : list Pick) :
  Forall P picked →
  ∃ ranked : list Pick,
    sortMoviesByRating lib (briefs picked) = briefs ranked ∧ Forall P ranked.
Proof.
  intros Hall.
  pose proof (sortMoviesByRating_Permutation lib (briefs picked)) as Hperm.
  unfold briefs in Hperm at 2.
  apply Permutation_map_inv in Hperm as (ranked & Hranked & Hsame).
  exists ranked. split; [done|]. by rewrite <- Hsame.
Qed.

(** X17: why a film is recommended.  In a recommendation result every
    entry of the genre list is the brief of a search hit that was found
    by a search of one of the seed's genre names, is not titled like the
    seed, and was looked up to a record, rated above zero, whose genre
    text contains that name, both lower-cased; likewise for the
    director list and the seed's director names, and for the actor list
    and the first three of the seed's actor names. *)
Theorem recommendations_match_the_seed (favoriteMovie : string) (st : State) :
  match (GetRecommendations lib up favoriteMovie st).1 with
  | Err _ => True
  | Ok r =>
      ∃ (w1 : W) (movieDetails : OMDbResponse.t),
        title up (world st) favoriteMovie = (w1, Decoded movieDetails) ∧
        let seed := OMDbResponse.Title movieDetails in
        let lists := RecommendationsResponse.Recommendations r in
        let listedFor (searchType : string) (names : list string)
                      (movies : list MovieBrief.t) :=
          ∃ picked : list Pick,
            movies = briefs picked ∧
            Forall (collectedFor lib up searchType seed names) picked in
        listedFor "genre" (Split (OMDbResponse.Genre movieDetails) ", ")
          (RecommendationsByCategory.GenreBased lists) ∧
        listedFor "director" (Split (OMDbResponse.Director movieDetails) ", ")
          (RecommendationsByCategory.DirectorBased lists) ∧
        listedFor "actor" (take 3 (Split (OMDbResponse.Actors movieDetails) ", "))
          (RecommendationsByCategory.ActorBased lists)
  end.
Proof.
  destruct (GetRecommendations_cases lib up favoriteMovie st)
    as [(w1 & movieDetails & Hseed & Hresponse) | (w1 & _ & ->)]; [|done].
  destruct (RecommendationFacts.GetRecommendations_unfold lib up favoriteMovie st w1
              movieDetails Hseed Hresponse)
    as (byGenre & byDirector & byActor & st2 & st3 & st4 & Hg & Hd & Ha & ->).
  rewrite AnswerFacts.take_min_three in Ha.
  apply facetLoop_picks in Hg as (pickedG & -> & HallG).
  apply facetLoop_picks in Hd as (pickedD & -> & HallD).
  apply facetLoop_picks in Ha as (pickedA & -> & HallA).
  rewrite !app_nil_l.
  apply sortMoviesByRating_picks in HallG as (rankedG & -> & HallG).
  apply sortMoviesByRating_picks in HallD as (rankedD & -> & HallD).
  apply sortMoviesByRating_picks in HallA as (rankedA & -> & HallA).
  exists w1, movieDetails. split; [done|]. cbv zeta. simpl.
  split_and!; by eexists.
Qed.

End Match.

End MatchFacts.

(* ===================================================================== *)
(** ** The genre facet of a recommendation; which ratings are accepted *)
(* ===================================================================== *)

Module FacetFacts.

Import GoStrings GoFloat Services CollectorFacts Picks PickFacts Traffic TrafficFacts
  MatchFacts Scenarios.

Section Facet.

Context (lib : GoLib) {W : Type} (up : Upstream W).

(** *** The searches of a facet loop *)

Lemma facetLoop_searches (searchType excludeTitle : string) (names : list string) :
  ∀ (based based' : list MovieBrief.t) (st st' : State),
    facetLoop lib up searchType excludeTitle names based st = (based', st') →
    ∃ (sent : list Request) (k : nat) (last : list (string * option Z)),
      requests st' = requests st ++ sent ∧
      searchesOf sent = bothPages (take k names) ++ last ∧
      (last = [] ∧ (k = length names ∨ (20 <= len based')%Z)
       ∨ ∃ name, names !! k = Some name ∧ last = pagesOf name [1%Z] ∧
                 (20 <= len based')%Z) ∧
      ((len based < 20)%Z →
       ∀ name others, names = name :: others →
                      head (searchesOf sent) = Some (name, Some 1%Z)).
Proof.
  induction names as [|name rest IH]; intros based based' st st'; cbn [facetLoop].
  - intros [= <- <-]. exists [], 0, []. rewrite app_nil_r.
    split_and!; [done | done | by left; split; [|left] | done].
  - destruct (20 <=? len based)%Z eqn:Hfull.
    { apply Z.leb_le in Hfull. intros [= <- <-]. exists [], 0, []. rewrite app_nil_r.
      split_and!; [done | done | by left; split; [|right] | lia]. }
    apply Z.leb_gt in Hfull.
    unfold mbind, M_bind at 1.
    destruct (getMoviesExcluding _ _ _ _ _ _ st) as [[movies err] st1] eqn:Hcall.
    rewrite wrapInt_small in Hcall by (unfold len in *; lia).
    pose proof Hcall as Hspec.
    apply getMoviesExcluding_spec in Hspec as (-> & _ & _ & _).
    unfold getMoviesExcluding in Hcall.
    apply excludingPages_traffic in Hcall as (sent1 & j & Hreq1 & Hsearches1 & Hj & _);
      [|repeat constructor; lia].
    intros Hrun.
    assert (Hhead : ∀ sent2, head (searchesOf (sent1 ++ sent2)) = Some (name, Some 1%Z)).
    { intros sent2. rewrite searchesOf_app, Hsearches1.
      destruct j as [|j]; [simpl in Hj; lia | done]. }
    destruct Hj as [-> | [Hj Hlimit]].
    + apply IH in Hrun as (sent2 & k & last & Hreq2 & Hsearches2 & Hlast & _).
      exists (sent1 ++ sent2), (S k), last.
      split_and!.
      * by rewrite Hreq2, Hreq1, <- app_assoc.
      * rewrite searchesOf_app, Hsearches1, Hsearches2. reflexivity.
      * destruct Hlast as [[-> [-> | Hlen]] | (name' & Hname' & -> & Hlen)].
        -- left. split; [done | by left].
        -- left. split; [done | by right].
        -- right. by exists name'.
      * intros _ name0 others [= <- <-]. apply Hhead.
    + assert (j = 1) as -> by (simpl in Hj; lia).
      assert (Hlen : (20 <= len (based ++ movies))%Z).
      { unfold len in *. rewrite length_app. simpl in Hlimit. lia. }
      assert (Hstop : facetLoop lib up searchType excludeTitle rest (based ++ movies) st1
                      = (based ++ movies, st1)).
      { destruct rest as [|name' rest]; [done|]. cbn [facetLoop].
        apply Z.leb_le in Hlen. by rewrite Hlen. }
      rewrite Hstop in Hrun. injection Hrun as <- <-.
      exists sent1, 0, (pagesOf name [1%Z]).
      split_and!.
      * done.
      * by rewrite Hsearches1.
      * right. by exists name.
      * intros _ name0 others [= <- <-]. specialize (Hhead []). by rewrite app_nil_r in Hhead.
Qed.

(** *** The first hit of the first page *)

Lemma excludingResults_first (searchTerm searchType excludeTitle : string) (limit : Z)
    (result : SearchResult.t) (rest : list SearchResult.t)
    (movies : list MovieBrief.t) (movieSet : gmap string bool) (st st' : State) (w' : W)
    (movieDetails : OMDbResponse.t)
    (flow : Flow (list MovieBrief.t * gmap string bool) (list MovieBrief.t * option string)) :
  mapRead movieSet (SearchResult.ImdbID result) = false →
  EqualFold lib (SearchResult.Title result) excludeTitle = false →
  title up (world st) (SearchResult.Title result) = (w', Decoded movieDetails) →
  String.eqb (OMDbResponse.Response movieDetails) "False" = false →
  facetMatches lib searchType searchTerm movieDetails = true →
  gt (ratingOf lib (OMDbResponse.ImdbRating movieDetails)) zero = true →
  excludingResults lib up searchTerm searchType excludeTitle limit (result :: rest)
    movies movieSet st = (flow, st') →
  ∃ added : list MovieBrief.t,
    match flow with
    | Next (movies', _) => movies' = movies ++ briefOf movieDetails :: added
    | Return (movies', _) => movies' = movies ++ briefOf movieDetails :: added
    end.
Proof.
  intros Hseen Hother Htitle Hresponse Hmatch Hrating. cbn [excludingResults].
  rewrite Hseen, Hother. cbn [orb].
  unfold mbind, M_bind at 1. unfold GetMovieByTitle, makeRequest.
  rewrite Htitle. cbv iota beta. rewrite Hresponse. cbv iota beta.
  rewrite Hresponse, Hmatch, Hrating.
  destruct (limit <=? _)%Z.
  - intros [= <- _]. by exists [].
  - intros Hrun.
    apply excludingResults_spec in Hrun as (added & sent & _ & _ & _ & Hflow).
    exists added. destruct flow as [[movies' movieSet']|[movies' err]].
    + destruct Hflow as [-> _]. by rewrite <- app_assoc.
    + destruct Hflow as (-> & _ & _). by rewrite <- app_assoc.
Qed.

Lemma getMoviesExcluding_first (searchTerm searchType excludeTitle : string) (limit : Z)
    (st st' : State) (w2 w3 : W) (searchResp : SearchResponse.t)
    (result : SearchResult.t) (rest : list SearchResult.t) (movieDetails : OMDbResponse.t)
    (movies : list MovieBrief.t) (err : option string) :
  search up (world st) searchTerm (Some 1%Z) = (w2, Decoded searchResp) →
  String.eqb (SearchResponse.Response searchResp) "False" = false →
  SearchResponse.Search searchResp = result :: rest →
  EqualFold lib (SearchResult.Title result) excludeTitle = false →
  title up w2 (SearchResult.Title result) = (w3, Decoded movieDetails) →
  String.eqb (OMDbResponse.Response movieDetails) "False" = false →
  facetMatches lib searchType searchTerm movieDetails = true →
  gt (ratingOf lib (OMDbResponse.ImdbRating movieDetails)) zero = true →
  getMoviesExcluding lib up searchTerm searchType excludeTitle limit st
    = ((movies, err), st') →
  ∃ added : list MovieBrief.t, movies = briefOf movieDetails :: added.
Proof.
  intros Hsearch Hpage Hhits Hother Htitle Hresponse Hmatch Hrating.
  unfold getMoviesExcluding. cbn [excludingPages].
  unfold mbind, M_bind at 1. unfold SearchMovies.
  change (0 <? 1)%Z with true. cbv iota. rewrite Hsearch. cbv iota beta.
  rewrite Hpage, Hhits.
  unfold mbind, M_bind at 1.
  destruct (excludingResults _ _ _ _ _ _ _ _ _ _) as [flow st1] eqn:Hresults.
  apply (excludingResults_first _ _ _ _ _ _ _ _ _ _ w3 movieDetails) in Hresults
    as [added Hflow]; [|apply mapRead_empty | done..].
  rewrite app_nil_l in Hflow.
  destruct flow as [[movies1 movieSet1]|[movies1 err1]]; subst movies1.
  - intros Hrun.
    change (excludingPages lib up searchTerm searchType excludeTitle limit [2%Z]
              (briefOf movieDetails :: added) movieSet1 st1 = (movies, err, st')) in Hrun.
    apply excludingPages_spec in Hrun as (added2 & _ & _ & _ & _ & -> & _);
      [|repeat constructor; by right].
    by exists (added ++ added2).
  - intros [= <- _ _]. by exists added.
Qed.

Lemma facetLoop_first (searchType excludeTitle name : string) (others : list string)
    (st st' : State) (w2 w3 : W) (searchResp : SearchResponse.t)
    (result : SearchResult.t) (rest : list SearchResult.t) (movieDetails : OMDbResponse.t)
    (based' : list MovieBrief.t) :
  search up (world st) name (Some 1%Z) = (w2, Decoded searchResp) →
  String.eqb (SearchResponse.Response searchResp) "False" = false →
  SearchResponse.Search searchResp = result :: rest →
  EqualFold lib (SearchResult.Title result) excludeTitle = false →
  title up w2 (SearchResult.Title result) = (w3, Decoded movieDetails) →
  String.eqb (OMDbResponse.Response movieDetails) "False" = false →
  facetMatches lib searchType name movieDetails = true →
  gt (ratingOf lib (OMDbResponse.ImdbRating movieDetails)) zero = true →
  facetLoop lib up searchType excludeTitle (name :: others) [] st = (based', st') →
  ∃ added : list MovieBrief.t, based' = briefOf movieDetails :: added.
Proof.
  intros Hsearch Hpage Hhits Hother Htitle Hresponse Hmatch Hrating.
  cbn [facetLoop]. change (20 <=? len [])%Z with false. cbv iota.
  unfold mbind, M_bind at 1.
  destruct (getMoviesExcluding _ _ _ _ _ _ st) as [[movies err] st1] eqn:Hcall.
  change (wrapInt (20 - len [])) with 20%Z in Hcall.
  pose proof Hcall as Hspec.
  apply getMoviesExcluding_spec in Hspec as (-> & _ & Hcap & _).
  eapply getMoviesExcluding_first in Hcall as [added Hmovies]; [|done..]. subst movies.
  rewrite app_nil_l. intros Hrun.
  apply facetLoop_spec in Hrun as (added2 & _ & -> & _); [|apply Hcap; lia].
  by exists (added ++ added2).
Qed.

(** *** The genre facet *)

(** C1 (as amended): for a seed whose lookup succeeds, the genre facet is
    the ranked outcome of one loop over the pieces of the seed's genre
    text cut at ", ", and that loop searches these raw genre names and
    nothing else.  Its first request is the search of page 1 of the
    first name; its searches are pages 1 and 2 of name after name, in
    the order of the text, up to the last name or up to the name at
    which the list reaches its 20 entries, page 2 of that name being
    left out when page 1 fills the list; every title lookup is for a hit
    not titled like the seed.  Every entry listed is the brief of a hit
    that a search of one of these names found, not titled like the seed,
    looked up to a record rated above zero whose genre text contains
    that very name, both lower-cased (the genre predicate).  And when
    page 1 of the first name opens with such a hit, its brief opens the
    loop's list and is in the facet.  The Term Expander takes no part in
    it. *)
Theorem genre_facet_searches_raw_genre_names (favoriteMovie : string) (st : State) (w1 : W)
    (movieDetails : OMDbResponse.t) :
  title up (world st) favoriteMovie = (w1, Decoded movieDetails) →
  String.eqb (OMDbResponse.Response movieDetails) "False" = false →
  let seed := OMDbResponse.Title movieDetails in
  let st1 := mkState w1 (requests st ++ [TitleRequest favoriteMovie]) in
  let genres := Split (OMDbResponse.Genre movieDetails) ", " in
  let answer := GetRecommendations lib up favoriteMovie st in
  ∃ (byGenre : list MovieBrief.t) (st2 : State) (sent later : list Request),
    facetLoop lib up "genre" seed genres [] st1 = (byGenre, st2) ∧
    genreBased answer.1 = sortMoviesByRating lib byGenre ∧
    (len byGenre <= 20)%Z ∧
    requests st2 = requests st1 ++ sent ∧
    requests answer.2 = requests st1 ++ sent ++ later ∧
    (∃ name others, genres = name :: others ∧
                    head (searchesOf sent) = Some (name, Some 1%Z)) ∧
    (∃ (k : nat) (last : list (string * option Z)),
       searchesOf sent = bothPages (take k genres) ++ last ∧
       (last = [] ∧ (k = length genres ∨ (20 <= len byGenre)%Z)
        ∨ ∃ name, genres !! k = Some name ∧ last = pagesOf name [1%Z] ∧
                  (20 <= len byGenre)%Z)) ∧
    Forall (λ r, ∃ name, name ∈ genres ∧ sentFor lib name seed r) sent ∧
    (∃ picked : list Pick,
       byGenre = briefs picked ∧
       Forall (λ p, ∃ name, name ∈ genres ∧ foundBy up name p ∧ lookedUp up p ∧
                            ratedUp lib p ∧
                            EqualFold lib (SearchResult.Title (hit p)) seed = false ∧
                            Contains (ToLower lib (OMDbResponse.Genre (details p)))
                              (ToLower lib name) = true) picked) ∧
    (∀ (name : string) (others : list string) (w2 w3 : W) (searchResp : SearchResponse.t)
       (result : SearchResult.t) (rest : list SearchResult.t) (found : OMDbResponse.t),
       genres = name :: others →
       search up w1 name (Some 1%Z) = (w2, Decoded searchResp) →
       String.eqb (SearchResponse.Response searchResp) "False" = false →
       SearchResponse.Search searchResp = result :: rest →
       EqualFold lib (SearchResult.Title result) seed = false →
       title up w2 (SearchResult.Title result) = (w3, Decoded found) →
       String.eqb (OMDbResponse.Response found) "False" = false →
       Contains (ToLower lib (OMDbResponse.Genre found)) (ToLower lib name) = true →
       gt (ratingOf lib (OMDbResponse.ImdbRating found)) zero = true →
       head byGenre = Some (briefOf found) ∧ briefOf found ∈ genreBased answer.1).
Proof.
  intros Hseed Hresponse. cbv zeta.
  destruct (RecommendationFacts.GetRecommendations_unfold lib up favoriteMovie st w1
              movieDetails Hseed Hresponse)
    as (byGenre & byDirector & byActor & st2 & st3 & st4 & Hgenre & Hdirector & Hactor & Hrun).
  cbv zeta in Hgenre, Hdirector, Hactor, Hrun.
  rewrite Hrun. cbn [fst snd genreBased RecommendationsResponse.Recommendations
                     RecommendationsByCategory.GenreBased].
  pose proof Hgenre as Hspec.
  apply facetLoop_spec in Hspec as (added & sent & Hadded & Hcap & _ & Hreq & Hsent); [|done].
  rewrite app_nil_l in Hadded. subst added.
  apply facetLoop_spec in Hdirector as (_ & sentD & _ & _ & _ & HreqD & _); [|done].
  apply facetLoop_spec in Hactor as (_ & sentA & _ & _ & _ & HreqA & _); [|done].
  pose proof Hgenre as Hsearches.
  apply facetLoop_searches in Hsearches as (sent' & k & last & Hreq' & Hsearches & Hlast & Hhead).
  assert (sent' = sent) as -> by (rewrite Hreq in Hreq'; by apply app_inv_head in Hreq').
  pose proof Hgenre as Hpicks.
  apply facetLoop_picks in Hpicks as (picked & Hpicked & Hall).
  rewrite app_nil_l in Hpicked.
  exists byGenre, st2, sent, (sentD ++ sentA).
  split_and!; try done.
  - by rewrite HreqA, HreqD, Hreq, <- !app_assoc.
  - destruct (Split (OMDbResponse.Genre movieDetails) ", ") as [|name others] eqn:Hgenres.
    { by apply SplitFacts.splitFrom_nonempty in Hgenres. }
    exists name, others. split; [done|]. by apply (Hhead eq_refl name others).
  - by exists k, last.
  - exists picked. split; [done|]. eapply Forall_impl; [exact Hall|].
    intros p (name & Hin & Hfound & Hlooked & Hrated & Hother & Hmatch).
    exists name. split_and!; first [done | exact Hmatch].
  - intros name others w2 w3 searchResp result rest found Hgenres Hsearch Hpage Hhits Hother
           Htitle Hfound Hmatch Hrating.
    rewrite Hgenres in Hgenre.
    eapply facetLoop_first in Hgenre as [others' ->]; [|done..].
    split; [done|].
    rewrite sortMoviesByRating_Permutation. by left.
Qed.

(** *** Ratings *)


End Facet.

End FacetFacts.

(* ===================================================================== *)
(** ** The further properties at work *)
(* ===================================================================== *)

Module CoverageScenarios.

Import GoStrconv GoURL Services Scenarios DetailScenarios.

(** *** Numbers *)

Example Atoi_accepts :
  Atoi "7" = inl 7%Z ∧ Atoi "+07" = inl 7%Z ∧ Atoi "-12" = inl (-12)%Z ∧
  Atoi "9223372036854775807" = inl (2 ^ 63 - 1)%Z ∧
  Atoi "-9223372036854775808" = inl (- 2 ^ 63)%Z.
Proof. split_and!; reflexivity. Qed.

Example Atoi_rejects :
  Atoi "" = inr ErrSyntax ∧ Atoi "-" = inr ErrSyntax ∧ Atoi "1x" = inr ErrSyntax ∧
  Atoi " 1" = inr ErrSyntax ∧ Atoi "1.0" = inr ErrSyntax ∧
  Atoi "9223372036854775808" = inr ErrRange ∧
  Atoi "99999999999999999999x" = inr ErrRange.
Proof. split_and!; reflexivity. Qed.

Example Itoa_writes :
  Itoa 0 = "0" ∧ Itoa 42 = "42" ∧ Itoa (-7) = "-7" ∧
  Itoa (- 2 ^ 63) = "-9223372036854775808".
Proof. split_and!; reflexivity. Qed.

(** *** The episode handler *)

(** Season "01" and episode "+1" are sent as "1" and "1". *)
Example episode_query :
  Lookups.sent (DetailHandlers.GetEpisodeDetails "key" series "Breaking Bad" "01" "+1" start).2
  = [Lookups.episodeParams "key" "Breaking Bad" 1 1] ∧
  Get (Lookups.episodeParams "key" "Breaking Bad" 1 1) "Season" = "1".
Proof. split; vm_compute; reflexivity. Qed.

Lemma episode_handler_answers_witness :
  (DetailHandlers.GetEpisodeDetails "key" series "Breaking Bad" "01" "+1" start).1
  = DetailHandlers.mkReply 200
      (DetailHandlers.EpisodeDetailsPayload
         (EpisodeDetailsResponse.mk "Pilot" "Breaking Bad" "1" "1" "2008"
            "A chemistry teacher turns to crime." "Vince Gilligan"
            "Bryan Cranston, Anna Gunn, Aaron Paul"
            [Rating.mk "Internet Movie Database" "9.0/10"] "9.0")).
Proof.
  exact (DetailFacts.episode_handler_answers "key" series "Breaking Bad" "01" "+1" 1 1 start
           eq_refl eq_refl eq_refl).
Defined.

(** An episode that the catalog does not have is answered 404. *)
Example episode_missing :
  DetailHandlers.status
    (DetailHandlers.GetEpisodeDetails "key" series "Breaking Bad" "9" "9" start).1 = 404%Z.
Proof. vm_compute. reflexivity. Qed.

(** *** The genre listing *)

Lemma GetMoviesByGenre_keeps_the_best_witness :
  ∃ movies dropped : list MovieBrief.t,
    (GetMoviesByGenre asciiLib jazzPages "jazz" 1 (mkState () [])).1
      = Returned (movies, None) ∧
    movies ++ dropped ≡ₚ (collectByGenre asciiLib jazzPages "jazz" 1 (mkState () [])).1 ∧
    nonIncreasing asciiLib (movies ++ dropped) ∧
    len movies = Z.min 1 (len (collectByGenre asciiLib jazzPages "jazz" 1 (mkState () [])).1).
Proof.
  apply (RankedFacts.GetMoviesByGenre_keeps_the_best asciiLib jazzPages "jazz" 1
           (mkState () [])).
  lia.
Defined.

Lemma GetMoviesByGenre_without_limit_sends_nothing_witness :
  GetMoviesByGenre asciiLib jazzPages "jazz" 0 (mkState () [])
  = (Returned ([], None), mkState () []).
Proof.
  apply (TrafficFacts.GetMoviesByGenre_without_limit_sends_nothing asciiLib jazzPages
           "jazz" 0 (mkState () [])).
  lia.
Defined.

(** With a limit of 1 the bound of four is reached. *)
Lemma GetMoviesByGenre_collects_cap_and_two_witness :
  (len (collectByGenre asciiLib jazzPages "jazz" 1 (mkState () [])).1 <= 2 * 1 + 2)%Z.
Proof.
  apply (CapFacts.GetMoviesByGenre_collects_cap_and_two asciiLib jazzPages "jazz" 1
           (mkState () [])).
  lia.
Defined.

Example four_collected :
  len (collectByGenre asciiLib jazzPages "jazz" 1 (mkState () [])).1 = 4%Z.
Proof. vm_compute. reflexivity. Qed.

(** *** The genre facet and the ratings *)

Lemma genre_facet_searches_raw_genre_names_witness :
  let answer := GetRecommendations asciiLib bothGenres "The Matrix" (mkState () []) in
  ∃ sent later : list Request,
    requests answer.2 = [TitleRequest "The Matrix"] ++ sent ++ later ∧
    head (Traffic.searchesOf sent) = Some ("Action", Some 1%Z) ∧
    MovieBrief.mk "Dune" "" "8.0" "Action, Sci-Fi" "Denis Villeneuve" ""
      ∈ genreBased answer.1.
Proof.
  destruct (FacetFacts.genre_facet_searches_raw_genre_names asciiLib bothGenres "The Matrix"
              (mkState () []) () seedRecord eq_refl eq_refl)
    as (byGenre & st2 & sent & later & _ & _ & _ & _ & Hreq
        & (name & others & Hgenres & Hhead) & _ & _ & _ & Hfirst).
  exists sent, later. split_and!.
  - exact Hreq.
  - vm_compute in Hgenres. injection Hgenres as <- <-. exact Hhead.
  - apply (Hfirst "Action" ["Sci-Fi"] () ()
             (SearchResponse.mk [Tables.hit "Dune" "tt1160419"] "" "True" "")
             (Tables.hit "Dune" "tt1160419") []
             (OMDbResponse.mk "Dune" "" "Action, Sci-Fi" "Denis Villeneuve" "Zendaya" ""
                "8.0" "tt1160419" "True" "")); reflexivity.
Defined.



End CoverageScenarios.
